(** * BinanceBot: the order engine of [main.py]

    A shallow embedding of [BinanceTradingBot] (symbol clean-up, the
    price quantizer of the grid loop, the six [place_*_order] methods
    and the order ledger they write to) together with the properties of
    the engine.

    Conventions of the embedding.
    - A Python [float] is a primitive binary64 [float]; arithmetic is the
      IEEE-754 arithmetic of [PrimFloat], in the order the source writes it.
    - A Python [int] is a [Z]; a [str] is a [string] of ASCII characters.
    - [decimal.Decimal] is a sign, a coefficient and a decimal exponent.
    - The exchange client, the clock and [time.sleep] form the environment;
      the bot threads a [World] through every call, and an exception leaves
      the world as it was when it was raised (Python rolls nothing back).
    - Log calls are left out: they write to the log and do not raise. *)

From Stdlib Require Import ZArith NArith QArith Qpower Qround Lia Lqa Bool List.
From Stdlib Require Import Floats.
From Stdlib Require Import Ascii String.
From stdpp Require Import base option list gmap.

Set Warnings "-inexact-float".
Local Open Scope Z_scope.

(* ===================================================================== *)
(** * Python strings: [str.replace], [str.upper] *)
(* ===================================================================== *)

Module PyStr.

(** [s.startswith(p)] *)
Fixpoint startswith (p s : string) : bool :=
  match p, s with
  | EmptyString, _ => true
  | String a p', String b s' => if Ascii.eqb a b then startswith p' s' else false
  | String _ _, EmptyString => false
  end.

(** The scan of [s.replace(old, new)] for a non-empty [old]: occurrences
    are found left to right and do not overlap.  [skip] counts the
    characters of the occurrence just matched that are still to be
    dropped. *)
Fixpoint replace_from (old new : string) (skip : nat) (s : string) : string :=
  match s with
  | EmptyString => EmptyString
  | String c s' =>
      match skip with
      | S k => replace_from old new k s'
      | O =>
          if startswith old s
          then String.append new (replace_from old new (String.length old - 1) s')
          else String c (replace_from old new O s')
      end
  end.

Definition replace (old new s : string) : string := replace_from old new O s.

(** [c.upper()] on an ASCII character: the letters a..z move to A..Z. *)
Definition upper_ascii (c : ascii) : ascii :=
  let n := nat_of_ascii c in
  if (Nat.leb 97 n && Nat.leb n 122)%bool then ascii_of_nat (n - 32) else c.

(** [s.upper()] on a string of ASCII characters.  Outside ASCII Python
    maps by the Unicode tables and may lengthen the string; no such
    character is modelled, and a statement about the case or the length of
    a result is made for the strings [isascii] accepts. *)
Fixpoint upper (s : string) : string :=
  match s with
  | EmptyString => EmptyString
  | String c s' => String (upper_ascii c) (upper s')
  end.

(** [s.isascii()]: every character is below 128. *)
Fixpoint isascii (s : string) : bool :=
  match s with
  | EmptyString => true
  | String c s' => Nat.ltb (nat_of_ascii c) 128 && isascii s'
  end.

End PyStr.

(** [symbol.replace("USDT", "").upper() + "USDT"], the first statement of
    every method that takes a symbol. *)
Definition clean_symbol (symbol : string) : string :=
  String.append (PyStr.upper (PyStr.replace "USDT" "" symbol)) "USDT".

(* ===================================================================== *)
(** * Python floats and [decimal.Decimal] *)
(* ===================================================================== *)

Module PyNum.

Definition prec := FloatOps.prec.
Definition emax := FloatOps.emax.

(** The binary64 value nearest to [num / den] (ties to even), with the
    given sign: the rounding of [float(int)] and of [float(Decimal)]. *)
Definition round_ratio (sign : bool) (num den : positive) : float :=
  let '(q, e, l) := SFdiv_core_binary prec emax (Zpos num) 0 (Zpos den) 0 in
  SF2Prim (binary_round_aux prec emax sign q e l).

(** [float(z)] for a Python int; [None] is the [OverflowError] of an int
    beyond the range of a double. *)
Definition float_of_int (z : Z) : option float :=
  match z with
  | Z0 => Some PrimFloat.zero
  | Zpos p => let f := round_ratio false p 1 in
              if PrimFloat.is_infinity f then None else Some f
  | Zneg p => let f := round_ratio true p 1 in
              if PrimFloat.is_infinity f then None else Some f
  end.

(** ** Decimals *)

Inductive Decimal : Type :=
| DecFinite (sign : bool) (coeff : N) (exp : Z)
| DecInfinity (sign : bool)
| DecNaN.

(** The magnitude of a finite decimal, [coeff * 10^exp]. *)
Definition Dec_abs_value (coeff : N) (exp : Z) : Q :=
  (inject_Z (Z.of_N coeff) * (10 # 1) ^ exp)%Q.

(** The rational a finite decimal denotes.  An infinity and a NaN denote
    no rational: [Dec_value] is 0 for them by convention only, so a
    statement about values says something of finite decimals alone.  The
    properties of the quantizer on floats are stated on the floats and do
    not go through [Dec_value]. *)
Definition Dec_value (d : Decimal) : Q :=
  match d with
  | DecFinite s c e => if s then Qopp (Dec_abs_value c e) else Dec_abs_value c e
  | _ => 0%Q
  end.

(** Number of decimal digits of a coefficient ([len(self._int)], with 1
    for a zero coefficient). *)
Fixpoint digits10_fuel (fuel : nat) (n : N) : Z :=
  match fuel with
  | O => 1
  | S f => if (n <? 10)%N then 1 else 1 + digits10_fuel f (n / 10)%N
  end.

Definition digits10 (n : N) : Z := digits10_fuel (S (N.to_nat (N.log2 n))) n.

(** The context of the [decimal] module as the program leaves it: the
    default precision of 28 digits, [InvalidOperation] trapped. *)
Definition context_prec : Z := 28.

(** [coeff * 10^exp] rewritten at exponent [-2] with the digits beyond
    the second decimal place dropped ([_rescale(-2, ROUND_DOWN)]). *)
Definition rescale_cents (coeff : N) (exp : Z) : N :=
  if (-2 <=? exp) then (coeff * 10 ^ Z.to_N (exp + 2))%N
  else (coeff / 10 ^ Z.to_N (- 2 - exp))%N.

(** [d.quantize(Decimal('0.01'), rounding=ROUND_DOWN)].  [None] is the
    [InvalidOperation] raised for an infinity and for a result that
    would need more than [context_prec] digits; a quiet NaN passes
    through. *)
Definition quantize_cents (d : Decimal) : option Decimal :=
  match d with
  | DecNaN => Some DecNaN
  | DecInfinity _ => None
  | DecFinite s c e =>
      if (c =? 0)%N then Some (DecFinite s 0 (-2))
      else if (context_prec <? (e + digits10 c - 1) - (-2) + 1) then None
      else Some (DecFinite s (rescale_cents c e) (-2))
  end.

(** [float(d)] *)
Definition float_of_Decimal (d : Decimal) : float :=
  match d with
  | DecNaN => PrimFloat.nan
  | DecInfinity s => if s then PrimFloat.neg_infinity else PrimFloat.infinity
  | DecFinite s c e =>
      match c with
      | N0 => if s then PrimFloat.neg_zero else PrimFloat.zero
      | Npos p =>
          match e with
          | Zneg k => round_ratio s p (10 ^ k)%positive
          | _ => round_ratio s (p * Z.to_pos (10 ^ e))%positive 1
          end
      end
  end.

(** ** [str(float)]: the shortest decimal that reads back as the float *)

(** [10^k <= num / den] *)
Definition pow10_le (k : Z) (num den : positive) : bool :=
  if 0 <=? k then (10 ^ k * Zpos den <=? Zpos num)
  else (Zpos den <=? Zpos num * 10 ^ (- k)).

(** [floor (log10 (num / den))]: from a first guess read off the bit
    lengths, step down until [10^k <= num / den], then up while
    [10^(k+1) <= num / den]. *)
Fixpoint log10_down (fuel : nat) (k : Z) (num den : positive) : Z :=
  match fuel with
  | O => k
  | S f => if pow10_le k num den then k else log10_down f (k - 1) num den
  end.

Fixpoint log10_up (fuel : nat) (k : Z) (num den : positive) : Z :=
  match fuel with
  | O => k
  | S f => if pow10_le (k + 1) num den then log10_up f (k + 1) num den else k
  end.

Definition floor_log10 (num den : positive) : Z :=
  let guess := (Z.log2 (Zpos num) - Z.log2 (Zpos den)) * 3 / 10 in
  log10_up 700 (log10_down 700 guess num den) num den.

(** [floor (num / den / 10^k)], and twice the remainder compared with the
    divisor: on which side of the half the dropped part lies. *)
Definition scaled_floor (k : Z) (num den : positive) : Z * comparison :=
  let '(a, b) := if 0 <=? k then (Zpos num, Zpos den * 10 ^ k)
                 else (Zpos num * 10 ^ (- k), Zpos den) in
  (a / b, (2 * (a mod b)) ?= b).

(** Does the decimal [c * 10^k] read back as the positive float [x]? *)
Definition reads_back (x : float) (c : Z) (k : Z) : bool :=
  match c with
  | Zpos p => PrimFloat.eqb (float_of_Decimal (DecFinite false (Npos p) k)) x
  | _ => false
  end.

(** The [n]-digit candidates around [num / den], whose leading digit
    stands at [10^mag]: the one below and the one above, the nearer first
    (on a tie the even one first). *)
Definition candidates (mag n : Z) (num den : positive) : list (Z * Z) :=
  let k := mag - (n - 1) in
  let '(lo, half) := scaled_floor k num den in
  match half with
  | Lt => [(lo, k); (lo + 1, k)]
  | Gt => [(lo + 1, k); (lo, k)]
  | Eq => if Z.even lo then [(lo, k); (lo + 1, k)] else [(lo + 1, k); (lo, k)]
  end.

Fixpoint shortest_from (fuel : nat) (mag n : Z) (x : float) (num den : positive)
  : option (Z * Z) :=
  match fuel with
  | O => None
  | S f =>
      match List.find (fun ck => reads_back x (fst ck) (snd ck)) (candidates mag n num den) with
      | Some ck => Some ck
      | None => shortest_from f mag (n + 1) x num den
      end
  end.

(** [Decimal(str(x))].  [repr] prints the shortest digit string that
    reads back as [x], and the one nearest to [x] among those; the decimal
    built from it has these digits.  Only the value matters to
    [quantize_cents], so the exponent is kept as the digits give it rather
    than as the printed form would.  Seventeen digits always read back, so
    the search ends before its fuel does and the last branch is dead. *)
Definition Decimal_of_str_float (x : float) : Decimal :=
  match Prim2SF x with
  | S754_nan => DecNaN
  | S754_infinity s => DecInfinity s
  | S754_zero s => DecFinite s 0 (-1)
  | S754_finite s m e =>
      let '(num, den) := match e with
                         | Zneg k => (m, (2 ^ k)%positive)
                         | _ => ((m * Z.to_pos (2 ^ e))%positive, 1%positive)
                         end in
      match shortest_from 17 (floor_log10 num den) 1 (PrimFloat.abs x) num den with
      | Some (c, k) => DecFinite s (Z.to_N c) k
      | None => DecNaN
      end
  end.

(** [float(Decimal(str(price)).quantize(Decimal('0.01'), rounding=ROUND_DOWN))] *)
Definition quantize_price (price : float) : option float :=
  match quantize_cents (Decimal_of_str_float price) with
  | Some d => Some (float_of_Decimal d)
  | None => None
  end.

End PyNum.

(* ===================================================================== *)
(** * Rounding to a double, as a relation

    [float(int)], [float(Decimal)] and the arithmetic of floats round a
    rational to the nearest double.  The notions below say what that is,
    apart from the algorithm that computes it. *)
(* ===================================================================== *)

(** [2^e] as a rational. *)
Definition pow2 (e : Z) : Q := ((2 # 1) ^ e)%Q.

(** [x / 2^e] *)
Definition scaled (x : Q) (e : Z) : Q := (x * pow2 (- e))%Q.

(** [x] against the middle of an interval. *)
Definition half_cmp (y mid : Q) (c : comparison) : Prop :=
  match c with
  | Lt => (y < mid)%Q
  | Eq => (y == mid)%Q
  | Gt => (mid < y)%Q
  end.

(** The mantissa [m] at exponent [e] and the location [l] describe [x]:
    [x] is [m * 2^e], or lies strictly between [m * 2^e] and [(m + 1) * 2^e],
    on the side of the middle that [l] tells. *)
Definition inbetween (x : Q) (m e : Z) (l : location) : Prop :=
  match l with
  | loc_Exact => (scaled x e == inject_Z m)%Q
  | loc_Inexact c =>
      (inject_Z m < scaled x e)%Q /\ (scaled x e < inject_Z m + 1)%Q
      /\ half_cmp (scaled x e) (inject_Z m + (1 # 2))%Q c
  end.

(** [2^(d-1) <= x < 2^d] *)
Definition mag_is (x : Q) (d : Z) : Prop := (pow2 (d - 1) <= x)%Q /\ (x < pow2 d)%Q.

Definition fexp64 (d : Z) : Z := SpecFloat.fexp prec emax d.

(** The float of sign [s] with the rounded mantissa [m1] at the exponent
    [e0]: a mantissa that reached [2^53] moves to the next exponent, and an
    exponent beyond the format gives an infinity. *)
Definition SFfinish (s : bool) (m1 e0 : Z) : spec_float :=
  if m1 =? 0 then S754_zero s
  else if m1 <? 2 ^ 53
       then if e0 <=? 971 then S754_finite s (Z.to_pos m1) e0 else S754_infinity s
       else if e0 + 1 <=? 971 then S754_finite s (Z.to_pos (2 ^ 52)) (e0 + 1)
            else S754_infinity s.

(** [f] is the binary64 value nearest to the positive [x], ties to even,
    with the sign [s]: the mantissa of [x] at the exponent its magnitude
    asks for, rounded. *)
Definition Rounds (s : bool) (x : Q) (f : spec_float) : Prop :=
  exists (d m0 : Z) (l0 : location),
    mag_is x d /\ 0 <= m0 /\ inbetween x m0 (fexp64 d) l0
    /\ f = SFfinish s (round_nearest_even m0 l0) (fexp64 d).

(** The float from a mantissa below [2^53] and an exponent. *)
Definition SFmake (m e : Z) : spec_float :=
  if m =? 0 then S754_zero false
  else if e <=? 971 then S754_finite false (Z.to_pos m) e else S754_infinity false.

(** The shape of a finite float: at most 53 bits, exactly 53 above the
    least exponent. *)
Definition canonical64 (m e : Z) : Prop :=
  0 < m < 2 ^ 53 /\ -1074 <= e <= 971 /\ (-1074 < e -> 2 ^ 52 <= m).

(** A float that is not negative and not a NaN. *)
Definition SFnonneg (f : spec_float) : Prop :=
  match f with
  | S754_zero s | S754_infinity s | S754_finite s _ _ => s = false
  | S754_nan => False
  end.

Definition pow10 (k : Z) : Q := ((10 # 1) ^ k)%Q.

(** The value of a finite float as the ratio [str(float)] works on. *)
Definition float_ratio (m : positive) (e : Z) : positive * positive :=
  match e with
  | Z.neg k => (m, (2 ^ k)%positive)
  | _ => ((m * Z.to_pos (2 ^ e))%positive, 1%positive)
  end.

(** [d.copy_negate()] *)
Definition Dec_opp (d : PyNum.Decimal) : PyNum.Decimal :=
  match d with
  | PyNum.DecFinite s c e => PyNum.DecFinite (negb s) c e
  | PyNum.DecInfinity s => PyNum.DecInfinity (negb s)
  | PyNum.DecNaN => PyNum.DecNaN
  end.

(** ** Floats as numbers

    What the grid needs of the arithmetic of floats: the number a float
    stands for, and what it is for a float to be the rounding of a number
    of either sign. *)








(* ===================================================================== *)
(** * Data model *)
(* ===================================================================== *)

Inductive OrderType := MARKET | LIMIT | STOP_LIMIT | OCO | GRID | TWAP.

Inductive OrderSide := BUY | SELL.

(** The [.value] of the two enums. *)
Definition OrderType_value (t : OrderType) : string :=
  match t with
  | MARKET => "MARKET" | LIMIT => "LIMIT" | STOP_LIMIT => "STOP_LIMIT"
  | OCO => "OCO" | GRID => "GRID" | TWAP => "TWAP"
  end.

Definition OrderSide_value (s : OrderSide) : string :=
  match s with BUY => "BUY" | SELL => "SELL" end.

(** The keyword arguments of one [client.futures_create_order(...)] call;
    an argument the call site does not pass is [None]. *)
Record OrderRequest := {
  rq_symbol : string;
  rq_side : string;
  rq_type : string;
  rq_timeInForce : option string;
  rq_quantity : float;
  rq_price : option float;
  rq_stopPrice : option float;
  rq_stopLimitPrice : option float;
  rq_stopLimitTimeInForce : option string
}.

(** The dict the exchange answers with: the bot reads ["orderId"] and
    keeps the rest as it came. *)
Record Order := {
  orderId : Z;
  order_fields : list (string * string)
}.

(** One element of [order_history]: [{**order, "timestamp": ..., ...}]. *)
Record HistoryEntry := {
  h_order : Order;
  timestamp : string;
  order_type : string;
  stop_price : option float;
  grid_level : option Z;
  slice_number : option Z
}.

(** What the [except] clauses of the bot tell apart, and the exceptions
    the modelled statements raise themselves. *)
Inductive Exn :=
| BinanceAPIException (status_code : Z) (message : string)
| BinanceOrderException (message : string)
| ZeroDivisionError
| OverflowError
| InvalidOperation
| ValueError
| OtherException (message : string).

(** What the bot does to the outside, in the order it does it. *)
Inductive Event :=
| Submit (r : OrderRequest)
| Sleep (seconds : float).

(** The bot object ([self.orders], [self.order_history]) and the events
    so far. *)
Record World := {
  orders : gmap Z Order;
  order_history : list HistoryEntry;
  trace : list Event
}.

Definition submissions (t : list Event) : list OrderRequest :=
  omap (fun ev => match ev with Submit r => Some r | Sleep _ => None end) t.

Definition sleeps (t : list Event) : list float :=
  omap (fun ev => match ev with Sleep s => Some s | Submit _ => None end) t.

(** Number of [futures_create_order] calls made so far. *)
Definition n_submitted (w : World) : nat := length (submissions (trace w)).

(** The world with one more event. *)
Definition with_event (w : World) (ev : Event) : World :=
  {| orders := orders w;
     order_history := order_history w;
     trace := trace w ++ [ev] |}.

(** [self.orders] after the orders [os] were stored one after the other. *)
Definition insert_all (os : list Order) (m : gmap Z Order) : gmap Z Order :=
  fold_left (fun m o => <[orderId o := o]> m) os m.

(* ===================================================================== *)
(** * State and exceptions *)
(* ===================================================================== *)

(** A statement runs in a world and ends in a world, with a value or with
    a raised exception.  The world an exception leaves behind is the one
    the [except] clause sees. *)
Definition M (A : Type) : Type := World -> World * (Exn + A).

Definition ret {A} (a : A) : M A := fun w => (w, inr a).

Definition raise {A} (e : Exn) : M A := fun w => (w, inl e).

Definition bind {A B} (m : M A) (k : A -> M B) : M B :=
  fun w => match m w with
           | (w', inr a) => k a w'
           | (w', inl e) => (w', inl e)
           end.

(** [try: m  except Exception: return d] as the whole body of a method. *)
Definition try_except {A} (m : M A) (default : A) : World -> World * A :=
  fun w => match m w with
           | (w', inr a) => (w', a)
           | (w', inl _) => (w', default)
           end.

Definition lift {A} (r : Exn + A) : M A := fun w => (w, r).

Declare Scope py_scope.
Delimit Scope py_scope with py.
Notation "x <- m ;; k" := (bind m (fun x => k))
  (at level 100, m at next level, right associativity) : py_scope.
Notation "m ;;; k" := (bind m (fun _ => k))
  (at level 100, right associativity) : py_scope.

(** [for x in xs: acc = body(acc, x)] *)
Fixpoint for_each {A X} (body : A -> X -> M A) (acc : A) (xs : list X) : M A :=
  match xs with
  | [] => ret acc
  | x :: xs' => bind (body acc x) (fun acc' => for_each body acc' xs')
  end.

(** [range(n)] *)
Definition py_range (n : Z) : list Z := List.map Z.of_nat (seq 0 (Z.to_nat n)).

(** [q / n] for a float [q] and an int [n]. *)
Definition float_div_int (q : float) (n : Z) : Exn + float :=
  match PyNum.float_of_int n with
  | None => inl OverflowError
  | Some d => if (n =? 0)%Z then inl ZeroDivisionError else inr (q / d)%float
  end.

(** [n * x] for an int [n] and a float [x]. *)
Definition int_mul_float (n : Z) (x : float) : Exn + float :=
  match PyNum.float_of_int n with
  | None => inl OverflowError
  | Some d => inr (d * x)%float
  end.

(* ===================================================================== *)
(** * The bot *)
(* ===================================================================== *)

Section Bot.

(** The environment of a run.
    - [exchange n r]: what [client.futures_create_order] does on the call
      that follows [n] earlier ones, asked for [r]: an order, or an
      exception.
    - [datetime_now n]: [datetime.now().isoformat()] read after [n]
      calls.
    - [sleep_error t]: the exception [time.sleep(t)] raises, if it does
      (a negative or NaN duration, one beyond the platform's range). *)
Variable exchange : nat -> OrderRequest -> Exn + Order.
Variable datetime_now : nat -> string.
Variable sleep_error : float -> option Exn.

Local Open Scope py_scope.

(** [self.client.futures_create_order] called with the keyword arguments [r] *)
Definition futures_create_order (r : OrderRequest) : M Order :=
  fun w => (with_event w (Submit r), exchange (n_submitted w) r).

(** [time.sleep(t)] *)
Definition time_sleep (t : float) : M unit :=
  fun w =>
    match sleep_error t with
    | Some e => (w, inl e)
    | None => (with_event w (Sleep t), inr tt)
    end.

(** [self.orders[order["orderId"]] = order] followed by
    [self.order_history.append({**order, "timestamp": ..., ...})]. *)
Definition record_order (order : Order) (kind : string)
    (stop : option float) (level slice : option Z) : M unit :=
  fun w =>
    ({| orders := <[orderId order := order]> (orders w);
        order_history :=
          order_history w ++
            [{| h_order := order;
                timestamp := datetime_now (n_submitted w);
                order_type := kind;
                stop_price := stop;
                grid_level := level;
                slice_number := slice |}];
        trace := trace w |},
     inr tt).

(** ** Single orders *)

Definition market_request (symbol : string) (side : OrderSide) (quantity : float)
  : OrderRequest :=
  {| rq_symbol := clean_symbol symbol;
     rq_side := OrderSide_value side;
     rq_type := OrderType_value MARKET;
     rq_timeInForce := None;
     rq_quantity := quantity;
     rq_price := None;
     rq_stopPrice := None;
     rq_stopLimitPrice := None;
     rq_stopLimitTimeInForce := None |}.

Definition place_market_order (symbol : string) (side : OrderSide)
    (quantity : float) : World -> World * option Order :=
  try_except
    (order <- futures_create_order (market_request symbol side quantity) ;;
     record_order order (OrderType_value MARKET) None None None ;;;
     ret (Some order))
    None.

Definition limit_request (symbol : string) (side : OrderSide)
    (quantity price : float) (time_in_force : string) : OrderRequest :=
  {| rq_symbol := clean_symbol symbol;
     rq_side := OrderSide_value side;
     rq_type := OrderType_value LIMIT;
     rq_timeInForce := Some time_in_force;
     rq_quantity := quantity;
     rq_price := Some price;
     rq_stopPrice := None;
     rq_stopLimitPrice := None;
     rq_stopLimitTimeInForce := None |}.

Definition place_limit_order (symbol : string) (side : OrderSide)
    (quantity price : float) (time_in_force : string)
  : World -> World * option Order :=
  try_except
    (order <- futures_create_order
                (limit_request symbol side quantity price time_in_force) ;;
     record_order order (OrderType_value LIMIT) None None None ;;;
     ret (Some order))
    None.

Definition stop_limit_request (symbol : string) (side : OrderSide)
    (quantity price stop_price : float) (time_in_force : string) : OrderRequest :=
  {| rq_symbol := clean_symbol symbol;
     rq_side := OrderSide_value side;
     rq_type := OrderType_value STOP_LIMIT;
     rq_timeInForce := Some time_in_force;
     rq_quantity := quantity;
     rq_price := Some price;
     rq_stopPrice := Some stop_price;
     rq_stopLimitPrice := None;
     rq_stopLimitTimeInForce := None |}.

Definition place_stop_limit_order (symbol : string) (side : OrderSide)
    (quantity price stop_price : float) (time_in_force : string)
  : World -> World * option Order :=
  try_except
    (order <- futures_create_order
                (stop_limit_request symbol side quantity price stop_price
                   time_in_force) ;;
     record_order order (OrderType_value STOP_LIMIT) (Some stop_price) None None ;;;
     ret (Some order))
    None.

(** ** OCO *)

Definition oco_request (symbol : string) (side : OrderSide)
    (quantity price stop_price stop_limit_price : float) : OrderRequest :=
  {| rq_symbol := clean_symbol symbol;
     rq_side := OrderSide_value side;
     rq_type := OrderType_value LIMIT;
     rq_timeInForce := Some "GTC"%string;
     rq_quantity := quantity;
     rq_price := Some price;
     rq_stopPrice := Some stop_price;
     rq_stopLimitPrice := Some stop_limit_price;
     rq_stopLimitTimeInForce := Some "GTC"%string |}.

Definition place_oco_order (symbol : string) (side : OrderSide)
    (quantity price stop_price : float) (stop_limit_price : option float)
  : World -> World * option Order :=
  try_except
    (let stop_limit_price :=
       match stop_limit_price with
       | None => stop_price
       | Some p => p
       end in
     order <- futures_create_order
                (oco_request symbol side quantity price stop_price
                   stop_limit_price) ;;
     record_order order "OCO"%string (Some stop_price) None None ;;;
     ret (Some order))
    None.

(** ** Grid *)

(** The price of one level before it is quantized. *)
Definition grid_raw_price (side : OrderSide) (base_price grid_percentage : float)
    (level : Z) : Exn + float :=
  match int_mul_float level grid_percentage with
  | inl e => inl e
  | inr step =>
      match side with
      | BUY => inr (base_price * (1 - (step / 100)))%float
      | SELL => inr (base_price * (1 + (step / 100)))%float
      end
  end.

(** The price of one level as it is submitted. *)
Definition grid_price (side : OrderSide) (base_price grid_percentage : float)
    (level : Z) : Exn + float :=
  match grid_raw_price side base_price grid_percentage level with
  | inl e => inl e
  | inr price =>
      match PyNum.quantize_price price with
      | None => inl InvalidOperation
      | Some p => inr p
      end
  end.

Definition grid_request (symbol : string) (side : OrderSide)
    (qty_per_level price : float) : OrderRequest :=
  limit_request symbol side qty_per_level price "GTC".

(** The body of [for level in range(grid_levels)]; [orders] is the local
    list of the method. *)
Definition grid_body (symbol : string) (side : OrderSide)
    (qty_per_level base_price grid_percentage : float)
    (orders : list Order) (level : Z) : M (list Order) :=
  price <- lift (grid_price side base_price grid_percentage level) ;;
  order <- futures_create_order (grid_request symbol side qty_per_level price) ;;
  record_order order (OrderType_value GRID) None (Some (level + 1)) None ;;;
  ret (orders ++ [order]).

Definition place_grid_order (symbol : string) (side : OrderSide)
    (quantity base_price : float) (grid_levels : Z) (grid_percentage : float)
  : World -> World * list Order :=
  try_except
    (qty_per_level <- lift (float_div_int quantity grid_levels) ;;
     for_each (grid_body symbol side qty_per_level base_price grid_percentage)
       [] (py_range grid_levels))
    [].

(** ** TWAP *)

Definition twap_body (symbol : string) (side : OrderSide)
    (qty_per_slice : float) (num_slices : Z) (time_interval : float)
    (orders : list Order) (slice_num : Z) : M (list Order) :=
  order <- futures_create_order (market_request symbol side qty_per_slice) ;;
  record_order order (OrderType_value TWAP) None None (Some (slice_num + 1)) ;;;
  let orders := orders ++ [order] in
  (if (slice_num <? num_slices - 1)%Z then time_sleep time_interval else ret tt) ;;;
  ret orders.

Definition place_twap_order (symbol : string) (side : OrderSide)
    (total_quantity : float) (num_slices : Z) (time_interval : float)
  : World -> World * list Order :=
  try_except
    (qty_per_slice <- lift (float_div_int total_quantity num_slices) ;;
     for_each (twap_body symbol side qty_per_slice num_slices time_interval)
       [] (py_range num_slices))
    [].

(** ** Worlds a run passes through

    The request of grid level [k], and the world after the levels
    [0 .. j-1] were submitted, answered with the orders [os 0 .. os (j-1)]
    and recorded. *)
Definition grid_level_request (symbol : string) (side : OrderSide)
    (qty_per_level base_price grid_percentage : float) (k : nat)
  : Exn + OrderRequest :=
  match grid_price side base_price grid_percentage (Z.of_nat k) with
  | inl e => inl e
  | inr price => inr (grid_request symbol side qty_per_level price)
  end.

Definition grid_entry (c0 : nat) (os : nat -> Order) (k : nat) : HistoryEntry :=
  {| h_order := os k;
     timestamp := datetime_now (c0 + S k);
     order_type := OrderType_value GRID;
     stop_price := None;
     grid_level := Some (Z.of_nat k + 1);
     slice_number := None |}.

Definition grid_world (w : World) (rs : nat -> OrderRequest) (os : nat -> Order)
    (j : nat) : World :=
  {| orders := insert_all (List.map os (seq 0 j)) (orders w);
     order_history :=
       order_history w ++ List.map (grid_entry (n_submitted w) os) (seq 0 j);
     trace := trace w ++ List.map (fun k => Submit (rs k)) (seq 0 j) |}.

(** Level [j] is computed to the request [rs j] and the exchange, asked
    after the levels before it, answers with the order [os j]. *)
Definition grid_accepted (symbol : string) (side : OrderSide)
    (qty_per_level base_price grid_percentage : float) (w : World)
    (rs : nat -> OrderRequest) (os : nat -> Order) (j : nat) : Prop :=
  grid_level_request symbol side qty_per_level base_price grid_percentage j
    = inr (rs j)
  /\ exchange (n_submitted w + j) (rs j) = inr (os j).

(** The events of the TWAP slices [0 .. j-1] out of [n]: a submission,
    and a sleep after it unless the slice is the last of the [n]. *)
Definition twap_events (r : OrderRequest) (t : float) (n j : nat) : list Event :=
  flat_map (fun k => if (S k <? n)%nat then [Submit r; Sleep t] else [Submit r])
    (seq 0 j).

Definition twap_entry (c0 : nat) (os : nat -> Order) (k : nat) : HistoryEntry :=
  {| h_order := os k;
     timestamp := datetime_now (c0 + S k);
     order_type := OrderType_value TWAP;
     stop_price := None;
     grid_level := None;
     slice_number := Some (Z.of_nat k + 1) |}.

Definition twap_world (w : World) (r : OrderRequest) (t : float) (n : nat)
    (os : nat -> Order) (j : nat) : World :=
  {| orders := insert_all (List.map os (seq 0 j)) (orders w);
     order_history :=
       order_history w ++ List.map (twap_entry (n_submitted w) os) (seq 0 j);
     trace := trace w ++ twap_events r t n j |}.

(** The exchange, asked for slice [j] after the slices before it,
    answers with the order [os j]. *)
Definition twap_accepted (r : OrderRequest) (w : World) (os : nat -> Order)
    (j : nat) : Prop :=
  exchange (n_submitted w + j) r = inr (os j).

(** The events of a whole TWAP run of [n] slices: submissions with a
    sleep between each two, none after the last. *)
Definition twap_schedule (r : OrderRequest) (t : float) (n : nat) : list Event :=
  match n with
  | O => []
  | S m => concat (repeat [Submit r; Sleep t] m) ++ [Submit r]
  end.

End Bot.

(** ** Scripted environments *)

(** An exchange that accepts every call but the one numbered [fail_at],
    and numbers its orders from 1000. *)
Definition scripted_exchange (fail_at : option nat) (n : nat) (r : OrderRequest)
  : Exn + Order :=
  if decide (fail_at = Some n)
  then inl (BinanceAPIException (-2010) "Order would immediately trigger.")
  else inr {| orderId := 1000 + Z.of_nat n;
              order_fields := [("symbol", rq_symbol r); ("status", "NEW")]%string |}.

Definition fixed_clock (n : nat) : string := "2024-01-01T00:00:00".

(** [time.sleep] as CPython has it: the seconds are turned into
    nanoseconds of a signed 64-bit count, which raises [ValueError] for a
    NaN and [OverflowError] beyond the range of the count; a negative
    length raises [ValueError]; every other length is slept. *)
Definition sleep_nonnegative (t : float) : option Exn :=
  if PrimFloat.is_nan t then Some ValueError
  else
    let ns := (t * 1e9)%float in
    if ((-9223372036854775808 <=? ns) && (ns <? 9223372036854775808))%float
    then if (t <? 0)%float then Some ValueError else None
    else Some OverflowError.

Definition empty_world : World :=
  {| orders := ∅; order_history := []; trace := [] |}.

(** The request a plan gives for level [j], and the order an exchange
    gives for it, read off as functions (with a placeholder where there is
    none). *)
Definition planned (plan : nat -> Exn + OrderRequest) (j : nat) : OrderRequest :=
  match plan j with
  | inr r => r
  | inl _ => market_request "" BUY 0
  end.

Definition answered (exchange : nat -> OrderRequest -> Exn + Order)
    (rs : nat -> OrderRequest) (j : nat) : Order :=
  match exchange j (rs j) with
  | inr o => o
  | inl _ => {| orderId := 0; order_fields := [] |}
  end.

(** The sign of a decimal as [quantize_cents] keeps it. *)
Definition Dec_sign (d : PyNum.Decimal) : bool :=
  match d with
  | PyNum.DecFinite s _ _ => s
  | PyNum.DecInfinity s => s
  | PyNum.DecNaN => false
  end.

(* ===================================================================== *)
(** * Ledgers of whole runs, and the methods that only ask *)
(* ===================================================================== *)

(** The history entries a Grid run appends for the orders [acc] it was
    given, in order: tagged GRID, levels numbered from 1, stamped after
    each call. *)
Definition grid_entries (datetime_now : nat -> string) (c0 : nat) (acc : list Order)
  : list HistoryEntry :=
  imap (fun k o => grid_entry datetime_now c0 (fun _ => o) k) acc.

(** The same for the slices of a TWAP run. *)
Definition twap_entries (datetime_now : nat -> string) (c0 : nat) (acc : list Order)
  : list HistoryEntry :=
  imap (fun k o => twap_entry datetime_now c0 (fun _ => o) k) acc.

(** [w'] has everything [w] had: the history and the events of [w] are
    the beginning of those of [w'], and every id stored in [w] is stored
    in [w']. *)
Definition ledger_extends (w w' : World) : Prop :=
  order_history w `prefix_of` order_history w'
  /\ trace w `prefix_of` trace w'
  /\ forall k : Z, is_Some (orders w !! k) -> is_Some (orders w' !! k).

(** The orders of the history entries that [w'] has beyond those of [w]. *)
Definition newly_recorded (w w' : World) : list Order :=
  List.map h_order (drop (length (order_history w)) (order_history w')).

(** History and index agree on what was recorded between [w] and [w']:
    each order recorded since is found in [orders] under its id, as an
    order of that id; and when the ids recorded since are pairwise
    distinct and were not in [orders] before, under each id stands the very
    order recorded and [orders] has grown by one key for each. *)
Definition ledger_indexed (w w' : World) : Prop :=
  (forall o, In o (newly_recorded w w') ->
     exists o', orders w' !! orderId o = Some o' /\ orderId o' = orderId o)
  /\ (NoDup (List.map orderId (newly_recorded w w')) ->
      (forall o, In o (newly_recorded w w') -> orders w !! orderId o = None) ->
      size (orders w') = (size (orders w) + length (newly_recorded w w'))%nat
      /\ forall o, In o (newly_recorded w w') -> orders w' !! orderId o = Some o).

(** [p in s] *)
Fixpoint str_contains (p s : string) : bool :=
  match s with
  | EmptyString => PyStr.startswith p EmptyString
  | String _ s' => PyStr.startswith p s || str_contains p s'
  end.

(** What a single-order method leaves behind, by the answer of the
    exchange to its one request [r]: nothing but the call when the
    exchange raises; otherwise the order returned, appended to the history
    under [kind] and [stop], and stored under its id. *)
Definition single_order_outcome (exchange : nat -> OrderRequest -> Exn + Order)
    (datetime_now : nat -> string) (w : World) (r : OrderRequest) (kind : string)
    (stop : option float) (run : World * option Order) : Prop :=
  match exchange (n_submitted w) r with
  | inl _ => run = (with_event w (Submit r), None)
  | inr order =>
      snd run = Some order
      /\ trace (fst run) = trace w ++ [Submit r]
      /\ order_history (fst run)
         = order_history w ++
             [{| h_order := order;
                 timestamp := datetime_now (S (n_submitted w));
                 order_type := kind;
                 stop_price := stop;
                 grid_level := None;
                 slice_number := None |}]
      /\ orders (fst run) !! orderId order = Some order
      /\ (forall k : Z, k <> orderId order -> orders (fst run) !! k = orders w !! k)
      /\ size (orders (fst run))
         = (if decide (is_Some (orders w !! orderId order))
            then size (orders w)
            else S (size (orders w)))
  end.

(** ** Cancelling and asking

    [cancel_order], [get_open_orders], [get_order_status] and
    [validate_symbol] call other methods of the client and do not write to
    the bot.  A [Session] is the bot together with the calls of this kind
    made so far. *)
Inductive ClientCall :=
| CallCancelOrder (symbol : string) (order_id : Z)
| CallGetOpenOrders (symbol : option string)
| CallGetOrder (symbol : string) (order_id : Z)
| CallExchangeInfo.

Record Session := {
  bot : World;
  client_calls : list ClientCall
}.

Section Queries.

(** What the client answers to the call that follows [n] earlier ones. *)
Variable futures_cancel_order : nat -> string -> Z -> Exn + Order.
Variable futures_get_open_orders : nat -> option string -> Exn + list Order.
Variable futures_get_order : nat -> string -> Z -> Exn + Order.
Variable futures_exchange_info : nat -> Exn + unit.

(** One call to the client: it is noted, and answered. *)
Definition client_call {A : Type} (c : ClientCall) (answer : nat -> Exn + A)
  : Session -> Session * (Exn + A) :=
  fun s =>
    ({| bot := bot s; client_calls := client_calls s ++ [c] |},
     answer (length (client_calls s))).

Definition validate_symbol (symbol : string) : Session -> Session * bool :=
  fun s =>
    let clean_symbol := clean_symbol symbol in
    match client_call CallExchangeInfo futures_exchange_info s with
    | (s', inr _) => (s', true)
    | (s', inl _) => (s', false)
    end.

Definition cancel_order (symbol : string) (order_id : Z) : Session -> Session * bool :=
  fun s =>
    let clean_symbol := clean_symbol symbol in
    match client_call (CallCancelOrder clean_symbol order_id)
            (fun n => futures_cancel_order n clean_symbol order_id) s with
    | (s', inr _) => (s', true)
    | (s', inl _) => (s', false)
    end.

(** [if symbol:] holds for a string that is not empty. *)
Definition get_open_orders (symbol : option string) : Session -> Session * list Order :=
  fun s =>
    match
      match symbol with
      | Some (String _ _ as symbol) =>
          let clean_symbol := clean_symbol symbol in
          client_call (CallGetOpenOrders (Some clean_symbol))
            (fun n => futures_get_open_orders n (Some clean_symbol)) s
      | _ =>
          client_call (CallGetOpenOrders None)
            (fun n => futures_get_open_orders n None) s
      end
    with
    | (s', inr orders) => (s', orders)
    | (s', inl _) => (s', [])
    end.

Definition get_order_status (symbol : string) (order_id : Z)
  : Session -> Session * option Order :=
  fun s =>
    let clean_symbol := clean_symbol symbol in
    match client_call (CallGetOrder clean_symbol order_id)
            (fun n => futures_get_order n clean_symbol order_id) s with
    | (s', inr order) => (s', Some order)
    | (s', inl _) => (s', None)
    end.

End Queries.

(** A client for the calls above: it knows the orders of a list, cancels
    and reports those, and answers every other id with an error. *)
Definition scripted_lookup (known : list Order) (n : nat) (symbol : string)
    (order_id : Z) : Exn + Order :=
  match List.find (fun o => (orderId o =? order_id)%Z) known with
  | Some o => inr o
  | None => inl (BinanceAPIException (-2011) "Unknown order sent.")
  end.

Definition scripted_open_orders (known : list Order) (n : nat)
    (symbol : option string) : Exn + list Order :=
  inr known.

Definition scripted_info (up : bool) (n : nat) : Exn + unit :=
  if up then inr tt else inl (OtherException "connection refused").

(* ===================================================================== *)
(** * Loops *)
(* ===================================================================== *)

Section Loops.

Context {A : Type}.
Variable body : A -> Z -> M A.

Lemma for_each_app (xs ys : list Z) (acc : A) (w : World) :
  for_each body acc (xs ++ ys) w
  = bind (for_each body acc xs) (fun acc' => for_each body acc' ys) w.
Proof.
  revert acc w; induction xs as [|x xs IH]; intros acc w; simpl.
  - reflexivity.
  - unfold bind in *. destruct (body acc x w) as [w1 [e|a1]]; [reflexivity|].
    apply IH.
Qed.

(** An invariant [I j] that every iteration carries from [j] to [S j]
    holds for the whole loop. *)
Lemma for_each_seq_ok (I : nat -> World -> A -> Prop) (len : nat) :
  forall (start : nat) (w : World) (acc : A),
    (forall j w a, (start <= j < start + len)%nat -> I j w a ->
       exists w' a', body a (Z.of_nat j) w = (w', inr a') /\ I (S j) w' a') ->
    I start w acc ->
    exists w' acc',
      for_each body acc (List.map Z.of_nat (seq start len)) w = (w', inr acc')
      /\ I (start + len)%nat w' acc'.
Proof.
  induction len as [|len IH]; intros start w acc Hstep H0; simpl.
  - exists w, acc. rewrite Nat.add_0_r. split; [reflexivity | assumption].
  - destruct (Hstep start w acc ltac:(lia) H0) as (w1 & a1 & Hb & H1).
    unfold bind. rewrite Hb.
    destruct (IH (S start) w1 a1) as (w2 & a2 & Hl & H2).
    + intros j w' a Hj. apply Hstep. lia.
    + assumption.
    + exists w2, a2. split; [assumption|].
      replace (start + S len)%nat with (S start + len)%nat by lia. assumption.
Qed.

(** If iteration [i] raises from every state the invariant allows, the
    loop raises there, and the iterations after [i] do not run. *)
Lemma for_each_range_raise (I : nat -> World -> A -> Prop)
    (Q : World -> Exn -> Prop) (i n : nat) (w : World) (acc : A) :
  (i < n)%nat ->
  (forall j w a, (j < i)%nat -> I j w a ->
     exists w' a', body a (Z.of_nat j) w = (w', inr a') /\ I (S j) w' a') ->
  (forall w a, I i w a ->
     exists w' e, body a (Z.of_nat i) w = (w', inl e) /\ Q w' e) ->
  I 0%nat w acc ->
  exists w' e,
    for_each body acc (List.map Z.of_nat (seq 0 n)) w = (w', inl e) /\ Q w' e.
Proof.
  intros Hin Hstep Hfail H0.
  replace n with (i + S (n - S i))%nat by lia.
  rewrite seq_app, List.map_app, for_each_app. simpl.
  destruct (for_each_seq_ok I i 0%nat w acc) as (w1 & a1 & Hl & H1).
  - intros j w' a Hj. apply Hstep. lia.
  - assumption.
  - unfold bind at 1. rewrite Hl. simpl.
    destruct (Hfail w1 a1 H1) as (w2 & e & Hb & HQ).
    unfold bind. rewrite Hb. exists w2, e. split; [reflexivity | assumption].
Qed.

End Loops.

(* ===================================================================== *)
(** * Traces and ledgers *)
(* ===================================================================== *)

Lemma submissions_app (t u : list Event) :
  submissions (t ++ u) = submissions t ++ submissions u.
Proof. unfold submissions. apply omap_app. Qed.

Lemma sleeps_app (t u : list Event) : sleeps (t ++ u) = sleeps t ++ sleeps u.
Proof. unfold sleeps. apply omap_app. Qed.

Lemma submissions_map_Submit {X} (f : X -> OrderRequest) (l : list X) :
  submissions (List.map (fun x => Submit (f x)) l) = List.map f l.
Proof. induction l as [|x l IH]; simpl; [reflexivity | f_equal; exact IH]. Qed.

Lemma sleeps_map_Submit {X} (f : X -> OrderRequest) (l : list X) :
  sleeps (List.map (fun x => Submit (f x)) l) = [].
Proof. induction l as [|x l IH]; simpl; [reflexivity | exact IH]. Qed.

Lemma insert_all_snoc (os : list Order) (o : Order) (m : gmap Z Order) :
  insert_all (os ++ [o]) m = <[orderId o := o]> (insert_all os m).
Proof. unfold insert_all. rewrite fold_left_app. reflexivity. Qed.

(** An id that was stored stays in the map, under an order of that id. *)
Lemma insert_all_lookup (os : list Order) (o : Order) (m : gmap Z Order) :
  In o os ->
  exists o', insert_all os m !! orderId o = Some o' /\ orderId o' = orderId o.
Proof.
  induction os as [|x os IH] using rev_ind; intros Hin; [destruct Hin|].
  rewrite insert_all_snoc.
  destruct (decide (orderId x = orderId o)) as [Heq|Hne].
  - exists x. rewrite <- Heq, lookup_insert_eq. split; reflexivity.
  - rewrite lookup_insert_ne by assumption.
    apply in_app_or in Hin. destruct Hin as [Hin|[->|[]]]; [auto | congruence].
Qed.

(** No stored entry is dropped or replaced under another id. *)
Lemma insert_all_keeps (os : list Order) (k : Z) (m : gmap Z Order) :
  is_Some (m !! k) -> is_Some (insert_all os m !! k).
Proof.
  induction os as [|x os IH] using rev_ind; intros Hk; [assumption|].
  rewrite insert_all_snoc.
  destruct (decide (orderId x = k)) as [<-|Hne].
  - rewrite lookup_insert_eq. eauto.
  - rewrite lookup_insert_ne by assumption. auto.
Qed.

(** With ids that are new and pairwise distinct the map grows by one key
    per order and stores each order as it came. *)
Lemma insert_all_fresh (os : list Order) (m : gmap Z Order) :
  NoDup (List.map orderId os) ->
  (forall o, In o os -> m !! orderId o = None) ->
  size (insert_all os m) = (size m + length os)%nat
  /\ (forall o, In o os -> insert_all os m !! orderId o = Some o)
  /\ (forall k, (forall o, In o os -> orderId o <> k) -> insert_all os m !! k = m !! k).
Proof.
  induction os as [|x os IH] using rev_ind; intros Hnd Hfresh.
  - simpl. split; [lia|]. split; [intros o []|reflexivity].
  - rewrite List.map_app in Hnd. simpl in Hnd.
    apply NoDup_app in Hnd. destruct Hnd as (Hnd & Hdisj & _).
    destruct IH as (Hsize & Hget & Hother).
    + assumption.
    + intros o Ho. apply Hfresh, in_or_app. left. assumption.
    + assert (Hx : insert_all os m !! orderId x = None).
      { rewrite Hother.
        - apply Hfresh, in_or_app. right. left. reflexivity.
        - intros o Ho Heq. apply (Hdisj (orderId o)).
          + apply list_elem_of_In, in_map. assumption.
          + rewrite Heq. apply list_elem_of_In. left. reflexivity. }
      rewrite insert_all_snoc. split; [|split].
      * rewrite map_size_insert_None by assumption.
        rewrite Hsize, length_app. simpl. lia.
      * intros o Ho. apply in_app_or in Ho. destruct Ho as [Ho|[->|[]]].
        -- rewrite lookup_insert_ne; [auto|].
           intros Heq. apply (Hdisj (orderId o)).
           ++ apply list_elem_of_In, in_map. assumption.
           ++ rewrite <- Heq. apply list_elem_of_In. left. reflexivity.
        -- apply lookup_insert_eq.
      * intros k Hk. rewrite lookup_insert_ne.
        -- apply Hother. intros o Ho. apply Hk, in_or_app. left. assumption.
        -- apply Hk, in_or_app. right. left. reflexivity.
Qed.

(** ** The events of TWAP slices *)

Lemma twap_events_S (r : OrderRequest) (t : float) (n j : nat) :
  twap_events r t n (S j)
  = twap_events r t n j ++ (if (S j <? n)%nat then [Submit r; Sleep t] else [Submit r]).
Proof.
  unfold twap_events. rewrite seq_S, flat_map_app. simpl.
  rewrite app_nil_r. reflexivity.
Qed.

Lemma submissions_twap_events (r : OrderRequest) (t : float) (n j : nat) :
  submissions (twap_events r t n j) = repeat r j.
Proof.
  induction j as [|j IH]; [reflexivity|].
  rewrite twap_events_S, submissions_app, IH.
  replace (repeat r (S j)) with (repeat r j ++ [r])
    by (rewrite <- repeat_cons; reflexivity).
  destruct (S j <? n)%nat; reflexivity.
Qed.

Lemma sleeps_twap_events (r : OrderRequest) (t : float) (n j : nat) :
  sleeps (twap_events r t n j) = repeat t (Nat.min j (n - 1)).
Proof.
  induction j as [|j IH]; [reflexivity|].
  rewrite twap_events_S, sleeps_app, IH.
  destruct (Nat.ltb_spec (S j) n) as [Hlt|Hge].
  - replace (Nat.min (S j) (n - 1)) with (Nat.min j (n - 1) + 1)%nat by lia.
    rewrite repeat_app. reflexivity.
  - replace (Nat.min (S j) (n - 1)) with (Nat.min j (n - 1)) by lia.
    simpl. apply app_nil_r.
Qed.

Lemma twap_events_before_last (r : OrderRequest) (t : float) (n j : nat) :
  (j < n)%nat ->
  twap_events r t n j = concat (repeat [Submit r; Sleep t] j).
Proof.
  induction j as [|j IH]; intros Hj; [reflexivity|].
  rewrite twap_events_S, IH by lia.
  destruct (Nat.ltb_spec (S j) n); [|lia].
  replace (repeat [Submit r; Sleep t] (S j))
    with (repeat [Submit r; Sleep t] j ++ [[Submit r; Sleep t]])
    by (rewrite <- repeat_cons; reflexivity).
  rewrite concat_app. simpl. reflexivity.
Qed.

(** The events of all [n] slices are the schedule. *)
Lemma twap_events_all (r : OrderRequest) (t : float) (n : nat) :
  twap_events r t n n = twap_schedule r t n.
Proof.
  destruct n as [|m]; [reflexivity|].
  rewrite twap_events_S, twap_events_before_last by lia.
  destruct (Nat.ltb_spec (S m) (S m)); [lia|]. reflexivity.
Qed.

(* ===================================================================== *)
(** * Runs of the two strategies *)
(* ===================================================================== *)

Section Runs.

Variable exchange : nat -> OrderRequest -> Exn + Order.
Variable datetime_now : nat -> string.
Variable sleep_error : float -> option Exn.

Lemma n_submitted_with_Submit (w : World) (r : OrderRequest) :
  n_submitted (with_event w (Submit r)) = S (n_submitted w).
Proof.
  unfold n_submitted, with_event. simpl.
  rewrite submissions_app, length_app. simpl. lia.
Qed.

Lemma n_submitted_with_Sleep (w : World) (t : float) :
  n_submitted (with_event w (Sleep t)) = n_submitted w.
Proof.
  unfold n_submitted, with_event. simpl.
  rewrite submissions_app, length_app. simpl. lia.
Qed.

(** ** Grid *)

Section Grid.

Variables (symbol : string) (side : OrderSide).
Variables (quantity base_price grid_percentage qty_per_level : float).
Variable grid_levels : Z.
Variable w : World.
Variable rs : nat -> OrderRequest.
Variable os : nat -> Order.

Let plan := grid_level_request symbol side qty_per_level base_price grid_percentage.
Let body := grid_body exchange datetime_now symbol side qty_per_level base_price
              grid_percentage.
Let after := grid_world datetime_now w rs os.

Let grid_accepted := grid_accepted exchange symbol side qty_per_level base_price
                       grid_percentage w rs os.

Lemma n_submitted_grid_world (j : nat) :
  n_submitted (after j) = (n_submitted w + j)%nat.
Proof.
  unfold after, grid_world, n_submitted. simpl.
  rewrite submissions_app, length_app, submissions_map_Submit.
  rewrite length_map, length_seq. reflexivity.
Qed.

Lemma grid_world_S (j : nat) (r : OrderRequest) :
  r = rs j ->
  {| orders := <[orderId (os j) := os j]> (orders (with_event (after j) (Submit r)));
     order_history :=
       order_history (with_event (after j) (Submit r)) ++
         [grid_entry datetime_now (n_submitted w) os j];
     trace := trace (with_event (after j) (Submit r)) |}
  = after (S j).
Proof.
  intros ->. unfold after, grid_world, with_event.
  rewrite seq_S, !List.map_app. cbn [orders order_history trace List.map].
  rewrite insert_all_snoc, <- !app_assoc. reflexivity.
Qed.

Lemma grid_body_accepted (j : nat) :
  grid_accepted j ->
  body (List.map os (seq 0 j)) (Z.of_nat j) (after j)
  = (after (S j), inr (List.map os (seq 0 (S j)))).
Proof.
  intros [Hplan Hex]. unfold body, grid_body, bind, lift.
  unfold plan, grid_level_request in Hplan.
  destruct (grid_price side base_price grid_percentage (Z.of_nat j)) as [e|p];
    [discriminate|].
  injection Hplan as Hr. unfold futures_create_order.
  rewrite n_submitted_grid_world, Hr, Hex.
  unfold record_order, ret. rewrite n_submitted_with_Submit, n_submitted_grid_world.
  f_equal.
  - rewrite <- (grid_world_S j (rs j) eq_refl). unfold grid_entry.
    replace (n_submitted w + S j)%nat with (S (n_submitted w + j)) by lia.
    reflexivity.
  - rewrite seq_S, List.map_app. reflexivity.
Qed.

Lemma grid_body_refused (j : nat) (e : Exn) :
  plan j = inr (rs j) ->
  exchange (n_submitted w + j) (rs j) = inl e ->
  body (List.map os (seq 0 j)) (Z.of_nat j) (after j)
  = (with_event (after j) (Submit (rs j)), inl e).
Proof.
  intros Hplan Hex. unfold body, grid_body, bind, lift.
  unfold plan, grid_level_request in Hplan.
  destruct (grid_price side base_price grid_percentage (Z.of_nat j)) as [e'|p];
    [discriminate|].
  injection Hplan as Hr. unfold futures_create_order.
  rewrite n_submitted_grid_world, Hr, Hex. reflexivity.
Qed.

Lemma grid_body_invalid (j : nat) (e : Exn) :
  plan j = inl e ->
  body (List.map os (seq 0 j)) (Z.of_nat j) (after j) = (after j, inl e).
Proof.
  intros Hplan. unfold body, grid_body, bind, lift.
  unfold plan, grid_level_request in Hplan.
  destruct (grid_price side base_price grid_percentage (Z.of_nat j)) as [e'|p];
    [|discriminate].
  injection Hplan as ->. reflexivity.
Qed.

Lemma grid_world_0 : after 0%nat = w.
Proof.
  unfold after, grid_world. simpl. rewrite !app_nil_r. destruct w; reflexivity.
Qed.

Hypothesis Hqty : float_div_int quantity grid_levels = inr qty_per_level.

(** Every level accepted: the run returns all the orders. *)
Lemma grid_run_ok :
  (forall j, (j < Z.to_nat grid_levels)%nat -> grid_accepted j) ->
  place_grid_order exchange datetime_now symbol side quantity base_price
    grid_levels grid_percentage w
  = (after (Z.to_nat grid_levels), List.map os (seq 0 (Z.to_nat grid_levels))).
Proof.
  intros Hacc. unfold place_grid_order, try_except, bind, lift. rewrite Hqty.
  destruct (for_each_seq_ok body
              (fun j w' acc => w' = after j /\ acc = List.map os (seq 0 j))
              (Z.to_nat grid_levels) 0%nat w [])
    as (w' & acc & Hrun & -> & ->).
  - intros j w' a Hj [-> ->]. eexists _, _. split.
    + apply grid_body_accepted, Hacc. lia.
    + split; reflexivity.
  - split; [symmetry; apply grid_world_0 | reflexivity].
  - unfold py_range. fold body. rewrite Hrun. reflexivity.
Qed.

(** The exchange refuses level [i]: the run stops there with [[]]. *)
Lemma grid_run_refused (i : nat) (e : Exn) :
  (i < Z.to_nat grid_levels)%nat ->
  (forall j, (j < i)%nat -> grid_accepted j) ->
  plan i = inr (rs i) ->
  exchange (n_submitted w + i) (rs i) = inl e ->
  place_grid_order exchange datetime_now symbol side quantity base_price
    grid_levels grid_percentage w
  = (with_event (after i) (Submit (rs i)), []).
Proof.
  intros Hi Hacc Hplan Hex.
  unfold place_grid_order, try_except, bind, lift. rewrite Hqty.
  destruct (for_each_range_raise body
              (fun j w' acc => w' = after j /\ acc = List.map os (seq 0 j))
              (fun w' _ => w' = with_event (after i) (Submit (rs i)))
              i (Z.to_nat grid_levels) w [] Hi)
    as (w' & e' & Hrun & ->).
  - intros j w' a Hj [-> ->]. eexists _, _. split.
    + apply grid_body_accepted, Hacc. assumption.
    + split; reflexivity.
  - intros w' a [-> ->]. eexists _, _. split.
    + apply grid_body_refused; eassumption.
    + reflexivity.
  - split; [symmetry; apply grid_world_0 | reflexivity].
  - unfold py_range. fold body. rewrite Hrun. reflexivity.
Qed.

(** The price of level [i] cannot be computed: the run stops before
    the level is submitted. *)
Lemma grid_run_invalid (i : nat) (e : Exn) :
  (i < Z.to_nat grid_levels)%nat ->
  (forall j, (j < i)%nat -> grid_accepted j) ->
  plan i = inl e ->
  place_grid_order exchange datetime_now symbol side quantity base_price
    grid_levels grid_percentage w
  = (after i, []).
Proof.
  intros Hi Hacc Hplan.
  unfold place_grid_order, try_except, bind, lift. rewrite Hqty.
  destruct (for_each_range_raise body
              (fun j w' acc => w' = after j /\ acc = List.map os (seq 0 j))
              (fun w' _ => w' = after i)
              i (Z.to_nat grid_levels) w [] Hi)
    as (w' & e' & Hrun & ->).
  - intros j w' a Hj [-> ->]. eexists _, _. split.
    + apply grid_body_accepted, Hacc. assumption.
    + split; reflexivity.
  - intros w' a [-> ->]. eexists _, _. split.
    + apply grid_body_invalid; eassumption.
    + reflexivity.
  - split; [symmetry; apply grid_world_0 | reflexivity].
  - unfold py_range. fold body. rewrite Hrun. reflexivity.
Qed.

End Grid.

(** ** TWAP *)

Section Twap.

Variables (symbol : string) (side : OrderSide).
Variables (total_quantity time_interval qty_per_slice : float).
Variable num_slices : Z.
Variable w : World.
Variable os : nat -> Order.

Let r := market_request symbol side qty_per_slice.
Let n := Z.to_nat num_slices.
Let body := twap_body exchange datetime_now sleep_error symbol side qty_per_slice
              num_slices time_interval.
Let after := twap_world datetime_now w r time_interval n os.

Lemma n_submitted_twap_world (j : nat) :
  n_submitted (after j) = (n_submitted w + j)%nat.
Proof.
  unfold after, twap_world, n_submitted. simpl.
  rewrite submissions_app, length_app, submissions_twap_events, repeat_length.
  reflexivity.
Qed.

Lemma slice_test (j : nat) :
  (j < n)%nat -> (Z.of_nat j <? num_slices - 1)%Z = (S j <? n)%nat.
Proof.
  unfold n. intros Hj.
  destruct (Z.ltb_spec (Z.of_nat j) (num_slices - 1));
    destruct (Nat.ltb_spec (S j) (Z.to_nat num_slices)); try reflexivity; lia.
Qed.

Lemma twap_world_0 : after 0%nat = w.
Proof.
  unfold after, twap_world. simpl. rewrite !app_nil_r. destruct w; reflexivity.
Qed.

Let twap_accepted := twap_accepted exchange r w os.

Lemma twap_body_accepted (j : nat) :
  (j < n)%nat ->
  sleep_error time_interval = None ->
  twap_accepted j ->
  body (List.map os (seq 0 j)) (Z.of_nat j) (after j)
  = (after (S j), inr (List.map os (seq 0 (S j)))).
Proof.
  intros Hj Hsleep Hex. unfold body, twap_body, bind, futures_create_order.
  fold r. rewrite n_submitted_twap_world, Hex.
  unfold record_order. rewrite n_submitted_with_Submit, n_submitted_twap_world.
  rewrite (slice_test j Hj). unfold after, twap_world.
  rewrite twap_events_S, seq_S, !List.map_app.
  cbn [orders order_history trace List.map with_event].
  rewrite insert_all_snoc. unfold twap_entry, ret.
  assert (Hc : (n_submitted w + S j)%nat = S (n_submitted w + j)) by lia.
  destruct (S j <? n)%nat.
  - unfold time_sleep. rewrite Hsleep. unfold with_event. simpl.
    rewrite <- !app_assoc, Hc. reflexivity.
  - simpl. rewrite <- !app_assoc, Hc. reflexivity.
Qed.

Lemma twap_body_refused (j : nat) (e : Exn) :
  exchange (n_submitted w + j) r = inl e ->
  body (List.map os (seq 0 j)) (Z.of_nat j) (after j)
  = (with_event (after j) (Submit r), inl e).
Proof.
  intros Hex. unfold body, twap_body, bind, futures_create_order.
  fold r. rewrite n_submitted_twap_world, Hex. reflexivity.
Qed.

Hypothesis Hqty : float_div_int total_quantity num_slices = inr qty_per_slice.

(** Every slice accepted, every sleep granted: all orders returned. *)
Lemma twap_run_ok :
  sleep_error time_interval = None ->
  (forall j, (j < n)%nat -> twap_accepted j) ->
  place_twap_order exchange datetime_now sleep_error symbol side total_quantity
    num_slices time_interval w
  = (after n, List.map os (seq 0 n)).
Proof.
  intros Hsleep Hacc. unfold place_twap_order, try_except, bind, lift. rewrite Hqty.
  destruct (for_each_seq_ok body
              (fun j w' acc => w' = after j /\ acc = List.map os (seq 0 j))
              n 0%nat w [])
    as (w' & acc & Hrun & -> & ->).
  - intros j w' a Hj [-> ->]. eexists _, _. split.
    + apply twap_body_accepted; [lia | assumption | apply Hacc; lia].
    + split; reflexivity.
  - split; [symmetry; apply twap_world_0 | reflexivity].
  - unfold py_range. fold body n. rewrite Hrun. reflexivity.
Qed.

(** The exchange refuses slice [i]: the run stops there with [[]]. *)
Lemma twap_run_refused (i : nat) (e : Exn) :
  (i < n)%nat ->
  sleep_error time_interval = None ->
  (forall j, (j < i)%nat -> twap_accepted j) ->
  exchange (n_submitted w + i) r = inl e ->
  place_twap_order exchange datetime_now sleep_error symbol side total_quantity
    num_slices time_interval w
  = (with_event (after i) (Submit r), []).
Proof.
  intros Hi Hsleep Hacc Hex.
  unfold place_twap_order, try_except, bind, lift. rewrite Hqty.
  destruct (for_each_range_raise body
              (fun j w' acc => w' = after j /\ acc = List.map os (seq 0 j))
              (fun w' _ => w' = with_event (after i) (Submit r))
              i n w [] Hi)
    as (w' & e' & Hrun & ->).
  - intros j w' a Hj [-> ->]. eexists _, _. split.
    + apply twap_body_accepted; [lia | assumption | apply Hacc; lia].
    + split; reflexivity.
  - intros w' a [-> ->]. eexists _, _. split.
    + apply twap_body_refused; eassumption.
    + reflexivity.
  - split; [symmetry; apply twap_world_0 | reflexivity].
  - unfold py_range. fold body n. rewrite Hrun. reflexivity.
Qed.

End Twap.

End Runs.

(* ===================================================================== *)
(** * The quantizer on decimals *)
(* ===================================================================== *)

Section DecimalFacts.

Import PyNum.

Lemma digits10_fuel_spec (fuel : nat) :
  forall n : N, (0 < n)%N -> (n < 2 ^ N.of_nat fuel)%N ->
    10 ^ (digits10_fuel fuel n - 1) <= Z.of_N n < 10 ^ digits10_fuel fuel n
    /\ 1 <= digits10_fuel fuel n.
Proof.
  induction fuel as [|fuel IH]; intros n Hpos Hlt.
  - simpl in Hlt. lia.
  - cbn [digits10_fuel]. destruct (N.ltb_spec n 10) as [Hs|Hb].
    + simpl. lia.
    + assert (H10 : (0 < n / 10)%N).
      { apply N.div_str_pos. lia. }
      assert (Hlt' : (n / 10 < 2 ^ N.of_nat fuel)%N).
      { rewrite Nat2N.inj_succ, N.pow_succ_r' in Hlt.
        apply N.Div0.div_lt_upper_bound. lia. }
      destruct (IH _ H10 Hlt') as [[Hlo Hhi] Hd].
      set (d := digits10_fuel fuel (n / 10)) in *.
      rewrite N2Z.inj_div in Hlo, Hhi. change (Z.of_N 10) with 10 in *.
      replace (1 + d - 1) with (Z.succ (d - 1)) by lia.
      replace (1 + d) with (Z.succ d) by lia.
      rewrite !Z.pow_succ_r by lia.
      pose proof (Z.mul_div_le (Z.of_N n) 10 ltac:(lia)).
      pose proof (Z.mul_succ_div_gt (Z.of_N n) 10 ltac:(lia)).
      lia.
Qed.

Lemma digits10_spec (n : N) :
  (0 < n)%N ->
  10 ^ (digits10 n - 1) <= Z.of_N n < 10 ^ digits10 n /\ 1 <= digits10 n.
Proof.
  intros Hpos. unfold digits10. apply digits10_fuel_spec; [assumption|].
  rewrite Nat2N.inj_succ, N2Nat.id. apply N.log2_spec. assumption.
Qed.

Local Open Scope Q_scope.

Lemma ten_neq_0 : ~ (10 # 1) == 0.
Proof. discriminate. Qed.

Lemma pow10_pos (k : Z) : 0 < (10 # 1) ^ k.
Proof. apply Qpower_0_lt. reflexivity. Qed.

Lemma rescale_cents_coeff_up (c : N) (e : Z) :
  (-2 <= e)%Z ->
  Z.of_N (rescale_cents c e) = (Z.of_N c * 10 ^ (e + 2))%Z.
Proof.
  intros He. unfold rescale_cents.
  destruct (Z.leb_spec (-2) e); [|lia].
  rewrite N2Z.inj_mul, N2Z.inj_pow, Z2N.id by lia. reflexivity.
Qed.

Lemma rescale_cents_coeff_down (c : N) (e : Z) :
  (e < -2)%Z ->
  Z.of_N (rescale_cents c e) = (Z.of_N c / 10 ^ (- 2 - e))%Z.
Proof.
  intros He. unfold rescale_cents.
  destruct (Z.leb_spec (-2) e); [lia|].
  rewrite N2Z.inj_div, N2Z.inj_pow, Z2N.id by lia. reflexivity.
Qed.

(** Dropping digits never enlarges the magnitude. *)
Lemma rescale_cents_le (c : N) (e : Z) :
  Dec_abs_value (rescale_cents c e) (-2) <= Dec_abs_value c e.
Proof.
  unfold Dec_abs_value. destruct (Z_le_gt_dec (-2) e) as [He|He].
  - rewrite rescale_cents_coeff_up by assumption.
    rewrite inject_Z_mult, Zpower_Qpower by lia.
    change (inject_Z 10) with (10 # 1).
    rewrite <- Qmult_assoc, <- Qpower_plus by apply ten_neq_0.
    replace (e + 2 + -2)%Z with e by lia. apply Qle_refl.
  - rewrite rescale_cents_coeff_down by lia.
    set (k := (- 2 - e)%Z).
    replace (-2)%Z with (k + e)%Z by (unfold k; lia).
    rewrite Qpower_plus by apply ten_neq_0.
    rewrite Qmult_assoc. apply Qmult_le_compat_r; [|apply Qlt_le_weak, pow10_pos].
    change (10 # 1) with (inject_Z 10).
    rewrite <- Zpower_Qpower by (unfold k; lia).
    rewrite <- inject_Z_mult, <- Zle_Qle.
    rewrite Z.mul_comm. apply Z.mul_div_le. apply Z.pow_pos_nonneg; lia.
Qed.

(** The coefficient at exponent [-2] has no more digits than the check of
    [quantize_cents] counted. *)
Lemma rescale_cents_digits (c : N) (e : Z) :
  (0 < c)%N -> (0 < rescale_cents c e)%N ->
  (digits10 (rescale_cents c e) <= e + digits10 c + 2)%Z.
Proof.
  intros Hc Hc'.
  destruct (digits10_spec c Hc) as [[_ Hhi] Hd].
  destruct (digits10_spec _ Hc') as [[Hlo' _] Hd'].
  set (d := digits10 c) in *. set (d' := digits10 (rescale_cents c e)) in *.
  destruct (Z_le_gt_dec (-2) e) as [He|He].
  - rewrite rescale_cents_coeff_up in Hlo' by assumption.
    assert (H : (10 ^ (d' - 1) < 10 ^ (d + (e + 2)))%Z).
    { rewrite Z.pow_add_r by lia.
      eapply Z.le_lt_trans; [exact Hlo'|].
      apply Z.mul_lt_mono_pos_r; [apply Z.pow_pos_nonneg; lia | assumption]. }
    apply Z.pow_lt_mono_r_iff in H; lia.
  - rewrite rescale_cents_coeff_down in Hlo' by lia.
    assert (Hpos : (0 < Z.of_N c / 10 ^ (-2 - e))%Z).
    { rewrite <- rescale_cents_coeff_down by lia. lia. }
    set (k := (- 2 - e)%Z) in *.
    assert (Hk : (0 < 10 ^ k)%Z) by (apply Z.pow_pos_nonneg; unfold k; lia).
    pose proof (Z.mul_div_le (Z.of_N c) (10 ^ k) Hk) as Hdiv.
    assert (H : (10 ^ (d' - 1 + k) < 10 ^ d)%Z).
    { rewrite Z.pow_add_r by (unfold k; lia).
      eapply Z.le_lt_trans; [|exact Hhi].
      eapply Z.le_trans; [|exact Hdiv].
      rewrite Z.mul_comm. apply Z.mul_le_mono_nonneg_l; lia. }
    apply Z.pow_lt_mono_r_iff in H; unfold k in *; lia.
Qed.

Lemma quantize_cents_idempotent (d q : Decimal) :
  quantize_cents d = Some q -> quantize_cents q = Some q.
Proof.
  destruct d as [s c e| |]; simpl; [|discriminate|intros [= <-]; reflexivity].
  destruct (N.eqb_spec c 0) as [->|Hc]; [intros [= <-]; reflexivity|].
  destruct (Z.ltb_spec context_prec (e + digits10 c - 1 - -2 + 1)) as [|Hprec];
    [discriminate|].
  intros [= <-]. simpl.
  destruct (N.eqb_spec (rescale_cents c e) 0) as [->|Hc']; [reflexivity|].
  pose proof (rescale_cents_digits c e ltac:(lia) ltac:(lia)) as Hdig.
  destruct (Z.ltb_spec context_prec (-2 + digits10 (rescale_cents c e) - 1 - -2 + 1));
    [lia|].
  do 2 f_equal. unfold rescale_cents at 1. simpl. apply N.mul_1_r.
Qed.

Lemma quantize_cents_cents (d q : Decimal) :
  quantize_cents d = Some q ->
  exists m : Z, Dec_value q == m # 100.
Proof.
  destruct d as [s c e| |]; simpl.
  - assert (H : forall c', exists m : Z, Dec_value (DecFinite s c' (-2)) == m # 100).
    { intros c'. destruct s; simpl; unfold Dec_abs_value.
      - exists (- Z.of_N c')%Z. unfold Qeq. simpl. lia.
      - exists (Z.of_N c'). unfold Qeq. simpl. lia. }
    destruct (c =? 0)%N; [intros [= <-]; apply H|].
    destruct (context_prec <? _)%Z; [discriminate|]. intros [= <-]. apply H.
  - discriminate.
  - intros [= <-]. exists 0%Z. reflexivity.
Qed.
End DecimalFacts.

(** The decimal value moves toward zero: down for a positive price, up
    for a negative one. *)
Lemma quantize_cents_toward_zero (d q : PyNum.Decimal) :
  PyNum.quantize_cents d = Some q ->
  Dec_sign q = Dec_sign d
  /\ (Dec_sign d = false -> (PyNum.Dec_value q <= PyNum.Dec_value d)%Q)
  /\ (Dec_sign d = true -> (PyNum.Dec_value d <= PyNum.Dec_value q)%Q).
Proof.
  destruct d as [s c e| |]; simpl; [|discriminate|].
  - assert (Hzero : (PyNum.Dec_abs_value 0 (-2) <= PyNum.Dec_abs_value c e)%Q).
    { assert (Hz : (PyNum.Dec_abs_value 0 (-2) == 0)%Q) by reflexivity.
      rewrite Hz. unfold PyNum.Dec_abs_value.
      apply Qmult_le_0_compat; [|apply Qlt_le_weak, pow10_pos].
      change 0%Q with (inject_Z 0). rewrite <- Zle_Qle. lia. }
    assert (H : forall c',
               (PyNum.Dec_abs_value c' (-2) <= PyNum.Dec_abs_value c e)%Q ->
               Dec_sign (PyNum.DecFinite s c' (-2)) = s
               /\ (s = false ->
                   (PyNum.Dec_value (PyNum.DecFinite s c' (-2))
                    <= PyNum.Dec_value (PyNum.DecFinite s c e))%Q)
               /\ (s = true ->
                   (PyNum.Dec_value (PyNum.DecFinite s c e)
                    <= PyNum.Dec_value (PyNum.DecFinite s c' (-2)))%Q)).
    { intros c' Hle. split; [reflexivity|].
      split; intros ->; simpl; [assumption | apply Qopp_le_compat; assumption]. }
    destruct (c =? 0)%N; [intros [= <-]; apply H, Hzero|].
    destruct (PyNum.context_prec <? _)%Z; [discriminate|].
    intros [= <-]. apply H, rescale_cents_le.
  - intros [= <-]. simpl. split; [reflexivity|].
    split; intros _; apply Qle_refl.
Qed.

(* ===================================================================== *)
(** * Symbols *)
(* ===================================================================== *)

(** C3.  The clean-up is [symbol.replace("USDT", "").upper() + "USDT"]: it
    gives "BTCUSDT" for "btc", "BTC" and "BTCUSDT", as the claim says.
    For "btcusdt" it gives "BTCUSDTUSDT": the token is looked for before
    the symbol is upper-cased, so the lower-case suffix is not found, is
    upper-cased with the rest, and a second "USDT" is appended.  The menu
    hands the symbol to [get_open_orders] as it was typed, and the client
    is then asked for the open orders of "BTCUSDTUSDT". *)
Theorem clean_symbol_lowercase_suffix :
  clean_symbol "btc" = "BTCUSDT"%string
  /\ clean_symbol "BTC" = "BTCUSDT"%string
  /\ clean_symbol "BTCUSDT" = "BTCUSDT"%string
  /\ clean_symbol "btcusdt" = "BTCUSDTUSDT"%string
  /\ clean_symbol "btcusdt" <> "BTCUSDT"%string
  /\ forall (futures_get_open_orders : nat -> option string -> Exn + list Order)
            (s : Session),
       client_calls (fst (get_open_orders futures_get_open_orders
                            (Some "btcusdt"%string) s))
       = client_calls s ++ [CallGetOpenOrders (Some "BTCUSDTUSDT"%string)].
Proof.
  repeat split; try reflexivity; try discriminate.
  intros answers s. unfold get_open_orders, client_call.
  change (clean_symbol "btcusdt") with "BTCUSDTUSDT"%string.
  destruct (answers _ _); reflexivity.
Qed.

(* ===================================================================== *)
(** * The quantizer *)
(* ===================================================================== *)

(** ** Rounding: the algorithm against the relation *)

(** ** Powers of two *)

Lemma two_neq_0 : ~ ((2 # 1) == 0)%Q.
Proof. discriminate. Qed.

Lemma pow2_pos (e : Z) : (0 < pow2 e)%Q.
Proof. apply Qpower_0_lt. reflexivity. Qed.

Lemma pow2_add (a b : Z) : (pow2 (a + b) == pow2 a * pow2 b)%Q.
Proof. apply Qpower_plus, two_neq_0. Qed.

Lemma pow2_0 : (pow2 0 == 1)%Q.
Proof. reflexivity. Qed.

Lemma pow2_1 : (pow2 1 == 2)%Q.
Proof. reflexivity. Qed.

Lemma pow2_succ (e : Z) : (pow2 (e + 1) == 2 * pow2 e)%Q.
Proof. rewrite pow2_add, pow2_1. ring. Qed.

Lemma pow2_inv (e : Z) : (pow2 e * pow2 (- e) == 1)%Q.
Proof. rewrite <- pow2_add. replace (e + - e) with 0 by lia. reflexivity. Qed.

Lemma pow2_opp (e : Z) : (pow2 (- e) == / pow2 e)%Q.
Proof. unfold pow2. apply Qpower_opp. Qed.

Lemma pow2_Z (k : Z) : 0 <= k -> (pow2 k == inject_Z (2 ^ k))%Q.
Proof. intros Hk. unfold pow2. rewrite Zpower_Qpower by assumption. reflexivity. Qed.

Lemma pow2_lt (a b : Z) : a < b -> (pow2 a < pow2 b)%Q.
Proof. intros H. apply Qpower_lt_compat_l; [assumption | reflexivity]. Qed.

Lemma pow2_le (a b : Z) : a <= b -> (pow2 a <= pow2 b)%Q.
Proof. intros H. apply Qpower_le_compat_l; [assumption | discriminate]. Qed.

Lemma pow2_lt_inv (a b : Z) : (pow2 a < pow2 b)%Q -> a < b.
Proof. intros H. eapply Qpower_lt_compat_l_inv; [exact H | reflexivity]. Qed.

Lemma pow2_le_inv (a b : Z) : (pow2 a <= pow2 b)%Q -> a <= b.
Proof. intros H. eapply Qpower_le_compat_l_inv; [exact H | reflexivity]. Qed.

(** ** Scaling *)

Lemma scaled_succ (x : Q) (e : Z) : (scaled x (e + 1) == (1 # 2) * scaled x e)%Q.
Proof.
  unfold scaled. replace (- (e + 1)) with (- e + -1) by lia.
  rewrite pow2_add. change (pow2 (-1)) with (1 # 2)%Q. ring.
Qed.

Lemma scaled_add (x : Q) (e k : Z) : (scaled x (e + k) == scaled x e * pow2 (- k))%Q.
Proof.
  unfold scaled. replace (- (e + k)) with (- e + - k) by lia.
  rewrite pow2_add. ring.
Qed.

Lemma scaled_le (x y : Q) (e : Z) : (x <= y)%Q -> (scaled x e <= scaled y e)%Q.
Proof.
  intros H. unfold scaled. apply Qmult_le_compat_r; [assumption|].
  apply Qlt_le_weak, pow2_pos.
Qed.

Lemma scaled_lt (x y : Q) (e : Z) : (x < y)%Q -> (scaled x e < scaled y e)%Q.
Proof.
  intros H. unfold scaled. apply Qmult_lt_compat_r; [apply pow2_pos | assumption].
Qed.

Lemma scaled_pow2 (d e : Z) : (scaled (pow2 d) e == pow2 (d - e))%Q.
Proof. unfold scaled. rewrite <- pow2_add. reflexivity. Qed.

Lemma scaled_pos (x : Q) (e : Z) : (0 < x)%Q -> (0 < scaled x e)%Q.
Proof. intros H. unfold scaled. apply Qmult_lt_0_compat; [assumption | apply pow2_pos]. Qed.

Global Instance scaled_Proper : Proper (Qeq ==> eq ==> Qeq) scaled.
Proof. intros x y Hxy e e' <-. unfold scaled. rewrite Hxy. reflexivity. Qed.

(** ** One step of [shr] *)

Lemma inject_Z_double (p : Z) : (inject_Z (2 * p) == 2 * inject_Z p)%Q.
Proof. rewrite inject_Z_mult. reflexivity. Qed.

Lemma inject_Z_double1 (p : Z) : (inject_Z (2 * p + 1) == 2 * inject_Z p + 1)%Q.
Proof. rewrite inject_Z_plus, inject_Z_mult. reflexivity. Qed.

Lemma shr_1_inbetween (x : Q) (e : Z) (mrs : shr_record) :
  0 <= shr_m mrs ->
  inbetween x (shr_m mrs) e (loc_of_shr_record mrs) ->
  0 <= shr_m (shr_1 mrs)
  /\ inbetween x (shr_m (shr_1 mrs)) (e + 1) (loc_of_shr_record (shr_1 mrs)).
Proof.
  destruct mrs as [m r s]. cbn [shr_m]. intros Hm H.
  assert (Hy := scaled_succ x e).
  set (y := scaled x e) in *. set (y' := scaled x (e + 1)) in *.
  destruct m as [|p|p]; [| |lia].
  - (* m = 0 *)
    destruct r, s; cbn in H |- *; fold y in H; fold y'; unfold half_cmp in *;
      change (inject_Z 0) with 0%Q in *; repeat split; try lia; try lra.
  - destruct p as [p|p|].
    + (* 2p + 1 *)
      change (Z.pos p~1) with (2 * Z.pos p + 1) in H.
      destruct r, s; cbn in H |- *; fold y in H; fold y'; unfold half_cmp in *;
        rewrite inject_Z_double1 in H; repeat split; try lia; try lra.
    + change (Z.pos p~0) with (2 * Z.pos p) in H.
      destruct r, s; cbn in H |- *; fold y in H; fold y'; unfold half_cmp in *;
        rewrite inject_Z_double in H; repeat split; try lia; try lra.
    + destruct r, s; cbn in H |- *; fold y in H; fold y'; unfold half_cmp in *;
        change (inject_Z 1) with 1%Q in *; change (inject_Z 0) with 0%Q in *;
        repeat split; try lia; try lra.
Qed.

(** ** [shr] *)

Lemma iter_shr_1_inbetween (x : Q) (e : Z) (p : positive) :
  forall (k : Z) (mrs : shr_record),
    0 <= shr_m mrs ->
    inbetween x (shr_m mrs) (e + k) (loc_of_shr_record mrs) ->
    0 <= shr_m (SpecFloat.iter_pos shr_1 p mrs)
    /\ inbetween x (shr_m (SpecFloat.iter_pos shr_1 p mrs)) (e + (k + Z.pos p))
         (loc_of_shr_record (SpecFloat.iter_pos shr_1 p mrs)).
Proof.
  induction p as [p IH|p IH|]; intros k mrs Hm H; cbn [SpecFloat.iter_pos].
  - destruct (shr_1_inbetween x (e + k) mrs Hm H) as [Hm1 H1].
    replace (e + k + 1) with (e + (k + 1)) in H1 by lia.
    destruct (IH _ _ Hm1 H1) as [Hm2 H2].
    destruct (IH _ _ Hm2 H2) as [Hm3 H3].
    split; [assumption|].
    replace (k + Z.pos p~1) with (k + 1 + Z.pos p + Z.pos p) by lia. exact H3.
  - destruct (IH _ _ Hm H) as [Hm2 H2].
    destruct (IH _ _ Hm2 H2) as [Hm3 H3].
    split; [assumption|].
    replace (k + Z.pos p~0) with (k + Z.pos p + Z.pos p) by lia. exact H3.
  - destruct (shr_1_inbetween x (e + k) mrs Hm H) as [Hm1 H1].
    split; [assumption|]. replace (e + (k + 1)) with (e + k + 1) by lia. exact H1.
Qed.

Lemma loc_of_shr_record_of_loc (m : Z) (l : location) :
  loc_of_shr_record (shr_record_of_loc m l) = l /\ shr_m (shr_record_of_loc m l) = m.
Proof. destruct l as [|[| |]]; split; reflexivity. Qed.

Lemma shr_inbetween (x : Q) (m e n : Z) (l : location) :
  0 <= m -> 0 <= n ->
  inbetween x m e l ->
  exists mrs, shr (shr_record_of_loc m l) e n = (mrs, e + n)
              /\ 0 <= shr_m mrs
              /\ inbetween x (shr_m mrs) (e + n) (loc_of_shr_record mrs).
Proof.
  intros Hm Hn H. destruct (loc_of_shr_record_of_loc m l) as [Hl Hsm].
  destruct n as [|p|p]; [| |lia].
  - exists (shr_record_of_loc m l). cbn [shr]. rewrite Z.add_0_r, Hl, Hsm.
    repeat split; assumption.
  - exists (SpecFloat.iter_pos shr_1 p (shr_record_of_loc m l)). cbn [shr].
    split; [reflexivity|].
    apply (iter_shr_1_inbetween x e p 0).
    + rewrite Hsm. assumption.
    + rewrite Hsm, Hl, Z.add_0_r. assumption.
Qed.

(** ** Digits *)

Lemma digits2_pos_size (p : positive) : digits2_pos p = Pos.size p.
Proof. induction p as [p IH|p IH|]; simpl; rewrite ?IH; reflexivity. Qed.

Lemma digits2_pos_bounds (p : positive) :
  2 ^ (Z.pos (digits2_pos p) - 1) <= Z.pos p < 2 ^ Z.pos (digits2_pos p).
Proof.
  induction p as [p IH|p IH|].
  - cbn [digits2_pos]. rewrite Pos2Z.inj_succ.
    replace (Z.succ (Z.pos (digits2_pos p)) - 1) with (Z.succ (Z.pos (digits2_pos p) - 1))
      by lia.
    rewrite !Z.pow_succ_r by lia. lia.
  - cbn [digits2_pos]. rewrite Pos2Z.inj_succ.
    replace (Z.succ (Z.pos (digits2_pos p)) - 1) with (Z.succ (Z.pos (digits2_pos p) - 1))
      by lia.
    rewrite !Z.pow_succ_r by lia. lia.
  - simpl. lia.
Qed.

Lemma Zdigits2_bounds (m : Z) :
  0 < m -> 2 ^ (Zdigits2 m - 1) <= m < 2 ^ Zdigits2 m.
Proof. destruct m as [|p|p]; intros H; try lia. apply digits2_pos_bounds. Qed.

Lemma Zdigits2_pos (m : Z) : 0 < m -> 0 < Zdigits2 m.
Proof. destruct m; simpl; lia. Qed.

(** The number of digits is the one exponent that brackets [m]. *)
Lemma Zdigits2_unique (m d : Z) :
  2 ^ (d - 1) <= m < 2 ^ d -> 0 < m -> Zdigits2 m = d.
Proof.
  intros [Hlo Hhi] Hm. pose proof (Zdigits2_bounds m Hm) as [Hlo' Hhi'].
  pose proof (Zdigits2_pos m Hm) as Hd.
  assert (Hdpos : 0 < d).
  { destruct (Z_lt_le_dec 0 d); [assumption|].
    rewrite Z.pow_neg_r in Hhi by lia || (destruct (Z.eq_dec d 0); [subst; simpl in Hhi; lia | lia]).
    lia. }
  assert (H1 : 2 ^ (d - 1) < 2 ^ Zdigits2 m) by lia.
  assert (H2 : 2 ^ (Zdigits2 m - 1) < 2 ^ d) by lia.
  apply Z.pow_lt_mono_r_iff in H1; [|lia|lia].
  apply Z.pow_lt_mono_r_iff in H2; [|lia|lia]. lia.
Qed.

(** ** Magnitudes *)

Lemma mag_is_unique (x : Q) (d d' : Z) : mag_is x d -> mag_is x d' -> d = d'.
Proof.
  intros [Hlo Hhi] [Hlo' Hhi'].
  assert (H1 : (pow2 (d - 1) < pow2 d')%Q) by (eapply Qle_lt_trans; eassumption).
  assert (H2 : (pow2 (d' - 1) < pow2 d)%Q) by (eapply Qle_lt_trans; eassumption).
  apply pow2_lt_inv in H1. apply pow2_lt_inv in H2. lia.
Qed.

Lemma mag_is_le (x y : Q) (d d' : Z) :
  mag_is x d -> mag_is y d' -> (x <= y)%Q -> d <= d'.
Proof.
  intros [Hlo Hhi] [Hlo' Hhi'] Hxy.
  assert (H1 : (pow2 (d - 1) < pow2 d')%Q).
  { eapply Qle_lt_trans; [exact Hlo|]. eapply Qle_lt_trans; eassumption. }
  apply pow2_lt_inv in H1. lia.
Qed.

Global Instance mag_is_Proper : Proper (Qeq ==> eq ==> iff) mag_is.
Proof. intros x y Hxy d d' <-. unfold mag_is. rewrite Hxy. reflexivity. Qed.

Global Instance inbetween_Proper : Proper (Qeq ==> eq ==> eq ==> eq ==> iff) inbetween.
Proof.
  intros x y Hxy m m' <- e e' <- l l' <-.
  destruct l as [|[| |]]; unfold inbetween, half_cmp; rewrite Hxy; reflexivity.
Qed.

(** The mantissa of a description of [x] brackets the magnitude of [x]. *)
Lemma inbetween_mag (x : Q) (m e : Z) (l : location) :
  0 < m -> inbetween x m e l -> mag_is x (Zdigits2 m + e).
Proof.
  intros Hm H. pose proof (Zdigits2_bounds m Hm) as [Hlo Hhi].
  pose proof (Zdigits2_pos m Hm) as Hd.
  set (d := Zdigits2 m) in *.
  assert (Hy : (inject_Z m <= scaled x e)%Q /\ (scaled x e < inject_Z m + 1)%Q).
  { destruct l as [|c]; cbn in H; [rewrite H; split; lra | destruct H as (? & ? & _); split; lra]. }
  destruct Hy as [Hy1 Hy2].
  assert (Hlo' : (pow2 (d - 1) <= inject_Z m)%Q).
  { rewrite pow2_Z by lia. rewrite <- Zle_Qle. assumption. }
  assert (Hhi' : (inject_Z m + 1 <= pow2 d)%Q).
  { rewrite pow2_Z by lia. change 1%Q with (inject_Z 1).
    rewrite <- inject_Z_plus, <- Zle_Qle. lia. }
  assert (Hx : (x == scaled x e * pow2 e)%Q).
  { unfold scaled. rewrite <- Qmult_assoc, (Qmult_comm (pow2 (- e))), pow2_inv. ring. }
  pose proof (pow2_pos e) as He.
  split.
  - replace (d + e - 1) with (d - 1 + e) by lia. rewrite pow2_add, Hx.
    apply Qmult_le_compat_r; [lra | lra].
  - rewrite pow2_add, Hx. apply Qmult_lt_compat_r; [assumption | lra].
Qed.

(** ** The canonical description *)

Lemma fexp64_eq (d : Z) : fexp64 d = Z.max (d - 53) (-1074).
Proof. reflexivity. Qed.

Lemma shr_fexp_canonical (x : Q) (m e d : Z) (l : location) :
  mag_is x d -> 0 <= m -> inbetween x m e l -> e <= fexp64 d ->
  exists mrs, shr_fexp prec emax m e l = (mrs, fexp64 d)
              /\ 0 <= shr_m mrs
              /\ inbetween x (shr_m mrs) (fexp64 d) (loc_of_shr_record mrs).
Proof.
  intros Hmag Hm H He.
  assert (Hfexp : SpecFloat.fexp prec emax (Zdigits2 m + e) = fexp64 d).
  { destruct (Z.eq_dec m 0) as [->|Hne].
    - assert (Hlt : (scaled x e < 1)%Q).
      { destruct l as [|c]; cbn in H.
        + rewrite H. reflexivity.
        + destruct H as (_ & H & _). change (inject_Z 0) with 0%Q in H. lra. }
      assert (Hd : d <= e).
      { destruct Hmag as [Hlo _].
        assert (Hs : (scaled (pow2 (d - 1)) e < 1)%Q).
        { eapply Qle_lt_trans; [apply scaled_le; exact Hlo | exact Hlt]. }
        rewrite scaled_pow2 in Hs. change 1%Q with (pow2 0) in Hs.
        apply pow2_lt_inv in Hs. lia. }
      change (Zdigits2 0) with 0. rewrite fexp64_eq in *.
      change (SpecFloat.fexp prec emax (0 + e)) with (fexp64 e).
      rewrite fexp64_eq. lia.
    - pose proof (inbetween_mag x m e l ltac:(lia) H) as Hmag'.
      rewrite (mag_is_unique _ _ _ Hmag Hmag'). reflexivity. }
  unfold shr_fexp. rewrite Hfexp.
  destruct (shr_inbetween x m e (fexp64 d - e) l Hm ltac:(lia) H) as (mrs & Hs & Hm' & H').
  exists mrs. replace (e + (fexp64 d - e)) with (fexp64 d) in * by lia.
  repeat split; assumption.
Qed.

(** The canonical mantissa has at most 53 bits, and exactly 53 above the
    least exponent. *)
Lemma canonical_mantissa_bounds (x : Q) (d m0 : Z) (l0 : location) :
  mag_is x d -> 0 <= m0 -> inbetween x m0 (fexp64 d) l0 ->
  m0 < 2 ^ 53 /\ (-1074 < fexp64 d -> 2 ^ 52 <= m0).
Proof.
  intros [Hlo Hhi] Hm H.
  set (e0 := fexp64 d) in *.
  assert (He0 : e0 = Z.max (d - 53) (-1074)) by reflexivity.
  assert (Hy : (inject_Z m0 <= scaled x e0)%Q /\ (scaled x e0 < inject_Z m0 + 1)%Q).
  { destruct l0 as [|c]; cbn in H; [rewrite H; split; lra | destruct H as (? & ? & _); split; lra]. }
  destruct Hy as [Hy1 Hy2].
  apply (scaled_lt _ _ e0) in Hhi. rewrite scaled_pow2 in Hhi.
  apply (scaled_le _ _ e0) in Hlo. rewrite scaled_pow2 in Hlo.
  split.
  - assert (H53 : (pow2 (d - e0) <= pow2 53)%Q) by (apply pow2_le; lia).
    rewrite (pow2_Z 53) in H53 by lia.
    assert (Hlt : (inject_Z m0 < inject_Z (2 ^ 53))%Q) by lra.
    rewrite <- Zlt_Qlt in Hlt. exact Hlt.
  - intros Hnorm.
    assert (H52 : (pow2 52 <= pow2 (d - 1 - e0))%Q) by (apply pow2_le; lia).
    rewrite (pow2_Z 52) in H52 by lia.
    assert (Hlt : (inject_Z (2 ^ 52) < inject_Z (m0 + 1))%Q).
    { rewrite inject_Z_plus. change (inject_Z 1) with 1%Q. lra. }
    rewrite <- Zlt_Qlt in Hlt. lia.
Qed.

Lemma round_nearest_even_bounds (m : Z) (l : location) :
  m <= round_nearest_even m l <= m + 1.
Proof.
  destruct l as [|[| |]]; cbn; try lia. destruct (Z.even m); lia.
Qed.

Lemma Zdigits2_le_53 (m : Z) : 0 < m -> m < 2 ^ 53 -> Zdigits2 m <= 53.
Proof.
  intros Hm Hlt. pose proof (Zdigits2_bounds m Hm) as [Hlo _].
  pose proof (Zdigits2_pos m Hm) as Hd.
  assert (H : 2 ^ (Zdigits2 m - 1) < 2 ^ 53) by lia.
  apply Z.pow_lt_mono_r_iff in H; lia.
Qed.

Lemma shr_nonpositive (mrs : shr_record) (e n : Z) : n <= 0 -> shr mrs e n = (mrs, e).
Proof. intros Hn. destruct n; [reflexivity | lia | reflexivity]. Qed.

(** The second normalization of [binary_round_aux]. *)
Lemma finish_spec (s : bool) (m1 e0 : Z) :
  0 <= m1 <= 2 ^ 53 -> -1074 <= e0 -> (-1074 < e0 -> 2 ^ 52 <= m1) ->
  (let '(mrs, e) := shr_fexp prec emax m1 e0 loc_Exact in
   match shr_m mrs with
   | Z0 => S754_zero s
   | Zpos m => if e <=? emax - prec then S754_finite s m e else S754_infinity s
   | Zneg _ => S754_nan
   end)
  = SFfinish s m1 e0.
Proof.
  intros Hm He Hnorm. unfold SFfinish.
  destruct (Z.eqb_spec m1 0) as [->|Hne].
  - unfold shr_fexp. rewrite shr_nonpositive; [reflexivity|].
    change (Zdigits2 0) with 0. change (SpecFloat.fexp prec emax (0 + e0)) with (fexp64 e0).
    rewrite fexp64_eq. lia.
  - destruct (Z.ltb_spec m1 (2 ^ 53)) as [Hlt|Hge].
    + unfold shr_fexp. rewrite shr_nonpositive.
      * cbn [shr_record_of_loc shr_m]. destruct m1 as [|p|p]; try lia.
        change (emax - prec) with 971. reflexivity.
      * pose proof (Zdigits2_le_53 m1 ltac:(lia) Hlt) as Hd.
        change (SpecFloat.fexp prec emax (Zdigits2 m1 + e0)) with (fexp64 (Zdigits2 m1 + e0)).
        rewrite fexp64_eq. lia.
    + assert (Hm1 : m1 = 2 ^ 53) by lia. subst m1.
      unfold shr_fexp.
      change (Zdigits2 (2 ^ 53)) with 54.
      change (SpecFloat.fexp prec emax (54 + e0)) with (fexp64 (54 + e0)).
      rewrite fexp64_eq.
      replace (Z.max (54 + e0 - 53) (-1074) - e0) with 1 by lia.
      cbn [shr shr_record_of_loc SpecFloat.iter_pos].
      change (emax - prec) with 971. reflexivity.
Qed.

(** [binary_round_aux] rounds whatever adequate description it is given. *)
Theorem binary_round_aux_Rounds (s : bool) (x : Q) (m e d : Z) (l : location) :
  mag_is x d -> 0 <= m -> inbetween x m e l -> e <= fexp64 d ->
  Rounds s x (binary_round_aux prec emax s m e l).
Proof.
  intros Hmag Hm H He.
  destruct (shr_fexp_canonical x m e d l Hmag Hm H He) as (mrs & Hs & Hm0 & H0).
  exists d, (shr_m mrs), (loc_of_shr_record mrs).
  split; [assumption|]. split; [assumption|]. split; [assumption|].
  unfold binary_round_aux. rewrite Hs.
  destruct (canonical_mantissa_bounds x d _ _ Hmag Hm0 H0) as [Hlt Hnorm].
  pose proof (round_nearest_even_bounds (shr_m mrs) (loc_of_shr_record mrs)) as Hr.
  apply finish_spec.
  - lia.
  - rewrite fexp64_eq. lia.
  - intros Hn. specialize (Hnorm Hn). lia.
Qed.

(** ** The description of a number is unique *)

Lemma inbetween_floor (x : Q) (m e : Z) (l : location) :
  inbetween x m e l ->
  (inject_Z m <= scaled x e)%Q /\ (scaled x e < inject_Z m + 1)%Q.
Proof.
  destruct l as [|c]; cbn; [intros ->; split; lra | intros (? & ? & _); split; lra].
Qed.

Lemma inject_Z_lt_succ (a b : Z) (y : Q) :
  (inject_Z a <= y)%Q -> (y < inject_Z b + 1)%Q -> a <= b.
Proof.
  intros Ha Hb.
  assert (H : (inject_Z a < inject_Z (b + 1))%Q).
  { rewrite inject_Z_plus. change (inject_Z 1) with 1%Q. lra. }
  rewrite <- Zlt_Qlt in H. lia.
Qed.

Lemma inbetween_mantissa_le (x y : Q) (mx my e : Z) (lx ly : location) :
  inbetween x mx e lx -> inbetween y my e ly -> (x <= y)%Q -> mx <= my.
Proof.
  intros Hx Hy Hxy.
  destruct (inbetween_floor _ _ _ _ Hx) as [Hx1 _].
  destruct (inbetween_floor _ _ _ _ Hy) as [_ Hy2].
  pose proof (scaled_le x y e Hxy).
  apply (inject_Z_lt_succ mx my (scaled x e)); lra.
Qed.

Lemma inbetween_unique (x : Q) (m m' e : Z) (l l' : location) :
  inbetween x m e l -> inbetween x m' e l' -> m = m' /\ l = l'.
Proof.
  intros H H'.
  assert (Hm : m = m').
  { pose proof (inbetween_mantissa_le x x m m' e l l' H H' ltac:(lra)).
    pose proof (inbetween_mantissa_le x x m' m e l' l H' H ltac:(lra)). lia. }
  subst m'. split; [reflexivity|].
  destruct l as [|[| |]], l' as [|[| |]]; cbn in H, H'; try reflexivity;
    exfalso; lra.
Qed.

Lemma Rounds_unique (s : bool) (x : Q) (f g : spec_float) :
  Rounds s x f -> Rounds s x g -> f = g.
Proof.
  intros (d & m & l & Hd & _ & H & ->) (d' & m' & l' & Hd' & _ & H' & ->).
  pose proof (mag_is_unique x d d' Hd Hd'). subst d'.
  destruct (inbetween_unique x m m' _ l l' H H') as [-> ->]. reflexivity.
Qed.

Global Instance Rounds_Proper : Proper (eq ==> Qeq ==> eq ==> iff) Rounds.
Proof.
  intros s s' <- x y Hxy f f' <-. unfold Rounds.
  split; intros (d & m & l & Hd & Hm & H & Hf); exists d, m, l.
  - rewrite <- Hxy. exact (conj Hd (conj Hm (conj H Hf))).
  - rewrite Hxy. exact (conj Hd (conj Hm (conj H Hf))).
Qed.

(** ** Rounding keeps the order *)

Lemma round_nearest_even_le (x y : Q) (mx my e : Z) (lx ly : location) :
  inbetween x mx e lx -> inbetween y my e ly -> (x <= y)%Q ->
  round_nearest_even mx lx <= round_nearest_even my ly.
Proof.
  intros Hx Hy Hxy.
  pose proof (inbetween_mantissa_le x y mx my e lx ly Hx Hy Hxy) as Hle.
  pose proof (round_nearest_even_bounds mx lx).
  pose proof (round_nearest_even_bounds my ly).
  destruct (Z.eq_dec mx my) as [->|Hne]; [|lia].
  pose proof (scaled_le x y e Hxy) as Hs.
  destruct lx as [|[| |]], ly as [|[| |]]; cbn in Hx, Hy |- *;
    destruct (Z.even my); try lia; exfalso; lra.
Qed.

Lemma SFfinish_make (m1 e0 : Z) :
  SFfinish false m1 e0
  = if m1 <? 2 ^ 53 then SFmake m1 e0 else SFmake (2 ^ 52) (e0 + 1).
Proof.
  unfold SFfinish, SFmake. destruct (Z.eqb_spec m1 0) as [->|Hne]; [reflexivity|].
  destruct (m1 <? 2 ^ 53); reflexivity.
Qed.

Lemma SFleb_make (a ea b eb : Z) :
  0 <= a -> 0 <= b ->
  a = 0 \/ (0 < b /\ (ea < eb \/ (ea = eb /\ a <= b))) ->
  SFleb (SFmake a ea) (SFmake b eb) = true.
Proof.
  intros Ha Hb H. unfold SFmake.
  destruct (Z.eqb_spec a 0) as [->|Hane].
  - destruct (b =? 0); [reflexivity|]. destruct (eb <=? 971); reflexivity.
  - destruct H as [H|[Hbpos H]]; [lia|].
    destruct (Z.eqb_spec b 0) as [->|Hbne]; [lia|].
    destruct (Z.leb_spec ea 971) as [Hea|Hea], (Z.leb_spec eb 971) as [Heb|Heb];
      try reflexivity; [|lia].
    unfold SFleb, SFcompare.
    destruct H as [Hlt|[-> Hle]].
    + apply Z.compare_lt_iff in Hlt. rewrite Hlt. reflexivity.
    + rewrite Z.compare_refl.
      change (Pos.compare_cont Eq (Z.to_pos a) (Z.to_pos b))
        with (Z.to_pos a ?= Z.to_pos b)%positive.
      rewrite <- Z2Pos.inj_compare by lia.
      destruct (Z.compare_spec a b); [reflexivity | reflexivity | lia].
Qed.

Theorem Rounds_le (x y : Q) (f g : spec_float) :
  Rounds false x f -> Rounds false y g -> (x <= y)%Q -> SFleb f g = true.
Proof.
  intros (dx & mx & lx & Hdx & Hmx & Hx & ->) (dy & my & ly & Hdy & Hmy & Hy & ->) Hxy.
  pose proof (mag_is_le x y dx dy Hdx Hdy Hxy) as Hd.
  destruct (canonical_mantissa_bounds x dx mx lx Hdx Hmx Hx) as [Hxlt Hxnorm].
  destruct (canonical_mantissa_bounds y dy my ly Hdy Hmy Hy) as [Hylt Hynorm].
  pose proof (round_nearest_even_bounds mx lx) as Hrx.
  pose proof (round_nearest_even_bounds my ly) as Hry.
  rewrite !SFfinish_make.
  assert (He : fexp64 dx <= fexp64 dy) by (rewrite !fexp64_eq; lia).
  assert (Hex : -1074 <= fexp64 dx) by (rewrite fexp64_eq; lia).
  destruct (Z.eq_dec (fexp64 dx) (fexp64 dy)) as [Heq|Hne].
  - rewrite Heq in Hx.
    pose proof (round_nearest_even_le x y mx my (fexp64 dy) lx ly Hx Hy Hxy) as Hr.
    rewrite Heq.
    set (a := round_nearest_even mx lx) in *. set (b := round_nearest_even my ly) in *.
    destruct (Z.ltb_spec a (2 ^ 53)), (Z.ltb_spec b (2 ^ 53)); apply SFleb_make; lia.
  - specialize (Hynorm ltac:(lia)).
    set (a := round_nearest_even mx lx) in *. set (b := round_nearest_even my ly) in *.
    destruct (Z.ltb_spec a (2 ^ 53)), (Z.ltb_spec b (2 ^ 53)); apply SFleb_make; lia.
Qed.

(** ** Rounding gives a float of the format *)

Lemma valid_binary_make (s : bool) (m e : Z) :
  0 < m < 2 ^ 53 -> -1074 <= e <= 971 -> (-1074 < e -> 2 ^ 52 <= m) ->
  valid_binary (S754_finite s (Z.to_pos m) e) = true.
Proof.
  intros Hm He Hnorm. unfold valid_binary, bounded, canonical_mantissa.
  change (Z.pos (digits2_pos (Z.to_pos m))) with (Zdigits2 (Z.pos (Z.to_pos m))).
  rewrite Z2Pos.id by lia.
  change (SpecFloat.fexp prec emax (Zdigits2 m + e)) with (fexp64 (Zdigits2 m + e)).
  rewrite fexp64_eq. change (emax - prec) with 971.
  apply andb_true_intro. split; [|apply Z.leb_le; lia].
  apply Z.eqb_eq.
  destruct (Z_lt_le_dec (-1074) e) as [Hn|Hs].
  - specialize (Hnorm Hn). rewrite (Zdigits2_unique m 53); lia.
  - pose proof (Zdigits2_le_53 m ltac:(lia) ltac:(lia)). lia.
Qed.

Lemma SFfinish_valid (s : bool) (m1 e0 : Z) :
  0 <= m1 <= 2 ^ 53 -> -1074 <= e0 -> (-1074 < e0 -> 2 ^ 52 <= m1) ->
  valid_binary (SFfinish s m1 e0) = true.
Proof.
  intros Hm He Hnorm. unfold SFfinish.
  destruct (Z.eqb_spec m1 0); [reflexivity|].
  destruct (Z.ltb_spec m1 (2 ^ 53)).
  - destruct (Z.leb_spec e0 971); [|reflexivity].
    apply valid_binary_make; [lia | lia | assumption].
  - destruct (Z.leb_spec (e0 + 1) 971); [|reflexivity].
    apply valid_binary_make; lia.
Qed.

Lemma Rounds_valid (s : bool) (x : Q) (f : spec_float) :
  Rounds s x f -> valid_binary f = true.
Proof.
  intros (d & m & l & Hd & Hm & H & ->).
  destruct (canonical_mantissa_bounds x d m l Hd Hm H) as [Hlt Hnorm].
  pose proof (round_nearest_even_bounds m l).
  apply SFfinish_valid; [lia | rewrite fexp64_eq; lia |].
  intros Hn. specialize (Hnorm Hn). lia.
Qed.

(** ** Division *)

Lemma inbetween_of_scaled (x : Q) (m e : Z) (l : location) (y : Q) :
  (scaled x e == y)%Q ->
  match l with
  | loc_Exact => (y == inject_Z m)%Q
  | loc_Inexact c =>
      (inject_Z m < y)%Q /\ (y < inject_Z m + 1)%Q
      /\ half_cmp y (inject_Z m + (1 # 2)) c
  end ->
  inbetween x m e l.
Proof.
  intros Hy. destruct l as [|[| |]]; cbn; intros H; repeat split; lra.
Qed.

Lemma Qdiv_inject (a : Z) (p : positive) :
  (inject_Z a / inject_Z (Z.pos p) == a # p)%Q.
Proof. unfold Qdiv, Qinv, Qmult, Qeq, inject_Z. simpl. lia. Qed.

Lemma Qmake_div_eucl (a q r : Z) (p : positive) :
  a = Z.pos p * q + r -> (a # p == inject_Z q + (r # p))%Q.
Proof. intros ->. unfold Qeq, Qplus, inject_Z. simpl. nia. Qed.

Lemma new_location_inbetween (q r : Z) (p : positive) :
  0 <= r < Z.pos p ->
  match new_location (Z.pos p) r with
  | loc_Exact => (inject_Z q + (r # p) == inject_Z q)%Q
  | loc_Inexact c =>
      (inject_Z q < inject_Z q + (r # p))%Q
      /\ (inject_Z q + (r # p) < inject_Z q + 1)%Q
      /\ half_cmp (inject_Z q + (r # p)) (inject_Z q + (1 # 2)) c
  end.
Proof.
  intros Hr. unfold new_location, new_location_even, new_location_odd.
  assert (Hpos : r <> 0 -> (0 < r # p)%Q) by (intros; unfold Qlt; simpl; lia).
  assert (Hlt1 : (r # p < 1)%Q) by (unfold Qlt; simpl; lia).
  assert (Hhalf : forall c, (2 * r ?= Z.pos p) = c -> half_cmp (r # p) (1 # 2) c).
  { intros c <-. destruct (Z.compare_spec (2 * r) (Z.pos p)); unfold half_cmp.
    - unfold Qeq. simpl. lia.
    - unfold Qlt. simpl. lia.
    - unfold Qlt. simpl. lia. }
  assert (Hshift : forall c, half_cmp (r # p) (1 # 2) c ->
            half_cmp (inject_Z q + (r # p)) (inject_Z q + (1 # 2)) c).
  { intros [| |]; unfold half_cmp; intros; lra. }
  destruct (Z.even (Z.pos p)) eqn:Hev; destruct (Z.eqb_spec r 0) as [->|Hne].
  - unfold Qeq, Qplus. simpl. lia.
  - specialize (Hpos Hne). repeat split; try lra. apply Hshift, Hhalf. reflexivity.
  - unfold Qeq, Qplus. simpl. lia.
  - specialize (Hpos Hne). repeat split; try lra. apply Hshift.
    assert (Hodd : Z.odd (Z.pos p) = true) by (rewrite <- Z.negb_even, Hev; reflexivity).
    apply Z.odd_spec in Hodd. destruct Hodd as [k Hk].
    destruct (Z.compare_spec (2 * r + 1) (Z.pos p)) as [Heq|Hlt|Hgt].
    + apply Hhalf. apply Z.compare_lt_iff. lia.
    + apply Hhalf. apply Z.compare_lt_iff. lia.
    + apply Hhalf. apply Z.compare_gt_iff. lia.
Qed.

(** The quotient [SFdiv_core_binary] computes describes the ratio, at an
    exponent that leaves the rounding enough bits. *)
Lemma SFdiv_core_binary_adequate (m1 m2 : positive) (e1 e2 : Z) :
  let x := ((inject_Z (Z.pos m1) * pow2 e1) / (inject_Z (Z.pos m2) * pow2 e2))%Q in
  let '(q, e', l) := SFdiv_core_binary prec emax (Z.pos m1) e1 (Z.pos m2) e2 in
  exists d, mag_is x d /\ 0 <= q /\ inbetween x q e' l /\ e' <= fexp64 d.
Proof.
  intros x. unfold SFdiv_core_binary.
  set (d1 := Zdigits2 (Z.pos m1)). set (d2 := Zdigits2 (Z.pos m2)).
  change (SpecFloat.fexp prec emax (d1 + e1 - (d2 + e2))) with (fexp64 (d1 + e1 - (d2 + e2))).
  set (D := d1 + e1 - (d2 + e2)).
  set (e' := Z.min (fexp64 D) (e1 - e2)).
  set (s := e1 - e2 - e').
  assert (Hs : 0 <= s) by (unfold s, e'; lia).
  set (m' := match s with
             | 0 => Z.pos m1
             | Z.pos _ => Z.shiftl (Z.pos m1) s
             | Z.neg _ => 0
             end).
  assert (Hm' : m' = Z.pos m1 * 2 ^ s).
  { unfold m'. destruct s as [|ps|ps]; [simpl; lia | | lia].
    apply Z.shiftl_mul_pow2. lia. }
  pose proof (Z_div_mod m' (Z.pos m2) ltac:(lia)) as Hdiv.
  destruct (Z.div_eucl m' (Z.pos m2)) as [q r]. destruct Hdiv as [Hqr Hr].
  assert (Hpow : 0 < 2 ^ s) by (apply Z.pow_pos_nonneg; lia).
  assert (Hq : 0 <= q) by nia.
  (* the scaled ratio *)
  assert (Hy : (scaled x e' == inject_Z q + (r # m2))%Q).
  { rewrite <- (Qmake_div_eucl m' q r m2 Hqr), <- Qdiv_inject, Hm'.
    rewrite inject_Z_mult, <- (pow2_Z s) by assumption.
    assert (Hps : (pow2 s == pow2 e1 * / pow2 e2 * pow2 (- e'))%Q).
    { unfold s. replace (e1 - e2 - e') with (e1 + (- e2 + - e')) by lia.
      rewrite !pow2_add, (pow2_opp e2). apply Qmult_assoc. }
    rewrite Hps. unfold scaled, x.
    pose proof (pow2_pos e2) as H2.
    assert (HM2 : (0 < inject_Z (Z.pos m2))%Q) by reflexivity.
    generalize dependent (inject_Z (Z.pos m2)). generalize (inject_Z (Z.pos m1)).
    generalize dependent (pow2 e2). generalize (pow2 e1) (pow2 (- e')).
    intros P1 Pe P2 _ HP2 M1 M2 x' HM2. field. split; lra. }
  (* the magnitude *)
  pose proof (digits2_pos_bounds m1) as [H1lo H1hi]. fold (Zdigits2 (Z.pos m1)) in H1lo, H1hi.
  pose proof (digits2_pos_bounds m2) as [H2lo H2hi]. fold (Zdigits2 (Z.pos m2)) in H2lo, H2hi.
  fold d1 in H1lo, H1hi. fold d2 in H2lo, H2hi.
  assert (Hd1 : 0 < d1) by (unfold d1; simpl; lia).
  assert (Hd2 : 0 < d2) by (unfold d2; simpl; lia).
  set (A := (inject_Z (Z.pos m1) * pow2 e1)%Q) in *.
  set (B := (inject_Z (Z.pos m2) * pow2 e2)%Q) in *.
  assert (HA : (pow2 (d1 - 1 + e1) <= A)%Q /\ (A < pow2 (d1 + e1))%Q).
  { unfold A. rewrite !pow2_add, (pow2_Z (d1 - 1)), (pow2_Z d1) by lia.
    pose proof (pow2_pos e1). split.
    - apply Qmult_le_compat_r; [rewrite <- Zle_Qle; assumption | lra].
    - apply Qmult_lt_compat_r; [assumption | rewrite <- Zlt_Qlt; assumption]. }
  assert (HB : (pow2 (d2 - 1 + e2) <= B)%Q /\ (B < pow2 (d2 + e2))%Q).
  { unfold B. rewrite !pow2_add, (pow2_Z (d2 - 1)), (pow2_Z d2) by lia.
    pose proof (pow2_pos e2). split.
    - apply Qmult_le_compat_r; [rewrite <- Zle_Qle; assumption | lra].
    - apply Qmult_lt_compat_r; [assumption | rewrite <- Zlt_Qlt; assumption]. }
  assert (HBpos : (0 < B)%Q).
  { eapply Qlt_le_trans; [apply (pow2_pos (d2 - 1 + e2)) | apply HB]. }
  assert (Hxlo : (pow2 (D - 1) < x)%Q).
  { unfold x. apply Qlt_shift_div_l; [assumption|].
    eapply Qlt_le_trans; [|apply HA].
    replace (d1 - 1 + e1) with (D - 1 + (d2 + e2)) by (unfold D; lia).
    rewrite (pow2_add (D - 1)). apply Qmult_lt_l; [apply pow2_pos | apply HB]. }
  assert (Hxhi : (x < pow2 (D + 1))%Q).
  { unfold x. apply Qlt_shift_div_r; [assumption|].
    eapply Qlt_le_trans; [apply HA|].
    replace (d1 + e1) with (D + 1 + (d2 - 1 + e2)) by (unfold D; lia).
    rewrite (pow2_add (D + 1)). apply Qmult_le_l; [apply pow2_pos | apply HB]. }
  assert (Hmag : exists d, mag_is x d /\ D <= d).
  { destruct (Qlt_le_dec x (pow2 D)) as [Hlt|Hge].
    - exists D. split; [split; [lra | assumption] | lia].
    - exists (D + 1). split; [split; [|assumption] | lia].
      replace (D + 1 - 1) with D by lia. assumption. }
  destruct Hmag as (d & Hmag & HDd).
  exists d. split; [assumption|]. split; [assumption|]. split.
  - pose proof (new_location_inbetween q r m2 Hr) as Hloc.
    apply (inbetween_of_scaled x q e' _ _ Hy). exact Hloc.
  - unfold e'. rewrite !fexp64_eq. lia.
Qed.

(** ** Floats of the format, and the numbers around them *)

Lemma valid_binary_canonical (s : bool) (m : positive) (e : Z) :
  valid_binary (S754_finite s m e) = true -> canonical64 (Z.pos m) e.
Proof.
  unfold valid_binary, bounded, canonical_mantissa. intros H.
  apply andb_prop in H. destruct H as [Hc He].
  apply Z.eqb_eq in Hc. apply Z.leb_le in He.
  change (SpecFloat.fexp prec emax (Z.pos (digits2_pos m) + e))
    with (fexp64 (Z.pos (digits2_pos m) + e)) in Hc.
  rewrite fexp64_eq in Hc. change (emax - prec) with 971 in He.
  pose proof (digits2_pos_bounds m) as [Hlo Hhi].
  set (dm := Z.pos (digits2_pos m)) in *.
  assert (Hdm : 0 < dm) by (unfold dm; lia).
  assert (H53 : dm <= 53) by lia.
  unfold canonical64. split; [|split; [lia|]].
  - split; [lia|]. eapply Z.lt_le_trans; [exact Hhi|].
    apply Z.pow_le_mono_r; lia.
  - intros Hn. assert (dm = 53) by lia. replace (dm - 1) with 52 in Hlo by lia. exact Hlo.
Qed.

Lemma canonical64_valid (s : bool) (m e : Z) :
  canonical64 m e -> valid_binary (S754_finite s (Z.to_pos m) e) = true.
Proof. intros (Hm & He & Hn). apply valid_binary_make; assumption. Qed.

Lemma mag_exists (x : Q) : (0 < x)%Q -> exists d, mag_is x d.
Proof.
  intros Hx. destruct x as [a b]. unfold Qlt in Hx. simpl in Hx.
  destruct a as [|a|a]; try lia.
  pose proof (SFdiv_core_binary_adequate a b 0 0) as H. cbv zeta in H.
  destruct (SFdiv_core_binary prec emax (Z.pos a) 0 (Z.pos b) 0) as [[q e] l].
  destruct H as (d & Hmag & _). exists d.
  assert (Heq : (inject_Z (Z.pos a) * pow2 0 / (inject_Z (Z.pos b) * pow2 0)
                 == Z.pos a # b)%Q).
  { rewrite pow2_0, !Qmult_1_r. apply Qdiv_inject. }
  rewrite Heq in Hmag. exact Hmag.
Qed.

Lemma inject_Z_pred (m : Z) : (inject_Z (m - 1) == inject_Z m - 1)%Q.
Proof.
  unfold Z.sub. rewrite inject_Z_plus, inject_Z_opp. reflexivity.
Qed.

Lemma scaled_back (x : Q) (e : Z) : (x == scaled x e * pow2 e)%Q.
Proof.
  unfold scaled. rewrite <- Qmult_assoc, (Qmult_comm (pow2 (- e))), pow2_inv. ring.
Qed.

Lemma scaled_pos_inv (x : Q) (e : Z) : (0 < scaled x e)%Q -> (0 < x)%Q.
Proof.
  intros H. rewrite (scaled_back x e).
  apply Qmult_lt_0_compat; [assumption | apply pow2_pos].
Qed.

Lemma scaled_mag (x : Q) (d e : Z) :
  (pow2 (d - 1 - e) <= scaled x e)%Q -> (scaled x e < pow2 (d - e))%Q -> mag_is x d.
Proof.
  intros Hlo Hhi. pose proof (pow2_pos e) as He.
  assert (Hx : (x == scaled x e * pow2 e)%Q).
  { unfold scaled. rewrite <- Qmult_assoc, (Qmult_comm (pow2 (- e))), pow2_inv. ring. }
  split.
  - replace (d - 1) with (d - 1 - e + e) by lia. rewrite pow2_add, Hx.
    apply Qmult_le_compat_r; [assumption | lra].
  - replace d with (d - e + e) at 1 by lia. rewrite pow2_add, Hx.
    apply Qmult_lt_compat_r; assumption.
Qed.

(** A number within half a unit of a float, and within a quarter of a unit
    below a float that begins a binade, rounds to that float. *)
Lemma Rounds_near (s : bool) (m e : Z) (y : Q) :
  canonical64 m e ->
  (inject_Z m - (1 # 2) < scaled y e)%Q ->
  (scaled y e < inject_Z m + (1 # 2))%Q ->
  (m = 2 ^ 52 -> -1074 < e -> (inject_Z m - (1 # 4) < scaled y e)%Q) ->
  Rounds s y (S754_finite s (Z.to_pos m) e).
Proof.
  intros (Hm & He & Hnorm) Hlo Hhi Hquarter.
  set (u := scaled y e) in *.
  assert (Hfin : forall m1, m1 = m -> SFfinish s m1 e = S754_finite s (Z.to_pos m) e).
  { intros m1 ->. unfold SFfinish.
    destruct (Z.eqb_spec m 0); [lia|]. destruct (Z.ltb_spec m (2 ^ 53)); [|lia].
    destruct (Z.leb_spec e 971); [reflexivity | lia]. }
  assert (H53 : (inject_Z m + 1 <= pow2 53)%Q).
  { rewrite pow2_Z by lia. change 1%Q with (inject_Z 1).
    rewrite <- inject_Z_plus, <- Zle_Qle. lia. }
  assert (Hmpos : (1 <= inject_Z m)%Q).
  { change 1%Q with (inject_Z 1). rewrite <- Zle_Qle. lia. }
  destruct (Qlt_le_dec u (inject_Z m)) as [Hbelow|Habove].
  - (* below the float *)
    destruct (Z.eq_dec m (2 ^ 52)) as [Hm52|Hm52];
      [destruct (Z_lt_le_dec (-1074) e) as [Hn|Hsub]|].
    + (* the float begins a binade: [y] lies in the binade below *)
      specialize (Hquarter Hm52 Hn).
      assert (Hu' : (scaled y (e - 1) == 2 * u)%Q).
      { unfold u. pose proof (scaled_succ y (e - 1)) as Hs.
        replace (e - 1 + 1) with e in Hs by lia. lra. }
      assert (H52 : (inject_Z m == pow2 52)%Q).
      { rewrite pow2_Z by lia. rewrite Hm52. reflexivity. }
      assert (Hp53 : (pow2 53 == 2 * pow2 52)%Q) by (apply (pow2_succ 52)).
      assert (Hmag : mag_is y (e - 1 + 53)).
      { apply (scaled_mag y _ (e - 1)).
        - replace (e - 1 + 53 - 1 - (e - 1)) with 52 by lia. lra.
        - replace (e - 1 + 53 - (e - 1)) with 53 by lia. lra. }
      assert (Hfe : fexp64 (e - 1 + 53) = e - 1) by (rewrite fexp64_eq; lia).
      exists (e - 1 + 53), (2 ^ 53 - 1), (loc_Inexact Gt).
      split; [assumption|]. split; [lia|]. rewrite Hfe. split.
      * assert (Hi : (inject_Z (2 ^ 53 - 1) == 2 * inject_Z m - 1)%Q).
        { rewrite Hm52. reflexivity. }
        cbn. rewrite Hu', Hi. repeat split; lra.
      * cbn [round_nearest_even]. replace (2 ^ 53 - 1 + 1) with (2 ^ 53) by lia.
        unfold SFfinish. cbn [Z.eqb Z.ltb Z.compare Z.pow Z.pow_pos Pos.iter Z.mul Pos.mul Pos.compare Pos.compare_cont].
        rewrite Hm52. replace (e - 1 + 1) with e by lia.
        destruct (Z.leb_spec e 971); [reflexivity | lia].
    + (* the least exponent *)
      assert (Hypos : (0 < y)%Q) by (apply (scaled_pos_inv y e); fold u; lra).
      destruct (mag_exists y Hypos) as [d Hd].
      assert (Hde : fexp64 d = e).
      { assert (e = -1074) by lia. subst e. rewrite fexp64_eq.
        destruct Hd as [Hdlo _]. apply (scaled_le _ _ (-1074)) in Hdlo.
        rewrite scaled_pow2 in Hdlo. fold u in Hdlo.
        assert (Hlt : (pow2 (d - 1 - -1074) < pow2 53)%Q) by lra.
        apply pow2_lt_inv in Hlt. lia. }
      exists d, (m - 1), (loc_Inexact Gt).
      split; [assumption|]. split; [lia|]. rewrite Hde. split.
      * cbn. fold u. rewrite inject_Z_pred. repeat split; lra.
      * cbn [round_nearest_even]. symmetry. apply Hfin. lia.
    + (* inside a binade, or at the least exponent *)
      assert (Hypos : (0 < y)%Q) by (apply (scaled_pos_inv y e); fold u; lra).
      destruct (mag_exists y Hypos) as [d Hd].
      assert (Hde : fexp64 d = e).
      { rewrite fexp64_eq. destruct Hd as [Hdlo Hdhi].
        apply (scaled_le _ _ e) in Hdlo. rewrite scaled_pow2 in Hdlo. fold u in Hdlo.
        apply (scaled_lt _ _ e) in Hdhi. rewrite scaled_pow2 in Hdhi. fold u in Hdhi.
        assert (Hlt : (pow2 (d - 1 - e) < pow2 53)%Q) by lra.
        apply pow2_lt_inv in Hlt.
        destruct (Z_lt_le_dec (-1074) e) as [Hn|Hsub]; [|lia].
        specialize (Hnorm Hn).
        assert (H52 : (pow2 52 + 1 <= inject_Z m)%Q).
        { rewrite pow2_Z by lia. change 1%Q with (inject_Z 1).
          rewrite <- inject_Z_plus, <- Zle_Qle. lia. }
        assert (Hgt : (pow2 52 < pow2 (d - e))%Q) by lra.
        apply pow2_lt_inv in Hgt. lia. }
      exists d, (m - 1), (loc_Inexact Gt).
      split; [assumption|]. split; [lia|]. rewrite Hde. split.
      * cbn. fold u. rewrite inject_Z_pred. repeat split; lra.
      * cbn [round_nearest_even]. symmetry. apply Hfin. lia.
  - (* at the float or above it *)
    pose proof (Zdigits2_bounds m ltac:(lia)) as [Hdlo Hdhi].
    pose proof (Zdigits2_pos m ltac:(lia)) as Hdpos.
    set (dm := Zdigits2 m) in *.
    assert (Hdm53 : dm <= 53) by (apply Zdigits2_le_53; lia).
    assert (Hmag : mag_is y (dm + e)).
    { apply (scaled_mag y _ e); fold u.
      - replace (dm + e - 1 - e) with (dm - 1) by lia.
        rewrite pow2_Z by lia. apply Qle_trans with (inject_Z m); [|assumption].
        rewrite <- Zle_Qle. assumption.
      - replace (dm + e - e) with dm by lia.
        rewrite pow2_Z by lia.
        assert (Hle : (inject_Z m + 1 <= inject_Z (2 ^ dm))%Q).
        { change 1%Q with (inject_Z 1). rewrite <- inject_Z_plus, <- Zle_Qle. lia. }
        lra. }
    assert (Hfe : fexp64 (dm + e) = e).
    { rewrite fexp64_eq. destruct (Z_lt_le_dec (-1074) e) as [Hn|Hsub]; [|lia].
      specialize (Hnorm Hn).
      assert (dm = 53) by (apply Zdigits2_unique; lia). lia. }
    destruct (Qeq_dec u (inject_Z m)) as [Heq|Hneq].
    + exists (dm + e), m, loc_Exact.
      split; [assumption|]. split; [lia|]. rewrite Hfe. split; [exact Heq|].
      symmetry. apply Hfin. reflexivity.
    + exists (dm + e), m, (loc_Inexact Lt).
      split; [assumption|]. split; [lia|]. rewrite Hfe. split.
      * cbn. fold u. repeat split; lra.
      * symmetry. apply Hfin. reflexivity.
Qed.

(** ** More on the order of rounded numbers *)

Lemma Rounds_nonneg (x : Q) (f : spec_float) : Rounds false x f -> SFnonneg f.
Proof.
  intros (d & m & l & _ & _ & _ & ->). unfold SFfinish.
  destruct (_ =? 0); [reflexivity|].
  destruct (_ <? _); [destruct (_ <=? 971) | destruct (_ <=? 971)]; reflexivity.
Qed.

Lemma SFleb_antisym (f g : spec_float) :
  SFnonneg f -> SFnonneg g -> SFleb f g = true -> SFleb g f = true -> f = g.
Proof.
  destruct f as [s|s| |s m e], g as [s'|s'| |s' m' e']; cbn [SFnonneg];
    intros Hf Hg; try contradiction; subst; try reflexivity;
    try (intros H1 H2; discriminate).
  intros H1 H2. unfold SFleb, SFcompare in H1, H2.
  change (Pos.compare_cont Eq m m') with (m ?= m')%positive in H1.
  change (Pos.compare_cont Eq m' m) with (m' ?= m)%positive in H2.
  destruct (Z.compare_spec e e') as [Hee|Hee|Hee];
    destruct (Z.compare_spec e' e) as [Hee'|Hee'|Hee']; try lia; try discriminate.
  subst e'.
  destruct (Pos.compare_spec m m') as [Hmm|Hmm|Hmm];
    destruct (Pos.compare_spec m' m) as [Hmm'|Hmm'|Hmm']; try lia; try discriminate.
  subst m'. reflexivity.
Qed.

Lemma Rounds_pos (s : bool) (x : Q) (f : spec_float) : Rounds s x f -> (0 < x)%Q.
Proof.
  intros (d & _ & _ & [Hlo _] & _). pose proof (pow2_pos (d - 1)). lra.
Qed.

Lemma Rounds_exists (s : bool) (x : Q) : (0 < x)%Q -> exists f, Rounds s x f.
Proof.
  intros Hx. destruct (mag_exists x Hx) as [d Hd].
  (* the mantissa at the canonical exponent *)
  set (e0 := fexp64 d).
  set (y := scaled x e0).
  assert (Hy : (0 < y)%Q) by (apply scaled_pos; assumption).
  set (m0 := Qfloor y).
  pose proof (Qfloor_le y) as Hfl. pose proof (Qlt_floor y) as Hfu.
  fold m0 in Hfl, Hfu.
  assert (Hsucc : (inject_Z (m0 + 1) == inject_Z m0 + 1)%Q).
  { rewrite inject_Z_plus. reflexivity. }
  assert (Hm0 : 0 <= m0).
  { assert (H : (inject_Z 0 < inject_Z (m0 + 1))%Q).
    { change (inject_Z 0) with 0%Q. lra. }
    rewrite <- Zlt_Qlt in H. lia. }
  assert (Hl : exists l, inbetween x m0 e0 l).
  { destruct (Qeq_dec y (inject_Z m0)) as [Heq|Hne].
    - exists loc_Exact. exact Heq.
    - assert (Hlow : (inject_Z m0 < y)%Q).
      { destruct (Qlt_le_dec (inject_Z m0) y); [assumption|].
        exfalso. apply Hne. apply Qle_antisym; assumption. }
      destruct (Q_dec y (inject_Z m0 + (1 # 2))) as [[Hlt|Hgt]|Heq].
      + exists (loc_Inexact Lt). unfold inbetween, half_cmp. fold y.
        repeat split; lra.
      + exists (loc_Inexact Gt). unfold inbetween, half_cmp. fold y.
        repeat split; lra.
      + exists (loc_Inexact Eq). unfold inbetween, half_cmp. fold y.
        repeat split; lra. }
  destruct Hl as [l Hl].
  exists (SFfinish s (round_nearest_even m0 l) e0), d, m0, l.
  repeat split; try assumption; apply Hd.
Qed.

(** Numbers between two that round to the same float round to it too. *)
Lemma Rounds_squeeze (a b y : Q) (f : spec_float) :
  Rounds false a f -> Rounds false b f -> (a <= y)%Q -> (y <= b)%Q ->
  Rounds false y f.
Proof.
  intros Ha Hb Hay Hyb.
  pose proof (Rounds_pos _ _ _ Ha) as Hapos.
  destruct (Rounds_exists false y ltac:(lra)) as [g Hg].
  assert (Hfg : f = g); [|rewrite Hfg; exact Hg].
  apply SFleb_antisym.
  - eapply Rounds_nonneg; eassumption.
  - eapply Rounds_nonneg; eassumption.
  - apply (Rounds_le a y); assumption.
  - apply (Rounds_le y b); assumption.
Qed.

(** A float of the format is the rounding of its own value. *)
Lemma Rounds_exact (s : bool) (m e : Z) :
  canonical64 m e ->
  Rounds s (inject_Z m * pow2 e) (S754_finite s (Z.to_pos m) e).
Proof.
  intros Hcan.
  assert (Hsc : (scaled (inject_Z m * pow2 e) e == inject_Z m)%Q).
  { unfold scaled. rewrite <- Qmult_assoc, pow2_inv. ring. }
  apply Rounds_near; [assumption | rewrite Hsc; lra .. | intros _ _; rewrite Hsc; lra].
Qed.

(** ** Signs *)

Lemma SFfinish_opp (s : bool) (m1 e0 : Z) :
  SFfinish (negb s) m1 e0 = SFopp (SFfinish s m1 e0).
Proof.
  unfold SFfinish. destruct (_ =? 0); [reflexivity|].
  destruct (_ <? _); [destruct (_ <=? 971) | destruct (_ <=? 971)]; reflexivity.
Qed.

Lemma Rounds_opp (s : bool) (x : Q) (f : spec_float) :
  Rounds s x f -> Rounds (negb s) x (SFopp f).
Proof.
  intros (d & m & l & Hd & Hm & H & ->). exists d, m, l.
  split; [assumption|]. split; [assumption|]. split; [assumption|].
  symmetry. apply SFfinish_opp.
Qed.

Lemma SFopp_involutive (f : spec_float) : SFopp (SFopp f) = f.
Proof. destruct f as [s|s| |s m e]; cbn; rewrite ?negb_involutive; reflexivity. Qed.

Lemma SFleb_opp (f g : spec_float) : SFleb (SFopp g) (SFopp f) = SFleb f g.
Proof.
  destruct f as [s|s| |s m e], g as [s'|s'| |s' m' e']; try reflexivity;
    try (destruct s; reflexivity); try (destruct s'; reflexivity);
    try (destruct s, s'; reflexivity).
  unfold SFleb, SFopp, SFcompare.
  change (Pos.compare_cont Eq m m') with (m ?= m')%positive.
  change (Pos.compare_cont Eq m' m) with (m' ?= m)%positive.
  rewrite (Z.compare_antisym e e'), (Pos.compare_antisym m m').
  destruct s, s'; cbn [negb]; try reflexivity;
    destruct (e ?= e'); cbn [CompOpp]; try reflexivity;
    destruct (m ?= m')%positive; reflexivity.
Qed.

Section FloatQuantizer.

Import PyNum.

(** ** [round_ratio] *)

Lemma round_ratio_Rounds (sign : bool) (num den : positive) :
  Rounds sign (Z.pos num # den) (Prim2SF (round_ratio sign num den)).
Proof.
  unfold round_ratio.
  pose proof (SFdiv_core_binary_adequate num den 0 0) as H. cbv zeta in H.
  change PyNum.prec with FloatOps.prec. change PyNum.emax with FloatOps.emax.
  destruct (SFdiv_core_binary FloatOps.prec FloatOps.emax (Z.pos num) 0 (Z.pos den) 0)
    as [[q e] l].
  destruct H as (d & Hmag & Hq & Hin & He).
  assert (Hx : (inject_Z (Z.pos num) * pow2 0 / (inject_Z (Z.pos den) * pow2 0)
                == Z.pos num # den)%Q).
  { rewrite pow2_0, !Qmult_1_r. apply Qdiv_inject. }
  rewrite Hx in Hmag, Hin.
  pose proof (binary_round_aux_Rounds sign _ q e d l Hmag Hq Hin He) as HR.
  rewrite Prim2SF_SF2Prim; [exact HR|]. eapply Rounds_valid. exact HR.
Qed.

(** ** [float(Decimal)] *)

Lemma pow10_neg (k : positive) : ((10 # 1) ^ Z.neg k == 1 # (10 ^ k)%positive)%Q.
Proof.
  change (Z.neg k) with (- Z.pos k). rewrite Qpower_opp.
  change (10 # 1)%Q with (inject_Z 10). rewrite <- Zpower_Qpower by lia.
  rewrite <- Pos2Z.inj_pow. reflexivity.
Qed.

Lemma Dec_abs_value_neg (p k : positive) :
  (Dec_abs_value (N.pos p) (Z.neg k) == Z.pos p # (10 ^ k)%positive)%Q.
Proof.
  unfold Dec_abs_value. rewrite pow10_neg. unfold Qeq, Qmult, inject_Z. simpl. lia.
Qed.

Lemma Dec_abs_value_nonneg_exp (p : positive) (e : Z) :
  0 <= e ->
  (Dec_abs_value (N.pos p) e == Z.pos (p * Z.to_pos (10 ^ e)) # 1)%Q.
Proof.
  intros He. unfold Dec_abs_value.
  change (10 # 1)%Q with (inject_Z 10). rewrite <- Zpower_Qpower by assumption.
  rewrite <- inject_Z_mult. rewrite Pos2Z.inj_mul, Z2Pos.id by (apply Z.pow_pos_nonneg; lia).
  reflexivity.
Qed.

Lemma float_of_Decimal_Rounds (s : bool) (p : positive) (e : Z) :
  Rounds s (Dec_abs_value (N.pos p) e)
    (Prim2SF (float_of_Decimal (DecFinite s (N.pos p) e))).
Proof.
  cbn [float_of_Decimal]. destruct e as [|k|k].
  - rewrite Dec_abs_value_nonneg_exp by lia. apply round_ratio_Rounds.
  - rewrite Dec_abs_value_nonneg_exp by lia. apply round_ratio_Rounds.
  - rewrite Dec_abs_value_neg. apply round_ratio_Rounds.
Qed.

Lemma Dec_abs_value_pos (p : positive) (e : Z) : (0 < Dec_abs_value (N.pos p) e)%Q.
Proof.
  unfold Dec_abs_value. apply Qmult_lt_0_compat; [reflexivity|].
  apply Qpower_0_lt. reflexivity.
Qed.

Lemma Dec_abs_value_0 (e : Z) : (Dec_abs_value 0 e == 0)%Q.
Proof. unfold Dec_abs_value. change (inject_Z (Z.of_N 0)) with 0%Q. ring. Qed.

(** ** Comparisons of floats of the format *)

Lemma SFleb_zero_Rounds (s0 : bool) (x : Q) (f : spec_float) :
  Rounds false x f -> SFleb (S754_zero s0) f = true.
Proof.
  intros (d & m & l & _ & _ & _ & ->). unfold SFfinish.
  destruct (_ =? 0); [reflexivity|].
  destruct (_ <? _); [destruct (_ <=? 971) | destruct (_ <=? 971)]; reflexivity.
Qed.

(** [float(d)] grows with [d] on the decimals that are not negative. *)
Lemma float_of_Decimal_le (c1 c2 : N) (e1 e2 : Z) :
  (Dec_abs_value c1 e1 <= Dec_abs_value c2 e2)%Q ->
  (float_of_Decimal (DecFinite false c1 e1)
   <=? float_of_Decimal (DecFinite false c2 e2))%float = true.
Proof.
  intros Hle. rewrite leb_spec.
  destruct c1 as [|p1].
  - change (float_of_Decimal (DecFinite false 0 e1)) with PrimFloat.zero.
    change (Prim2SF 0) with (S754_zero false).
    destruct c2 as [|p2]; [reflexivity|].
    eapply SFleb_zero_Rounds. apply float_of_Decimal_Rounds.
  - destruct c2 as [|p2].
    + rewrite Dec_abs_value_0 in Hle. pose proof (Dec_abs_value_pos p1 e1). lra.
    + eapply Rounds_le; [apply float_of_Decimal_Rounds .. | exact Hle].
Qed.

(** ** Powers of ten *)

Lemma pow10_gt_0 (k : Z) : (0 < pow10 k)%Q.
Proof. apply Qpower_0_lt. reflexivity. Qed.

Lemma pow10_add (a b : Z) : (pow10 (a + b) == pow10 a * pow10 b)%Q.
Proof. apply Qpower_plus. discriminate. Qed.

Lemma pow10_Z (k : Z) : 0 <= k -> (pow10 k == inject_Z (10 ^ k))%Q.
Proof. intros Hk. unfold pow10. rewrite Zpower_Qpower by assumption. reflexivity. Qed.

Lemma pow10_le_mono (a b : Z) : a <= b -> (pow10 a <= pow10 b)%Q.
Proof. intros H. apply Qpower_le_compat_l; [assumption | discriminate]. Qed.

Lemma pow10_lt_mono (a b : Z) : a < b -> (pow10 a < pow10 b)%Q.
Proof. intros H. apply Qpower_lt_compat_l; [assumption | reflexivity]. Qed.

Lemma pow10_inv (k : Z) : (pow10 k * pow10 (- k) == 1)%Q.
Proof. rewrite <- pow10_add. replace (k + - k) with 0 by lia. reflexivity. Qed.

Lemma Dec_abs_value_pow10 (c : N) (k : Z) :
  (Dec_abs_value c k == inject_Z (Z.of_N c) * pow10 k)%Q.
Proof. reflexivity. Qed.

(** ** [floor_log10] *)

Lemma pow10_le_spec (k : Z) (num den : positive) :
  pow10_le k num den = true <-> (pow10 k <= Z.pos num # den)%Q.
Proof.
  unfold pow10_le. destruct (Z.leb_spec 0 k) as [Hk|Hk].
  - rewrite pow10_Z by assumption. rewrite Z.leb_le.
    unfold Qle, inject_Z. simpl. rewrite Z.mul_1_r. reflexivity.
  - destruct k as [|k|k]; try lia. unfold pow10. rewrite pow10_neg.
    rewrite Z.leb_le. unfold Qle. simpl.
    rewrite Pos2Z.inj_pow. change (- Z.neg k) with (Z.pos k). lia.
Qed.

Lemma pow10_le_down (k k' : Z) (num den : positive) :
  k <= k' -> pow10_le k' num den = true -> pow10_le k num den = true.
Proof.
  rewrite !pow10_le_spec. intros Hk H.
  eapply Qle_trans; [apply pow10_le_mono; exact Hk | exact H].
Qed.

Lemma log10_down_spec (num den : positive) (floor : Z) :
  pow10_le floor num den = true ->
  forall (fuel : nat) (k : Z),
    floor <= k -> k - floor < Z.of_nat fuel ->
    pow10_le (log10_down fuel k num den) num den = true
    /\ floor <= log10_down fuel k num den <= k.
Proof.
  intros Hfloor. induction fuel as [|fuel IH]; intros k Hlo Hk; cbn [log10_down].
  - lia.
  - destruct (pow10_le k num den) eqn:Hle; [split; [assumption | lia]|].
    assert (k <> floor) by congruence.
    destruct (IH (k - 1) ltac:(lia) ltac:(lia)) as [H1 H2]. split; [assumption | lia].
Qed.

Lemma log10_up_spec (num den : positive) :
  forall (fuel : nat) (k : Z),
    pow10_le k num den = true ->
    pow10_le (log10_up fuel k num den) num den = true
    /\ k <= log10_up fuel k num den <= k + Z.of_nat fuel
    /\ (pow10_le (log10_up fuel k num den + 1) num den = true ->
        log10_up fuel k num den = k + Z.of_nat fuel).
Proof.
  induction fuel as [|fuel IH]; intros k Hk; cbn [log10_up].
  - split; [assumption|]. split; [lia|]. intros _. lia.
  - destruct (pow10_le (k + 1) num den) eqn:Hle.
    + destruct (IH (k + 1) Hle) as (H1 & H2 & H3).
      split; [assumption|]. split; [lia|]. intros H. specialize (H3 H). lia.
    + split; [assumption|]. split; [lia|]. intros H. congruence.
Qed.

(** [floor_log10] is the decimal exponent of a ratio in the range of the
    doubles. *)
Lemma floor_log10_spec (num den : positive) :
  Z.pos num < 2 ^ 1024 -> Z.pos den <= 2 ^ 1074 ->
  (pow10 (floor_log10 num den) <= Z.pos num # den)%Q
  /\ (Z.pos num # den < pow10 (floor_log10 num den + 1))%Q.
Proof.
  intros Hnum Hden.
  assert (Hfloor : pow10_le (-330) num den = true).
  { unfold pow10_le. cbn [Z.leb Z.compare]. apply Z.leb_le.
    assert (H : 2 ^ 1074 <= 10 ^ 330) by (apply Z.leb_le; vm_compute; reflexivity).
    change (- -330) with 330.
    assert (Hp : 0 < 10 ^ 330) by (apply Z.pow_pos_nonneg; lia). nia. }
  unfold floor_log10.
  set (guess := (Z.log2 (Z.pos num) - Z.log2 (Z.pos den)) * 3 / 10).
  assert (Hguess : -330 <= guess <= 306).
  { assert (H1 : Z.log2 (Z.pos num) < 1024) by (apply Z.log2_lt_pow2; lia).
    assert (H2 : Z.log2 (Z.pos den) < 1075).
    { apply Z.log2_lt_pow2; [lia|].
      eapply Z.le_lt_trans; [exact Hden|]. apply Z.pow_lt_mono_r; lia. }
    pose proof (Z.log2_nonneg (Z.pos num)). pose proof (Z.log2_nonneg (Z.pos den)).
    unfold guess. split.
    - apply Z.div_le_lower_bound; lia.
    - apply Z.div_lt_upper_bound in H1 as _ || idtac.
      assert ((Z.log2 (Z.pos num) - Z.log2 (Z.pos den)) * 3 / 10 < 307); [|lia].
      apply Z.div_lt_upper_bound; lia. }
  destruct (log10_down_spec num den (-330) Hfloor 700 guess ltac:(lia) ltac:(lia))
    as [Hdown Hk0].
  set (k0 := log10_down 700 guess num den) in *.
  destruct (log10_up_spec num den 700 k0 Hdown) as (Hup & Hrange & Hfull).
  set (mag := log10_up 700 k0 num den) in *.
  split; [apply pow10_le_spec; exact Hup|].
  destruct (Qlt_le_dec (Z.pos num # den) (pow10 (mag + 1))) as [|Hge]; [assumption|].
  exfalso. apply pow10_le_spec in Hge. specialize (Hfull Hge).
  apply pow10_le_spec in Hge.
  assert (H370 : (pow10 370 <= pow10 (mag + 1))%Q) by (apply pow10_le_mono; lia).
  rewrite (pow10_Z 370) in H370 by lia.
  assert (Hx : (Z.pos num # den <= inject_Z (Z.pos num))%Q).
  { unfold Qle, inject_Z. simpl. nia. }
  assert (Hbig : (inject_Z (Z.pos num) < inject_Z (10 ^ 370))%Q).
  { rewrite <- Zlt_Qlt. eapply Z.lt_le_trans; [exact Hnum|].
    apply Z.leb_le. vm_compute. reflexivity. }
  lra.
Qed.

(** ** The candidates of [str(float)] *)

Lemma Zdiv_floor_half (a : Z) (b : positive) :
  (a # b == inject_Z (a / Z.pos b) + (a mod Z.pos b # b))%Q
  /\ (0 <= a mod Z.pos b # b)%Q /\ (a mod Z.pos b # b < 1)%Q
  /\ half_cmp (a mod Z.pos b # b) (1 # 2) (2 * (a mod Z.pos b) ?= Z.pos b).
Proof.
  pose proof (Z.div_mod a (Z.pos b) ltac:(lia)) as Hdiv.
  pose proof (Z.mod_pos_bound a (Z.pos b) ltac:(lia)) as Hr.
  set (r := a mod Z.pos b) in *.
  split; [apply Qmake_div_eucl; exact Hdiv|].
  split; [unfold Qle; simpl; lia|]. split; [unfold Qlt; simpl; lia|].
  destruct (Z.compare_spec (2 * r) (Z.pos b)); unfold half_cmp.
  - unfold Qeq. simpl. lia.
  - unfold Qlt. simpl. lia.
  - unfold Qlt. simpl. lia.
Qed.

(** [num / den / 10^k] as the one ratio [scaled_floor] divides. *)
Lemma scaled_ratio (k : Z) (num den : positive) :
  exists (a : Z) (b : positive),
    (if 0 <=? k then (Z.pos num, Z.pos den * 10 ^ k)
     else (Z.pos num * 10 ^ (- k), Z.pos den)) = (a, Z.pos b)
    /\ ((Z.pos num # den) * pow10 (- k) == a # b)%Q.
Proof.
  destruct (Z.leb_spec 0 k) as [Hk|Hk].
  - assert (Hp : 0 < 10 ^ k) by (apply Z.pow_pos_nonneg; lia).
    exists (Z.pos num), (den * Z.to_pos (10 ^ k))%positive. split.
    + rewrite Pos2Z.inj_mul, Z2Pos.id by assumption. reflexivity.
    + unfold pow10. rewrite Qpower_opp. change (10 # 1)%Q with (inject_Z 10).
      rewrite <- Zpower_Qpower by assumption.
      destruct (10 ^ k) as [|q|q] eqn:Hq; try lia.
      unfold Qeq, Qmult, Qinv, inject_Z. simpl. lia.
  - exists (Z.pos num * 10 ^ (- k)), den. split; [reflexivity|].
    rewrite pow10_Z by lia. unfold Qeq, Qmult, inject_Z. simpl. lia.
Qed.

Lemma candidates_spec (mag n : Z) (num den : positive) :
  let k := mag - (n - 1) in
  let t := ((Z.pos num # den) * pow10 (- k))%Q in
  exists lo c1 c2 : Z,
    candidates mag n num den = [(c1, k); (c2, k)]
    /\ (inject_Z lo <= t)%Q /\ (t < inject_Z lo + 1)%Q
    /\ ((c1 = lo /\ c2 = lo + 1) \/ (c1 = lo + 1 /\ c2 = lo))
    /\ (inject_Z c1 - (1 # 2) <= t)%Q /\ (t <= inject_Z c1 + (1 # 2))%Q.
Proof.
  intros k t. unfold candidates, scaled_floor. fold k.
  destruct (scaled_ratio k num den) as (a & b & Hab & Ht). fold t in Ht.
  rewrite Hab.
  destruct (Zdiv_floor_half a b) as (Hsplit & Hr0 & Hr1 & Hhalf).
  set (lo := a / Z.pos b) in *. set (r := a mod Z.pos b) in *.
  rewrite Hsplit in Ht.
  exists lo.
  assert (Hsucc : (inject_Z (lo + 1) == inject_Z lo + 1)%Q).
  { rewrite inject_Z_plus. reflexivity. }
  destruct (2 * r ?= Z.pos b); unfold half_cmp in Hhalf.
  - destruct (Z.even lo).
    + exists lo, (lo + 1). split; [reflexivity|]. repeat split; try lra. left. lia.
    + exists (lo + 1), lo. split; [reflexivity|]. repeat split; try lra. right. lia.
  - exists lo, (lo + 1). split; [reflexivity|]. repeat split; try lra. left. lia.
  - exists (lo + 1), lo. split; [reflexivity|]. repeat split; try lra. right. lia.
Qed.

(** ** Reading a decimal back *)

Lemma SFeqb_finite (f : spec_float) (m : positive) (e : Z) :
  SFeqb f (S754_finite false m e) = true <-> f = S754_finite false m e.
Proof.
  split.
  - destruct f as [s|s| |s m1 e1]; unfold SFeqb, SFcompare; try (destruct s; discriminate);
      try discriminate.
    destruct s; [discriminate|].
    destruct (Z.compare_spec e1 e) as [->|_|_]; try discriminate.
    change (Pos.compare_cont Eq m1 m) with (m1 ?= m)%positive.
    destruct (Pos.compare_spec m1 m) as [->|_|_]; try discriminate. reflexivity.
  - intros ->. unfold SFeqb, SFcompare. rewrite Z.compare_refl.
    change (Pos.compare_cont Eq m m) with (m ?= m)%positive.
    rewrite Pos.compare_refl. reflexivity.
Qed.

Lemma reads_back_Rounds (x : float) (m cp : positive) (e k : Z) :
  Prim2SF x = S754_finite false m e ->
  (reads_back x (Z.pos cp) k = true
   <-> Rounds false (Dec_abs_value (N.pos cp) k) (S754_finite false m e)).
Proof.
  intros Hx. unfold reads_back. rewrite FloatAxioms.eqb_spec, Hx, SFeqb_finite.
  pose proof (float_of_Decimal_Rounds false cp k) as HR.
  split.
  - intros <-. exact HR.
  - intros H. eapply Rounds_unique; eassumption.
Qed.

Lemma pow2_neg (k : positive) : (pow2 (Z.neg k) == 1 # (2 ^ k)%positive)%Q.
Proof.
  change (Z.neg k) with (- Z.pos k). rewrite pow2_opp, pow2_Z by lia.
  rewrite <- Pos2Z.inj_pow. reflexivity.
Qed.

Lemma float_ratio_spec (m : positive) (e : Z) :
  canonical64 (Z.pos m) e ->
  let '(num, den) := float_ratio m e in
  (Z.pos num # den == inject_Z (Z.pos m) * pow2 e)%Q
  /\ Z.pos num < 2 ^ 1024 /\ Z.pos den <= 2 ^ 1074.
Proof.
  intros (Hm & He & _). unfold float_ratio. destruct e as [|k|k].
  - split; [|split].
    + rewrite pow2_0. unfold Qeq, Qmult, inject_Z. simpl. lia.
    + simpl. rewrite Pos.mul_1_r.
      eapply Z.lt_trans; [apply Hm|]. apply Z.pow_lt_mono_r; lia.
    + apply Z.leb_le. vm_compute. reflexivity.
  - assert (Hp : 0 < 2 ^ Z.pos k) by (apply Z.pow_pos_nonneg; lia).
    split; [|split].
    + rewrite pow2_Z by lia. rewrite <- inject_Z_mult.
      rewrite Pos2Z.inj_mul, Z2Pos.id by assumption. reflexivity.
    + rewrite Pos2Z.inj_mul, Z2Pos.id by assumption.
      assert (H : 2 ^ Z.pos k <= 2 ^ 971) by (apply Z.pow_le_mono_r; lia).
      assert (H' : 2 ^ 53 * 2 ^ 971 = 2 ^ 1024) by reflexivity. nia.
    + apply Z.leb_le. vm_compute. reflexivity.
  - split; [|split].
    + rewrite pow2_neg. unfold Qeq, Qmult, inject_Z. simpl. lia.
    + eapply Z.lt_trans; [apply Hm|]. apply Z.pow_lt_mono_r; lia.
    + rewrite Pos2Z.inj_pow. apply Z.pow_le_mono_r; lia.
Qed.

(** The nearest decimal of seventeen digits reads back. *)
Lemma seventeen_digits_read_back (x : float) (m num den : positive) (e mag : Z) :
  Prim2SF x = S754_finite false m e ->
  canonical64 (Z.pos m) e ->
  (Z.pos num # den == inject_Z (Z.pos m) * pow2 e)%Q ->
  (pow10 mag <= Z.pos num # den)%Q ->
  exists c1 c2 : Z,
    candidates mag 17 num den = [(c1, mag - 16); (c2, mag - 16)]
    /\ reads_back x c1 (mag - 16) = true.
Proof.
  intros Hx Hcan Hxv Hmag.
  destruct (candidates_spec mag 17 num den) as (lo & c1 & c2 & Hc & _ & _ & _ & Hlo & Hhi).
  replace (mag - (17 - 1)) with (mag - 16) in * by lia.
  set (k := mag - 16) in *. set (t := ((Z.pos num # den) * pow10 (- k))%Q) in *.
  exists c1, c2. split; [exact Hc|].
  assert (Ht16 : (inject_Z (10 ^ 16) <= t)%Q).
  { rewrite <- (pow10_Z 16) by lia. unfold t.
    replace 16 with (mag + - k) by (unfold k; lia). rewrite pow10_add.
    apply Qmult_le_compat_r; [exact Hmag | apply Qlt_le_weak, pow10_gt_0]. }
  assert (Hc1 : 0 < c1).
  { assert (H : (inject_Z 0 < inject_Z c1)%Q).
    { change (inject_Z 0) with 0%Q.
      assert ((1 <= inject_Z (10 ^ 16))%Q) by discriminate. lra. }
    rewrite <- Zlt_Qlt in H. exact H. }
  destruct c1 as [|cp|cp]; try lia.
  apply (reads_back_Rounds x m cp e k Hx).
  destruct Hcan as (Hm & He & Hnorm).
  set (w := (pow10 k * pow2 (- e))%Q).
  assert (Hw : (0 < w)%Q).
  { apply Qmult_lt_0_compat; [apply pow10_gt_0 | apply pow2_pos]. }
  set (M := inject_Z (Z.pos m)) in *. set (C := inject_Z (Z.pos cp)) in *.
  assert (Hy : (scaled (Dec_abs_value (N.pos cp) k) e == C * w)%Q).
  { unfold scaled, w. rewrite Dec_abs_value_pow10. fold C.
    change (inject_Z (Z.of_N (N.pos cp))) with C. ring. }
  assert (Htw : (t * w == M)%Q).
  { unfold t, w. rewrite Hxv.
    transitivity (M * (pow2 e * pow2 (- e)) * (pow10 k * pow10 (- k)))%Q; [ring|].
    rewrite pow2_inv, pow10_inv. ring. }
  assert (H1 : ((C - (1 # 2)) * w <= t * w)%Q).
  { apply Qmult_le_compat_r; lra. }
  assert (H2 : (t * w <= (C + (1 # 2)) * w)%Q).
  { apply Qmult_le_compat_r; lra. }
  assert (H3 : (inject_Z (10 ^ 16) * w <= t * w)%Q).
  { apply Qmult_le_compat_r; lra. }
  assert (HM : (M < inject_Z (2 ^ 53))%Q) by (unfold M; rewrite <- Zlt_Qlt; lia).
  change (inject_Z (10 ^ 16)) with (10000000000000000 # 1)%Q in H3.
  change (inject_Z (2 ^ 53)) with (9007199254740992 # 1)%Q in HM.
  apply (Rounds_near false (Z.pos m) e).
  - repeat split; simpl; try lia.
  - simpl. fold M. rewrite Hy. lra.
  - simpl. fold M. rewrite Hy. lra.
  - simpl. fold M. intros Hm52 _. rewrite Hy.
    assert (HM52 : (M == 4503599627370496 # 1)%Q) by (unfold M; rewrite Hm52; reflexivity).
    lra.
Qed.

(** ** The search of [str(float)] ends *)

Lemma shortest_from_found (x : float) (m num den : positive) (e mag : Z) :
  Prim2SF x = S754_finite false m e ->
  canonical64 (Z.pos m) e ->
  (Z.pos num # den == inject_Z (Z.pos m) * pow2 e)%Q ->
  (pow10 mag <= Z.pos num # den)%Q ->
  forall (fuel : nat) (n : Z),
    1 <= n <= 17 -> 17 < n + Z.of_nat fuel ->
    exists (c n' : Z),
      shortest_from fuel mag n x num den = Some (c, mag - (n' - 1))
      /\ n <= n' <= 17
      /\ reads_back x c (mag - (n' - 1)) = true
      /\ (forall n0, n <= n0 < n' ->
            forall ck, In ck (candidates mag n0 num den) ->
                       reads_back x (fst ck) (snd ck) = false).
Proof.
  intros Hx Hcan Hxv Hmag.
  induction fuel as [|fuel IH]; intros n Hn Hfuel; [lia|].
  cbn [shortest_from].
  destruct (List.find (fun ck => reads_back x (fst ck) (snd ck))
              (candidates mag n num den)) as [[c k]|] eqn:Hfind.
  - apply find_some in Hfind. destruct Hfind as [Hin Hrb]. cbn [fst snd] in Hrb.
    assert (Hk : k = mag - (n - 1)).
    { destruct (candidates_spec mag n num den) as (lo & c1 & c2 & Hc & _).
      rewrite Hc in Hin. destruct Hin as [Heq|[Heq|[]]]; congruence. }
    subst k. exists c, n. split; [reflexivity|]. split; [lia|].
    split; [exact Hrb|]. intros n0 Hn0. lia.
  - pose proof (find_none _ _ Hfind) as Hnone.
    destruct (Z.eq_dec n 17) as [->|Hne].
    + exfalso.
      destruct (seventeen_digits_read_back x m num den e mag Hx Hcan Hxv Hmag)
        as (c1 & c2 & Hc & Hrb).
      specialize (Hnone (c1, mag - 16)). rewrite Hc in Hnone.
      cbn [fst snd] in Hnone. rewrite Hnone in Hrb; [discriminate | left; reflexivity].
    + destruct (IH (n + 1) ltac:(lia) ltac:(lia)) as (c & n' & Hs & Hn' & Hrb & Hmin).
      exists c, n'. split; [exact Hs|]. split; [lia|]. split; [exact Hrb|].
      intros n0 Hn0 ck Hin.
      destruct (Z.eq_dec n0 n) as [->|Hn0n]; [apply Hnone; exact Hin|].
      apply (Hmin n0); [lia | exact Hin].
Qed.

(** [str] of a finite float other than zero: a decimal that reads back as
    the float, of the fewest digits that do. *)
Lemma Decimal_of_str_float_finite (p : float) (s : bool) (m : positive) (e : Z) :
  Prim2SF p = S754_finite s m e ->
  let '(num, den) := float_ratio m e in
  let mag := floor_log10 num den in
  exists (c : positive) (n : Z),
    Decimal_of_str_float p = DecFinite s (N.pos c) (mag - (n - 1))
    /\ 1 <= n <= 17
    /\ Rounds false (Dec_abs_value (N.pos c) (mag - (n - 1))) (S754_finite false m e)
    /\ (forall n0, 1 <= n0 < n ->
          forall ck, In ck (candidates mag n0 num den) ->
                     reads_back (abs p) (fst ck) (snd ck) = false).
Proof.
  intros Hp.
  assert (Hcan : canonical64 (Z.pos m) e).
  { apply (valid_binary_canonical s). rewrite <- Hp. apply Prim2SF_valid. }
  assert (Habs : Prim2SF (abs p) = S754_finite false m e).
  { rewrite abs_spec, Hp. reflexivity. }
  pose proof (float_ratio_spec m e Hcan) as Hratio.
  unfold Decimal_of_str_float. rewrite Hp.
  change (match e with
          | Z.neg k => (m, (2 ^ k)%positive)
          | _ => ((m * Z.to_pos (2 ^ e))%positive, 1%positive)
          end) with (float_ratio m e).
  destruct (float_ratio m e) as [num den]. destruct Hratio as (Hxv & Hnum & Hden).
  destruct (floor_log10_spec num den Hnum Hden) as [Hmag _].
  destruct (shortest_from_found (abs p) m num den e (floor_log10 num den) Habs Hcan Hxv
              Hmag 17 1 ltac:(lia) ltac:(lia)) as (c & n & Hs & Hn & Hrb & Hmin).
  rewrite Hs.
  destruct c as [|cp|cp]; try discriminate Hrb.
  exists cp, n. split; [reflexivity|]. split; [exact Hn|]. split; [|exact Hmin].
  apply (reads_back_Rounds (abs p) m cp e _ Habs). exact Hrb.
Qed.

(** ** The quantizer on floats *)

(** The decimal [str] gives reads back as the float. *)
Lemma float_of_Decimal_reads_back (p : float) (m c : positive) (e k : Z) :
  Prim2SF p = S754_finite false m e ->
  Rounds false (Dec_abs_value (N.pos c) k) (S754_finite false m e) ->
  float_of_Decimal (DecFinite false (N.pos c) k) = p.
Proof.
  intros Hp HR. apply Prim2SF_inj. rewrite Hp.
  eapply Rounds_unique; [apply float_of_Decimal_Rounds | exact HR].
Qed.

Lemma quantize_cents_positive (c : positive) (k : Z) (q : Decimal) :
  quantize_cents (DecFinite false (N.pos c) k) = Some q ->
  q = DecFinite false (rescale_cents (N.pos c) k) (-2)
  /\ k + digits10 (N.pos c) + 2 <= 28.
Proof.
  cbn [quantize_cents]. change (N.pos c =? 0)%N with false. cbv iota.
  destruct (Z.ltb_spec context_prec (k + digits10 (N.pos c) - 1 - -2 + 1)) as [|Hprec];
    [discriminate|].
  intros [= <-]. split; [reflexivity|]. unfold context_prec in Hprec. lia.
Qed.

(** What the quantizer does to a float that is not negative: nothing to a
    zero, and a positive float is cut to the double nearest to the cents of
    the decimal that reads back as it. *)
Lemma quantize_price_nonneg (p r : float) :
  (0 <=? p)%float = true ->
  quantize_price p = Some r ->
  (exists s, Prim2SF p = S754_zero s /\ r = p)
  \/ (exists (m c : positive) (e k : Z),
        Prim2SF p = S754_finite false m e
        /\ Decimal_of_str_float p = DecFinite false (N.pos c) k
        /\ Rounds false (Dec_abs_value (N.pos c) k) (S754_finite false m e)
        /\ k + digits10 (N.pos c) + 2 <= 28
        /\ r = float_of_Decimal (DecFinite false (rescale_cents (N.pos c) k) (-2))).
Proof.
  rewrite leb_spec. change (Prim2SF 0) with (S754_zero false).
  intros Hsign Hq. unfold quantize_price in Hq.
  destruct (Prim2SF p) as [s|s| |s m e] eqn:Hp.
  - left. exists s. split; [reflexivity|].
    unfold Decimal_of_str_float in Hq. rewrite Hp in Hq. cbn in Hq.
    injection Hq as <-. apply Prim2SF_inj. rewrite Hp. destruct s; reflexivity.
  - unfold Decimal_of_str_float in Hq. rewrite Hp in Hq. discriminate Hq.
  - discriminate Hsign.
  - destruct s; [discriminate Hsign|]. right.
    pose proof (Decimal_of_str_float_finite p false m e Hp) as H.
    destruct (float_ratio m e) as [num den]. cbv zeta in H.
    destruct H as (c & n & Hd & _ & HR & _).
    rewrite Hd in Hq.
    destruct (quantize_cents _) as [q|] eqn:Hqc; [|discriminate].
    injection Hq as <-.
    destruct (quantize_cents_positive _ _ _ Hqc) as [-> Hprec].
    exists m, c, e, (floor_log10 num den - (n - 1)).
    split; [reflexivity|]. split; [exact Hd|]. split; [exact HR|].
    split; [exact Hprec | reflexivity].
Qed.

(** The quantized price of a price that is not negative is not above it. *)
Lemma quantize_price_le (p r : float) :
  (0 <=? p)%float = true ->
  quantize_price p = Some r ->
  (r <=? p)%float = true.
Proof.
  intros Hsign Hq.
  destruct (quantize_price_nonneg p r Hsign Hq)
    as [(s & Hp & ->)|(m & c & e & k & Hp & Hd & HR & _ & ->)].
  - rewrite leb_spec, Hp. reflexivity.
  - rewrite <- (float_of_Decimal_reads_back p m c e k Hp HR).
    apply float_of_Decimal_le. apply rescale_cents_le.
Qed.

(** ** Quantizing twice *)

(** When a number of whole cents reads back as a float, one of the two
    candidates at the cent position does. *)
Lemma cents_candidate_reads_back (x : float) (m num den cq : positive) (e mag n : Z) :
  Prim2SF x = S754_finite false m e ->
  canonical64 (Z.pos m) e ->
  (Z.pos num # den == inject_Z (Z.pos m) * pow2 e)%Q ->
  mag - (n - 1) = -2 ->
  Rounds false (Dec_abs_value (N.pos cq) (-2)) (S754_finite false m e) ->
  exists ck, In ck (candidates mag n num den)
             /\ reads_back x (fst ck) (snd ck) = true.
Proof.
  intros Hx Hcan Hxv Hk HRq.
  destruct (candidates_spec mag n num den) as (lo & c1 & c2 & Hc & Hlo & Hhi & Hcs & _).
  rewrite Hk in *. change (- -2) with 2 in *.
  set (rv := (Z.pos num # den)%Q) in *. set (t := (rv * pow10 2)%Q) in *.
  pose proof (Rounds_exact false (Z.pos m) e Hcan) as HRv.
  rewrite <- Hxv in HRv. fold rv in HRv. cbn [Z.to_pos] in HRv.
  assert (Hrv : (0 < rv)%Q) by reflexivity.
  assert (Hp : (0 < pow10 (-2))%Q) by apply pow10_gt_0.
  assert (Ht : (t * pow10 (-2) == rv)%Q).
  { unfold t. rewrite <- Qmult_assoc, (pow10_inv 2). ring. }
  assert (Hlo0 : 0 <= lo).
  { assert (H : (inject_Z 0 < inject_Z (lo + 1))%Q).
    { rewrite inject_Z_plus. change (inject_Z 0) with 0%Q. change (inject_Z 1) with 1%Q.
      assert ((0 < t)%Q); [|lra].
      unfold t. apply Qmult_lt_0_compat; [assumption | apply pow10_gt_0]. }
    rewrite <- Zlt_Qlt in H. lia. }
  assert (Hin : forall c, c = lo \/ c = lo + 1 -> In (c, -2) (candidates mag n num den)).
  { intros c Hc'. rewrite Hc. destruct Hcs as [[-> ->]|[-> ->]], Hc' as [->| ->];
      simpl; auto. }
  assert (Hread : forall cp : positive,
            (Z.pos cq <= Z.pos cp <= lo \/ lo + 1 <= Z.pos cp <= Z.pos cq) ->
            reads_back x (Z.pos cp) (-2) = true).
  { intros cp Hcp. apply (reads_back_Rounds x m cp e (-2) Hx).
    rewrite !Dec_abs_value_pow10 in *.
    change (Z.of_N (N.pos cp)) with (Z.pos cp).
    change (Z.of_N (N.pos cq)) with (Z.pos cq) in HRq.
    destruct Hcp as [[H1 H2]|[H1 H2]].
    - apply (Rounds_squeeze (inject_Z (Z.pos cq) * pow10 (-2)) rv); try assumption.
      + apply Qmult_le_compat_r; [rewrite <- Zle_Qle; assumption | lra].
      + rewrite <- Ht. apply Qmult_le_compat_r; [|lra].
        apply Qle_trans with (inject_Z lo); [rewrite <- Zle_Qle; assumption | assumption].
    - apply (Rounds_squeeze rv (inject_Z (Z.pos cq) * pow10 (-2))); try assumption.
      + rewrite <- Ht. apply Qmult_le_compat_r; [|lra].
        apply Qle_trans with (inject_Z (lo + 1)); [|rewrite <- Zle_Qle; assumption].
        rewrite inject_Z_plus. change (inject_Z 1) with 1%Q. lra.
      + apply Qmult_le_compat_r; [rewrite <- Zle_Qle; assumption | lra]. }
  destruct (Z_le_gt_dec (Z.pos cq) lo) as [Hle|Hgt].
  - exists (lo, -2). split; [apply Hin; left; reflexivity|]. cbn [fst snd].
    destruct lo as [|lp|lp]; try lia. apply Hread. left. lia.
  - exists (lo + 1, -2). split; [apply Hin; right; reflexivity|]. cbn [fst snd].
    destruct (lo + 1) as [|lp|lp] eqn:Hl1; try lia. apply Hread. right. lia.
Qed.

(** The double nearest to one cent, and its value. *)
Lemma one_cent_float :
  Prim2SF (float_of_Decimal (DecFinite false 1 (-2)))
  = S754_finite false 5764607523034235 (-59)
  /\ (pow10 (-2) <= inject_Z 5764607523034235 * pow2 (-59))%Q.
Proof. split; [vm_compute; reflexivity | unfold Qle; vm_compute; discriminate]. Qed.

Lemma pow10_lt_inv (a b : Z) : (pow10 a < pow10 b)%Q -> a < b.
Proof. intros H. eapply Qpower_lt_compat_l_inv; [exact H | reflexivity]. Qed.

(** The float of at least one cent is at least the float of one cent, and
    when it is finite its value is at least one cent. *)
Lemma float_of_cents_lower (cq : positive) (f : spec_float) :
  Rounds false (Dec_abs_value (N.pos cq) (-2)) f ->
  SFleb (S754_finite false 5764607523034235 (-59)) f = true.
Proof.
  intros HR. destruct one_cent_float as [Hcent _].
  pose proof (float_of_Decimal_Rounds false 1 (-2)) as HR1. rewrite Hcent in HR1.
  apply (Rounds_le _ _ _ _ HR1 HR).
  rewrite !Dec_abs_value_pow10. apply Qmult_le_compat_r.
  - rewrite <- Zle_Qle. simpl. lia.
  - apply Qlt_le_weak, pow10_gt_0.
Qed.

Lemma float_of_cents_value (cq m : positive) (e : Z) :
  canonical64 (Z.pos m) e ->
  Rounds false (Dec_abs_value (N.pos cq) (-2)) (S754_finite false m e) ->
  (pow10 (-2) <= inject_Z (Z.pos m) * pow2 e)%Q.
Proof.
  intros Hcan HR.
  destruct (Qlt_le_dec (inject_Z (Z.pos m) * pow2 e) (pow10 (-2))) as [Hlt|]; [|assumption].
  exfalso. destruct one_cent_float as [Hcent Hval].
  pose proof (float_of_Decimal_Rounds false 1 (-2)) as HR1. rewrite Hcent in HR1.
  pose proof (Rounds_exact false (Z.pos m) e Hcan) as HRv. cbn [Z.to_pos] in HRv.
  assert (Heq : S754_finite false m e = S754_finite false 5764607523034235 (-59)).
  { apply SFleb_antisym; try reflexivity.
    - apply (Rounds_le _ _ _ _ HRv HR1). rewrite Dec_abs_value_pow10.
      change (inject_Z (Z.of_N 1)) with 1%Q. lra.
    - apply (float_of_cents_lower cq). exact HR. }
  injection Heq as -> ->. lra.
Qed.

Lemma rescale_cents_exact (c : N) (k : Z) :
  -2 <= k -> (Dec_abs_value (rescale_cents c k) (-2) == Dec_abs_value c k)%Q.
Proof.
  intros Hk. unfold Dec_abs_value. rewrite rescale_cents_coeff_up by assumption.
  rewrite inject_Z_mult, Zpower_Qpower by lia.
  change (inject_Z 10) with (10 # 1)%Q.
  rewrite <- Qmult_assoc, <- Qpower_plus by discriminate.
  replace (k + 2 + -2) with k by lia. reflexivity.
Qed.

Lemma Dec_abs_value_digits (c : positive) (k : Z) :
  (pow10 (digits10 (N.pos c) - 1 + k) <= Dec_abs_value (N.pos c) k)%Q
  /\ (Dec_abs_value (N.pos c) k < pow10 (digits10 (N.pos c) + k))%Q.
Proof.
  destruct (digits10_spec (N.pos c) ltac:(lia)) as [[Hlo Hhi] Hd].
  rewrite Dec_abs_value_pow10, !pow10_add.
  rewrite (pow10_Z (digits10 (N.pos c) - 1)), (pow10_Z (digits10 (N.pos c))) by lia.
  pose proof (pow10_gt_0 k). split.
  - apply Qmult_le_compat_r; [rewrite <- Zle_Qle; assumption | lra].
  - apply Qmult_lt_compat_r; [assumption | rewrite <- Zlt_Qlt; assumption].
Qed.

(** Quantizing a quantized price changes nothing. *)
Lemma quantize_price_idempotent (p r : float) :
  (0 <=? p)%float = true ->
  quantize_price p = Some r ->
  quantize_price r = Some r.
Proof.
  intros Hsign Hq.
  destruct (quantize_price_nonneg p r Hsign Hq)
    as [(s & Hp & ->)|(m & c & e & k & Hp & Hd & HR & Hprec & Hr)].
  - rewrite <- (SF2Prim_Prim2SF p), Hp. destruct s; vm_compute; reflexivity.
  - destruct (rescale_cents (N.pos c) k) as [|cq] eqn:Hcq.
    + subst r. vm_compute. reflexivity.
    + assert (Hxq : (Dec_abs_value (N.pos cq) (-2) <= Dec_abs_value (N.pos c) k)%Q).
      { rewrite <- Hcq. apply rescale_cents_le. }
      pose proof (float_of_Decimal_Rounds false cq (-2)) as HRq. rewrite <- Hr in HRq.
      pose proof (float_of_cents_lower cq _ HRq) as Hlow.
      pose proof (Rounds_le _ _ _ _ HRq HR Hxq) as Hrp.
      pose proof (Rounds_nonneg _ _ HRq) as Hnn.
      pose proof (Prim2SF_valid r) as Hvalid.
      destruct (Prim2SF r) as [sr|sr| |sr mr er] eqn:Hpr; cbn [SFnonneg] in Hnn;
        try contradiction; subst sr; try discriminate.
      destruct (SFleb (S754_finite false m e) (S754_finite false mr er)) eqn:Hpr'.
      * assert (Hrp' : r = p).
        { apply Prim2SF_inj. rewrite Hpr, Hp.
          apply SFleb_antisym; try reflexivity; assumption. }
        rewrite Hrp'. rewrite <- Hrp' at 2. exact Hq.
      * pose proof (valid_binary_canonical false mr er Hvalid) as Hcan.
        assert (Habs : Prim2SF (abs r) = S754_finite false mr er).
        { rewrite abs_spec, Hpr. reflexivity. }
        pose proof (Decimal_of_str_float_finite r false mr er Hpr) as H2.
        pose proof (float_ratio_spec mr er Hcan) as Hratio.
        destruct (float_ratio mr er) as [num den]. cbv zeta in H2.
        destruct Hratio as (Hxv & Hnum & Hden).
        destruct (floor_log10_spec num den Hnum Hden) as [Hmaglo Hmaghi].
        set (mag := floor_log10 num den) in *.
        destruct H2 as (c2 & n2 & Hd2 & Hn2 & HR2 & Hmin).
        pose proof (float_of_cents_value cq mr er Hcan HRq) as Hcent.
        rewrite <- Hxv in Hcent.
        assert (Hmag2 : -2 <= mag).
        { assert (H : (pow10 (-2) < pow10 (mag + 1))%Q) by lra.
          apply pow10_lt_inv in H. lia. }
        assert (HA : -2 <= mag - (n2 - 1)).
        { destruct (Z_le_gt_dec n2 (mag + 3)) as [|Hgt]; [lia|]. exfalso.
          destruct (cents_candidate_reads_back (abs r) mr num den cq er mag (mag + 3)
                      Habs Hcan Hxv ltac:(lia) HRq) as (ck & Hin & Hrb).
          rewrite (Hmin (mag + 3) ltac:(lia) ck Hin) in Hrb. discriminate Hrb. }
        set (k2 := mag - (n2 - 1)) in *.
        assert (Hlt : (Dec_abs_value (N.pos c2) k2 < Dec_abs_value (N.pos c) k)%Q).
        { destruct (Qlt_le_dec (Dec_abs_value (N.pos c2) k2) (Dec_abs_value (N.pos c) k))
            as [|Hge]; [assumption|].
          exfalso. pose proof (Rounds_le _ _ _ _ HR HR2 Hge) as Hcontra.
          rewrite Hcontra in Hpr'. discriminate Hpr'. }
        assert (Hdig : k2 + digits10 (N.pos c2) + 2 <= 28).
        { destruct (Dec_abs_value_digits c2 k2) as [Hlo2 _].
          destruct (Dec_abs_value_digits c k) as [_ Hhi1].
          assert (H26 : (pow10 (digits10 (N.pos c) + k) <= pow10 26)%Q)
            by (apply pow10_le_mono; lia).
          assert (H : (pow10 (digits10 (N.pos c2) - 1 + k2) < pow10 26)%Q) by lra.
          apply pow10_lt_inv in H. lia. }
        unfold quantize_price. rewrite Hd2. cbn [quantize_cents].
        change (N.pos c2 =? 0)%N with false. cbv iota.
        destruct (Z.ltb_spec context_prec (k2 + digits10 (N.pos c2) - 1 - -2 + 1))
          as [Hbad|_]; [unfold context_prec in Hbad; lia|].
        f_equal. apply Prim2SF_inj. rewrite Hpr.
        pose proof (rescale_cents_exact (N.pos c2) k2 HA) as Hval.
        destruct (rescale_cents (N.pos c2) k2) as [|cq2] eqn:Hcq2.
        -- exfalso. rewrite Dec_abs_value_0 in Hval.
           pose proof (Dec_abs_value_pos c2 k2). lra.
        -- eapply Rounds_unique; [apply float_of_Decimal_Rounds|].
           rewrite Hval. exact HR2.
Qed.

(** ** The quantizer and the sign *)

Lemma round_ratio_opp (s : bool) (num den : positive) :
  round_ratio (negb s) num den = (- round_ratio s num den)%float.
Proof.
  apply Prim2SF_inj. rewrite opp_spec.
  eapply Rounds_unique; [apply round_ratio_Rounds|].
  apply Rounds_opp, round_ratio_Rounds.
Qed.

Lemma float_of_Decimal_opp (d : Decimal) :
  float_of_Decimal (Dec_opp d) = (- float_of_Decimal d)%float.
Proof.
  destruct d as [s c e|s|]; cbn [Dec_opp float_of_Decimal].
  - destruct c as [|p]; [destruct s; reflexivity|].
    destruct e; apply round_ratio_opp.
  - destruct s; reflexivity.
  - reflexivity.
Qed.

Lemma abs_opp (p : float) : abs (- p) = abs p.
Proof.
  apply Prim2SF_inj. rewrite !abs_spec, opp_spec.
  destruct (Prim2SF p); reflexivity.
Qed.

Lemma opp_involutive (p : float) : (- - p)%float = p.
Proof. apply Prim2SF_inj. rewrite !opp_spec. apply SFopp_involutive. Qed.

Lemma Decimal_of_str_float_opp (p : float) :
  Decimal_of_str_float (- p) = Dec_opp (Decimal_of_str_float p).
Proof.
  unfold Decimal_of_str_float. rewrite opp_spec, abs_opp.
  destruct (Prim2SF p) as [s|s| |s m e]; cbn [SFopp Dec_opp]; try reflexivity.
  destruct (match e with
            | Z.neg k => (m, (2 ^ k)%positive)
            | _ => ((m * Z.to_pos (2 ^ e))%positive, 1%positive)
            end) as [num den].
  destruct (shortest_from _ _ _ _ _ _) as [[c k]|]; reflexivity.
Qed.

Lemma quantize_cents_opp (d : Decimal) :
  quantize_cents (Dec_opp d) = option_map Dec_opp (quantize_cents d).
Proof.
  destruct d as [s c e|s|]; cbn [Dec_opp quantize_cents]; try reflexivity.
  destruct (c =? 0)%N; [reflexivity|]. destruct (_ <? _); reflexivity.
Qed.

Lemma quantize_price_opp (p : float) :
  quantize_price (- p) = option_map PrimFloat.opp (quantize_price p).
Proof.
  unfold quantize_price. rewrite Decimal_of_str_float_opp, quantize_cents_opp.
  destruct (quantize_cents (Decimal_of_str_float p)) as [q|]; cbn [option_map];
    [|reflexivity].
  rewrite float_of_Decimal_opp. reflexivity.
Qed.

Lemma leb_opp (a b : float) : (- b <=? - a)%float = (a <=? b)%float.
Proof. rewrite !leb_spec, !opp_spec. apply SFleb_opp. Qed.

Lemma quantize_price_nonneg_result (p r : float) :
  (0 <=? p)%float = true -> quantize_price p = Some r -> (0 <=? r)%float = true.
Proof.
  intros Hsign Hq.
  destruct (quantize_price_nonneg p r Hsign Hq)
    as [(s & Hp & ->)|(m & c & e & k & _ & _ & _ & _ & ->)]; [exact Hsign|].
  change 0%float with (float_of_Decimal (DecFinite false 0 0)).
  apply float_of_Decimal_le. rewrite Dec_abs_value_0.
  destruct (rescale_cents (N.pos c) k) as [|cq].
  - rewrite Dec_abs_value_0. apply Qle_refl.
  - apply Qlt_le_weak, Dec_abs_value_pos.
Qed.

(** A float that is not a NaN is at least zero or at most zero. *)
Lemma float_sign_cases (p : float) :
  is_nan p = false -> (0 <=? p)%float = true \/ (p <=? 0)%float = true.
Proof.
  intros Hnan. rewrite !leb_spec. change (Prim2SF 0) with (S754_zero false).
  assert (Hp : Prim2SF p <> S754_nan).
  { intros H. assert (Hp' : p = nan).
    { apply Prim2SF_inj. rewrite H. reflexivity. }
    rewrite Hp' in Hnan. discriminate Hnan. }
  destruct (Prim2SF p) as [s|s| |s m e].
  - left. reflexivity.
  - destruct s; [right | left]; reflexivity.
  - contradiction.
  - destruct s; [right | left]; reflexivity.
Qed.

Lemma is_nan_quantize_price (p : float) :
  is_nan p = true -> p = nan /\ quantize_price p = Some nan.
Proof.
  intros Hnan. assert (Hp : p = nan).
  { apply Prim2SF_inj. unfold Prim2SF at 1. rewrite Hnan. reflexivity. }
  split; [exact Hp|]. rewrite Hp. vm_compute. reflexivity.
Qed.

Lemma leb_neg_zero (x : float) : (- 0 <=? x)%float = (0 <=? x)%float.
Proof.
  rewrite !leb_spec. change (Prim2SF (- 0)) with (S754_zero true).
  change (Prim2SF 0) with (S754_zero false). destruct (Prim2SF x); reflexivity.
Qed.

Lemma leb_zero_neg (x : float) : (x <=? - 0)%float = (x <=? 0)%float.
Proof.
  rewrite !leb_spec. change (Prim2SF (- 0)) with (S754_zero true).
  change (Prim2SF 0) with (S754_zero false). destruct (Prim2SF x); reflexivity.
Qed.

(** The quantizer on a price that is not negative. *)
Lemma quantize_price_down (p r : float) :
  (0 <=? p)%float = true ->
  quantize_price p = Some r ->
  quantize_price r = Some r
  /\ (exists (s : bool) (c : N), r = float_of_Decimal (DecFinite s c (-2)))
  /\ (r <=? p)%float = true
  /\ (0 <=? r)%float = true.
Proof.
  intros Hsign Hq.
  split; [exact (quantize_price_idempotent p r Hsign Hq)|].
  split; [|split; [exact (quantize_price_le p r Hsign Hq)
                  | exact (quantize_price_nonneg_result p r Hsign Hq)]].
  destruct (quantize_price_nonneg p r Hsign Hq)
    as [(s & Hp & ->)|(m & c & e & k & _ & _ & _ & _ & ->)].
  - exists s, 0%N. apply Prim2SF_inj. rewrite Hp. destruct s; reflexivity.
  - eexists false, _. reflexivity.
Qed.

(** The quantizer on a price that is not positive: the mirror image. *)
Lemma quantize_price_up (p r : float) :
  (p <=? 0)%float = true ->
  quantize_price p = Some r ->
  quantize_price r = Some r
  /\ (exists (s : bool) (c : N), r = float_of_Decimal (DecFinite s c (-2)))
  /\ (p <=? r)%float = true
  /\ (r <=? 0)%float = true.
Proof.
  intros Hsign Hq.
  assert (Hsign' : (0 <=? - p)%float = true).
  { rewrite <- leb_neg_zero, leb_opp. exact Hsign. }
  assert (Hq' : quantize_price (- p) = Some (- r)%float).
  { rewrite quantize_price_opp, Hq. reflexivity. }
  destruct (quantize_price_down _ _ Hsign' Hq') as (Hidem & (s & c & Hmult) & Hle & Hpos).
  split; [|split; [|split]].
  - rewrite <- (opp_involutive r), quantize_price_opp, Hidem. reflexivity.
  - exists (negb s), c. rewrite <- (opp_involutive r), Hmult.
    symmetry. apply (float_of_Decimal_opp (DecFinite s c (-2))).
  - rewrite <- leb_opp. exact Hle.
  - rewrite <- leb_opp, leb_neg_zero. exact Hpos.
Qed.

(** C5 (amended).  The quantizer takes no tick: the tick is 0.01.  For
    every price [p] it accepts, the result [r] is again left as it is by
    the quantizer.  When [p] is a number, [r] is the double nearest to a
    whole number of cents, [float] of a decimal with two places.  A price
    that is not negative is never raised: [r <= p], and [r] is not
    negative.  A price that is not positive is cut toward zero, so it is
    never lowered: [p <= r], and [r] is not positive. *)
Theorem quantize_price_truncates (p r : float) :
  quantize_price p = Some r ->
  quantize_price r = Some r
  /\ (is_nan p = false ->
      exists (s : bool) (c : N), r = float_of_Decimal (DecFinite s c (-2)))
  /\ ((0 <=? p)%float = true -> (r <=? p)%float = true /\ (0 <=? r)%float = true)
  /\ ((p <=? 0)%float = true -> (p <=? r)%float = true /\ (r <=? 0)%float = true).
Proof.
  intros Hq.
  assert (Hdown := quantize_price_down p r). assert (Hup := quantize_price_up p r).
  split; [|split; [|split]].
  - destruct (is_nan p) eqn:Hnan.
    + destruct (is_nan_quantize_price p Hnan) as [-> Hq'].
      rewrite Hq' in Hq. injection Hq as <-. exact Hq'.
    + destruct (float_sign_cases p Hnan) as [H|H]; [apply Hdown | apply Hup]; assumption.
  - intros Hnan.
    destruct (float_sign_cases p Hnan) as [H|H]; [apply Hdown | apply Hup]; assumption.
  - intros H. destruct (Hdown H Hq) as (_ & _ & H1 & H2). split; assumption.
  - intros H. destruct (Hup H Hq) as (_ & _ & H1 & H2). split; assumption.
Qed.

Lemma quantize_price_truncates_witness :
  quantize_price 123456.789%float = Some 123456.78%float
  /\ quantize_price 123456.78%float = Some 123456.78%float
  /\ (123456.78 <=? 123456.789)%float = true.
Proof.
  assert (H : quantize_price 123456.789%float = Some 123456.78%float)
    by (vm_compute; reflexivity).
  split; [exact H|].
  destruct (quantize_price_truncates _ _ H) as (Hidem & _ & Hdown & _).
  split; [exact Hidem|]. apply Hdown. vm_compute. reflexivity.
Defined.

End FloatQuantizer.

(** C5, as the claim states it, fails for a negative price: the fifth
    level of a BUY grid from 100 spaced by 30 percent is priced at
    -19.999999999999996 and quantized to -19.99, which lies above it. *)
Lemma quantize_price_negative_rounds_up :
  exists raw q : float,
    grid_raw_price BUY 100 30 4 = inr raw
    /\ PyNum.quantize_price raw = Some q
    /\ (q <=? raw)%float = false
    /\ (raw <? q)%float = true.
Proof.
  exists (-19.999999999999996)%float, (-19.99)%float.
  repeat split; vm_compute; reflexivity.
Qed.

(* ===================================================================== *)
(** * Single orders and OCO *)
(* ===================================================================== *)

Section SingleOrders.

Variable exchange : nat -> OrderRequest -> Exn + Order.
Variable datetime_now : nat -> string.

(** What a single-order method does with its request: one call, and
    the answer of the exchange decides the rest. *)
Lemma single_order_run (r : OrderRequest) (kind : string) (stop : option float)
    (w : World) :
  try_except
    (bind (futures_create_order exchange r)
       (fun order =>
          bind (record_order datetime_now order kind stop None None)
            (fun _ => ret (Some order))))
    None w
  = match exchange (n_submitted w) r with
    | inl _ => (with_event w (Submit r), None)
    | inr order =>
        ({| orders := <[orderId order := order]> (orders w);
            order_history :=
              order_history w ++
                [{| h_order := order;
                    timestamp := datetime_now (S (n_submitted w));
                    order_type := kind;
                    stop_price := stop;
                    grid_level := None;
                    slice_number := None |}];
            trace := trace w ++ [Submit r] |},
         Some order)
    end.
Proof.
  unfold try_except, bind, futures_create_order, record_order, ret.
  destruct (exchange (n_submitted w) r) as [e|order]; [reflexivity|].
  rewrite n_submitted_with_Submit. reflexivity.
Qed.

Lemma single_order_trace (r : OrderRequest) (kind : string) (stop : option float)
    (w : World) :
  trace (fst (try_except
                (bind (futures_create_order exchange r)
                   (fun order =>
                      bind (record_order datetime_now order kind stop None None)
                        (fun _ => ret (Some order))))
                None w))
  = trace w ++ [Submit r].
Proof.
  rewrite single_order_run.
  destruct (exchange (n_submitted w) r); reflexivity.
Qed.

Lemma single_order_result (r : OrderRequest) (kind : string) (stop : option float)
    (w : World) :
  snd (try_except
         (bind (futures_create_order exchange r)
            (fun order =>
               bind (record_order datetime_now order kind stop None None)
                 (fun _ => ret (Some order))))
         None w)
  = match exchange (n_submitted w) r with
    | inl _ => None
    | inr order => Some order
    end.
Proof.
  rewrite single_order_run.
  destruct (exchange (n_submitted w) r); reflexivity.
Qed.

(** C4 (amended).  No order-placing method checks its parameters: for
    every quantity, price and stop price, whatever their sign,
    [place_market_order], [place_limit_order] and [place_stop_limit_order]
    make exactly one call to the exchange client, with the values as
    they were given, and return the order the exchange answers with, or
    [None] when the exchange raises; only the exchange can refuse. *)
Theorem single_orders_reach_exchange (symbol : string) (side : OrderSide)
    (quantity price stop_price : float) (time_in_force : string) (w : World) :
  trace (fst (place_market_order exchange datetime_now symbol side quantity w))
  = trace w ++ [Submit (market_request symbol side quantity)]
  /\ trace (fst (place_limit_order exchange datetime_now symbol side quantity
                   price time_in_force w))
     = trace w ++ [Submit (limit_request symbol side quantity price time_in_force)]
  /\ trace (fst (place_stop_limit_order exchange datetime_now symbol side quantity
                   price stop_price time_in_force w))
     = trace w ++ [Submit (stop_limit_request symbol side quantity price
                             stop_price time_in_force)]
  /\ snd (place_market_order exchange datetime_now symbol side quantity w)
     = match exchange (n_submitted w) (market_request symbol side quantity) with
       | inl _ => None
       | inr order => Some order
       end
  /\ snd (place_limit_order exchange datetime_now symbol side quantity price
            time_in_force w)
     = match exchange (n_submitted w)
               (limit_request symbol side quantity price time_in_force) with
       | inl _ => None
       | inr order => Some order
       end
  /\ snd (place_stop_limit_order exchange datetime_now symbol side quantity price
            stop_price time_in_force w)
     = match exchange (n_submitted w)
               (stop_limit_request symbol side quantity price stop_price
                  time_in_force) with
       | inl _ => None
       | inr order => Some order
       end
  /\ rq_quantity (limit_request symbol side quantity price time_in_force) = quantity
  /\ rq_price (limit_request symbol side quantity price time_in_force) = Some price
  /\ rq_stopPrice (stop_limit_request symbol side quantity price stop_price
                     time_in_force) = Some stop_price.
Proof.
  unfold place_market_order, place_limit_order, place_stop_limit_order.
  rewrite !single_order_trace, !single_order_result. repeat split.
Qed.

(** C9.  An OCO placement makes one call to the exchange; the request
    carries [stop_price] as its stop-limit price when none is given, and
    the given one otherwise. *)
Theorem oco_stop_limit_defaults_to_stop (symbol : string) (side : OrderSide)
    (quantity price stop_price : float) (w : World) :
  trace (fst (place_oco_order exchange datetime_now symbol side quantity price
                stop_price None w))
  = trace w ++ [Submit (oco_request symbol side quantity price stop_price stop_price)]
  /\ rq_stopLimitPrice (oco_request symbol side quantity price stop_price stop_price)
     = Some stop_price
  /\ forall stop_limit_price : float,
       trace (fst (place_oco_order exchange datetime_now symbol side quantity price
                     stop_price (Some stop_limit_price) w))
       = trace w ++ [Submit (oco_request symbol side quantity price stop_price
                               stop_limit_price)]
       /\ rq_stopLimitPrice (oco_request symbol side quantity price stop_price
                               stop_limit_price)
          = Some stop_limit_price.
Proof.
  unfold place_oco_order. rewrite single_order_trace.
  repeat split. apply single_order_trace.
Qed.

End SingleOrders.

(** C4, as the claim states it, fails: a limit order for the quantity -1
    at the price 0 is sent to the exchange, and the method returns what
    the exchange answered. *)
Lemma invalid_limit_order_is_submitted :
  let '(w', result) :=
    place_limit_order (scripted_exchange None) fixed_clock "BTC" BUY (-1) 0 "GTC"
      empty_world in
  submissions (trace w') = [limit_request "BTC" BUY (-1) 0 "GTC"]
  /\ (rq_quantity (limit_request "BTC" BUY (-1) 0 "GTC") <=? 0)%float = true
  /\ exists order, result = Some order /\ orderId order = 1000.
Proof.
  vm_compute. repeat split. eexists. split; reflexivity.
Qed.

(* ===================================================================== *)
(** * Grid and TWAP under failure and in full *)
(* ===================================================================== *)

Section Strategies.

Variable exchange : nat -> OrderRequest -> Exn + Order.
Variable datetime_now : nat -> string.
Variable sleep_error : float -> option Exn.

(** [time.sleep] refuses the interval: the first slice is placed and
    recorded, and the run ends there with [[]]. *)
Lemma twap_run_sleep_raises (symbol : string) (side : OrderSide)
    (total_quantity time_interval qty_per_slice : float) (num_slices : Z)
    (w : World) (o : Order) (e : Exn) :
  float_div_int total_quantity num_slices = inr qty_per_slice ->
  (2 <= num_slices)%Z ->
  sleep_error time_interval = Some e ->
  exchange (n_submitted w) (market_request symbol side qty_per_slice) = inr o ->
  place_twap_order exchange datetime_now sleep_error symbol side total_quantity
    num_slices time_interval w
  = ({| orders := <[orderId o := o]> (orders w);
        order_history :=
          order_history w ++
            [twap_entry datetime_now (n_submitted w) (fun _ => o) 0];
        trace := trace w ++ [Submit (market_request symbol side qty_per_slice)] |},
     []).
Proof.
  intros Hqty Hn Hsleep Hex.
  unfold place_twap_order, try_except, bind, lift. rewrite Hqty.
  unfold py_range. destruct (Z.to_nat num_slices) as [|m] eqn:Hm; [lia|].
  cbn [seq List.map for_each].
  unfold bind, twap_body, bind, futures_create_order, record_order.
  rewrite Hex, n_submitted_with_Submit.
  destruct (Z.ltb_spec (Z.of_nat 0) (num_slices - 1)); [|lia].
  unfold time_sleep. rewrite Hsleep. unfold twap_entry. simpl.
  rewrite Nat.add_1_r. reflexivity.
Qed.

(** C1 (amended).  In a Grid run, when the exchange raises on level [i]
    (counted from 0) after taking the levels before it, the run is
    aborted: the request of level [i] is the last one made, so no level
    after [i] is attempted; the method returns the empty list; the history
    has gained exactly the [i] entries of the levels before [i]. *)
Theorem grid_refusal_aborts_run (symbol : string) (side : OrderSide)
    (quantity base_price grid_percentage qty_per_level : float) (grid_levels : Z)
    (w : World) (rs : nat -> OrderRequest) (os : nat -> Order) (i : nat) (e : Exn) :
  float_div_int quantity grid_levels = inr qty_per_level ->
  (i < Z.to_nat grid_levels)%nat ->
  (forall j, (j < i)%nat ->
     grid_accepted exchange symbol side qty_per_level base_price grid_percentage
       w rs os j) ->
  grid_level_request symbol side qty_per_level base_price grid_percentage i
    = inr (rs i) ->
  exchange (n_submitted w + i)%nat (rs i) = inl e ->
  let '(w', result) :=
    place_grid_order exchange datetime_now symbol side quantity base_price
      grid_levels grid_percentage w in
  result = []
  /\ submissions (trace w') = submissions (trace w) ++ List.map rs (seq 0 (S i))
  /\ order_history w'
     = order_history w ++ List.map (grid_entry datetime_now (n_submitted w) os) (seq 0 i)
  /\ length (order_history w') = (length (order_history w) + i)%nat.
Proof.
  intros Hqty Hi Hacc Hplan Hex.
  rewrite (grid_run_refused exchange datetime_now symbol side quantity base_price
             grid_percentage qty_per_level grid_levels w rs os Hqty i e Hi Hacc
             Hplan Hex).
  cbn [with_event grid_world trace order_history].
  split; [reflexivity|]. split; [|split; [reflexivity|]].
  - rewrite seq_S, List.map_app, <- app_assoc, !submissions_app.
    rewrite submissions_map_Submit. reflexivity.
  - rewrite length_app, length_map, length_seq. reflexivity.
Qed.

(** C2 (amended).  In a TWAP run, when the exchange raises on slice
    [i + 1] after taking the [i] slices before it, execution stops at
    once: the refused request is the last event, so no later slice is
    attempted; the [i] earlier slices stay in the history; and the method
    returns the empty list, not the orders placed so far. *)
Theorem twap_refusal_stops_run (symbol : string) (side : OrderSide)
    (total_quantity time_interval qty_per_slice : float) (num_slices : Z)
    (w : World) (os : nat -> Order) (i : nat) (e : Exn) :
  float_div_int total_quantity num_slices = inr qty_per_slice ->
  (i < Z.to_nat num_slices)%nat ->
  sleep_error time_interval = None ->
  (forall j, (j < i)%nat ->
     twap_accepted exchange (market_request symbol side qty_per_slice) w os j) ->
  exchange (n_submitted w + i)%nat (market_request symbol side qty_per_slice)
    = inl e ->
  let '(w', result) :=
    place_twap_order exchange datetime_now sleep_error symbol side total_quantity
      num_slices time_interval w in
  result = []
  /\ trace w'
     = trace w
       ++ concat (repeat [Submit (market_request symbol side qty_per_slice);
                          Sleep time_interval] i)
       ++ [Submit (market_request symbol side qty_per_slice)]
  /\ order_history w'
     = order_history w ++ List.map (twap_entry datetime_now (n_submitted w) os) (seq 0 i)
  /\ length (order_history w') = (length (order_history w) + i)%nat.
Proof.
  intros Hqty Hi Hsleep Hacc Hex.
  rewrite (twap_run_refused exchange datetime_now sleep_error symbol side
             total_quantity time_interval qty_per_slice num_slices w os Hqty i e
             Hi Hsleep Hacc Hex).
  cbn [with_event twap_world trace order_history].
  split; [reflexivity|]. split; [|split; [reflexivity|]].
  - rewrite twap_events_before_last by assumption.
    rewrite <- app_assoc. reflexivity.
  - rewrite length_app, length_map, length_seq. reflexivity.
Qed.

(** C10.  When a Grid or TWAP run raises part-way, at level or slice
    [i] counted from 0 (the exchange raises, a grid price cannot be
    computed, or the sleep after the first slice is refused), the method
    returns the empty list while [order_history] and [orders] keep what
    was recorded for every submission that succeeded before: the result
    and the ledger differ, and nothing is rolled back. *)
Theorem failed_run_keeps_ledger (symbol : string) (side : OrderSide) (w : World)
    (os : nat -> Order) (i : nat) (e : Exn) :
  (forall (quantity base_price grid_percentage qty_per_level : float)
          (grid_levels : Z) (rs : nat -> OrderRequest),
      float_div_int quantity grid_levels = inr qty_per_level ->
      (i < Z.to_nat grid_levels)%nat ->
      (forall j, (j < i)%nat ->
         grid_accepted exchange symbol side qty_per_level base_price
           grid_percentage w rs os j) ->
      grid_level_request symbol side qty_per_level base_price grid_percentage i
        = inl e
      \/ (grid_level_request symbol side qty_per_level base_price grid_percentage i
            = inr (rs i)
          /\ exchange (n_submitted w + i)%nat (rs i) = inl e) ->
      let '(w', result) :=
        place_grid_order exchange datetime_now symbol side quantity base_price
          grid_levels grid_percentage w in
      result = []
      /\ order_history w'
         = order_history w
           ++ List.map (grid_entry datetime_now (n_submitted w) os) (seq 0 i)
      /\ orders w' = insert_all (List.map os (seq 0 i)) (orders w)
      /\ forall j, (j < i)%nat ->
           exists o, orders w' !! orderId (os j) = Some o
                     /\ orderId o = orderId (os j))
  /\ (forall (total_quantity time_interval qty_per_slice : float) (num_slices : Z),
        float_div_int total_quantity num_slices = inr qty_per_slice ->
        (i < Z.to_nat num_slices)%nat ->
        sleep_error time_interval = None ->
        (forall j, (j < i)%nat ->
           twap_accepted exchange (market_request symbol side qty_per_slice) w os j) ->
        exchange (n_submitted w + i)%nat (market_request symbol side qty_per_slice)
          = inl e ->
        let '(w', result) :=
          place_twap_order exchange datetime_now sleep_error symbol side
            total_quantity num_slices time_interval w in
        result = []
        /\ order_history w'
           = order_history w
             ++ List.map (twap_entry datetime_now (n_submitted w) os) (seq 0 i)
        /\ orders w' = insert_all (List.map os (seq 0 i)) (orders w)
        /\ forall j, (j < i)%nat ->
             exists o, orders w' !! orderId (os j) = Some o
                       /\ orderId o = orderId (os j))
  /\ (forall (total_quantity time_interval qty_per_slice : float) (num_slices : Z),
        float_div_int total_quantity num_slices = inr qty_per_slice ->
        (2 <= num_slices)%Z ->
        sleep_error time_interval = Some e ->
        exchange (n_submitted w) (market_request symbol side qty_per_slice)
          = inr (os 0%nat) ->
        let '(w', result) :=
          place_twap_order exchange datetime_now sleep_error symbol side
            total_quantity num_slices time_interval w in
        result = []
        /\ order_history w'
           = order_history w ++ [twap_entry datetime_now (n_submitted w) os 0]
        /\ orders w' !! orderId (os 0%nat) = Some (os 0%nat)).
Proof.
  assert (Hkept : forall j, (j < i)%nat ->
            exists o, insert_all (List.map os (seq 0 i)) (orders w) !! orderId (os j)
                      = Some o /\ orderId o = orderId (os j)).
  { intros j Hj. apply insert_all_lookup, in_map, in_seq. lia. }
  split; [|split].
  - intros quantity base_price grid_percentage qty_per_level grid_levels rs
      Hqty Hi Hacc [Hplan|[Hplan Hex]].
    + rewrite (grid_run_invalid exchange datetime_now symbol side quantity
                 base_price grid_percentage qty_per_level grid_levels w rs os Hqty
                 i e Hi Hacc Hplan).
      cbn [grid_world orders order_history]. repeat split. exact Hkept.
    + rewrite (grid_run_refused exchange datetime_now symbol side quantity
                 base_price grid_percentage qty_per_level grid_levels w rs os Hqty
                 i e Hi Hacc Hplan Hex).
      cbn [with_event grid_world orders order_history]. repeat split. exact Hkept.
  - intros total_quantity time_interval qty_per_slice num_slices
      Hqty Hi Hsleep Hacc Hex.
    rewrite (twap_run_refused exchange datetime_now sleep_error symbol side
               total_quantity time_interval qty_per_slice num_slices w os Hqty i e
               Hi Hsleep Hacc Hex).
    cbn [with_event twap_world orders order_history]. repeat split. exact Hkept.
  - intros total_quantity time_interval qty_per_slice num_slices
      Hqty Hn Hsleep Hex.
    rewrite (twap_run_sleep_raises symbol side total_quantity time_interval
               qty_per_slice num_slices w (os 0%nat) e Hqty Hn Hsleep Hex).
    cbn [orders order_history]. repeat split. apply lookup_insert_eq.
Qed.

(** C8.  A TWAP run submits its slices one after the other as MARKET
    orders of the slice quantity and sleeps [time_interval] after each
    slice but the last.  When the exchange takes all [n] slices the
    events are submit, sleep, submit, ..., submit, with [n] submissions,
    [n - 1] sleeps and none after the last slice, and the history numbers
    the slices 1 to [n] in that order; when the exchange refuses slice
    [i + 1] the events are the [i] pairs submit, sleep before it and the
    refused submission. *)
Theorem twap_slices_paced (symbol : string) (side : OrderSide)
    (total_quantity time_interval qty_per_slice : float) (num_slices : Z)
    (w : World) (os : nat -> Order) :
  let n := Z.to_nat num_slices in
  let r := market_request symbol side qty_per_slice in
  float_div_int total_quantity num_slices = inr qty_per_slice ->
  sleep_error time_interval = None ->
  (rq_type r = "MARKET"%string /\ rq_quantity r = qty_per_slice)
  /\ ((forall j, (j < n)%nat -> twap_accepted exchange r w os j) ->
      let '(w', result) :=
        place_twap_order exchange datetime_now sleep_error symbol side
          total_quantity num_slices time_interval w in
      trace w' = trace w ++ twap_schedule r time_interval n
      /\ submissions (twap_schedule r time_interval n) = repeat r n
      /\ sleeps (twap_schedule r time_interval n) = repeat time_interval (n - 1)
      /\ order_history w'
         = order_history w
           ++ List.map (twap_entry datetime_now (n_submitted w) os) (seq 0 n)
      /\ List.map slice_number
           (List.map (twap_entry datetime_now (n_submitted w) os) (seq 0 n))
         = List.map (fun k => Some (Z.of_nat k + 1)) (seq 0 n)
      /\ result = List.map os (seq 0 n))
  /\ (forall (i : nat) (e : Exn),
        (i < n)%nat ->
        (forall j, (j < i)%nat -> twap_accepted exchange r w os j) ->
        exchange (n_submitted w + i)%nat r = inl e ->
        let '(w', result) :=
          place_twap_order exchange datetime_now sleep_error symbol side
            total_quantity num_slices time_interval w in
        trace w'
        = trace w ++ concat (repeat [Submit r; Sleep time_interval] i) ++ [Submit r]).
Proof.
  intros n r Hqty Hsleep. split; [split; reflexivity|]. split.
  - intros Hacc.
    rewrite (twap_run_ok exchange datetime_now sleep_error symbol side
               total_quantity time_interval qty_per_slice num_slices w os Hqty
               Hsleep Hacc).
    fold n r. cbn [twap_world trace order_history].
    rewrite twap_events_all. repeat split.
    + rewrite <- twap_events_all. apply submissions_twap_events.
    + rewrite <- twap_events_all, sleeps_twap_events. f_equal. lia.
    + rewrite List.map_map. reflexivity.
  - intros i e Hi Hacc Hex.
    rewrite (twap_run_refused exchange datetime_now sleep_error symbol side
               total_quantity time_interval qty_per_slice num_slices w os Hqty i e
               Hi Hsleep Hacc Hex).
    fold n r. cbn [with_event twap_world trace].
    rewrite twap_events_before_last by assumption.
    rewrite <- app_assoc. reflexivity.
Qed.

(** C7.  In a Grid run in which every level is taken, the request
    submitted for level [j] (from 0) is a GTC LIMIT order on the cleaned
    symbol and the given side, of quantity [quantity / grid_levels], priced
    at [base_price * (1 - j * grid_percentage / 100)] for BUY and
    [base_price * (1 + j * grid_percentage / 100)] for SELL passed through
    the quantizer: the decimal read from that float, cut to two places,
    read as a float.  A BUY grid on "BTC" of quantity 1.0 from 50000 with 5
    levels of 2.0 percent submits the prices 50000, 49000, 48000, 47000,
    46000, each with quantity 0.2; and where the level price has more than
    two decimals they are cut off: from 123.45 with 1.5 percent the levels
    121.59825000000001, 119.7465 and 117.89475 are submitted as 121.59,
    119.74 and 117.89. *)
Theorem grid_level_prices :
  (forall (symbol : string) (side : OrderSide)
          (quantity base_price grid_percentage qty_per_level : float)
          (grid_levels : Z) (w : World) (rs : nat -> OrderRequest)
          (os : nat -> Order),
      float_div_int quantity grid_levels = inr qty_per_level ->
      (forall j, (j < Z.to_nat grid_levels)%nat ->
         grid_accepted exchange symbol side qty_per_level base_price
           grid_percentage w rs os j) ->
      let '(w', result) :=
        place_grid_order exchange datetime_now symbol side quantity base_price
          grid_levels grid_percentage w in
      submissions (trace w')
      = submissions (trace w) ++ List.map rs (seq 0 (Z.to_nat grid_levels))
      /\ forall j, (j < Z.to_nat grid_levels)%nat ->
           exists (level raw price : float) (q : PyNum.Decimal),
             PyNum.float_of_int (Z.of_nat j) = Some level
             /\ raw = match side with
                      | BUY => (base_price * (1 - level * grid_percentage / 100))%float
                      | SELL => (base_price * (1 + level * grid_percentage / 100))%float
                      end
             /\ PyNum.quantize_cents (PyNum.Decimal_of_str_float raw) = Some q
             /\ price = PyNum.float_of_Decimal q
             /\ rs j = {| rq_symbol := clean_symbol symbol;
                          rq_side := match side with
                                     | BUY => "BUY"%string
                                     | SELL => "SELL"%string
                                     end;
                          rq_type := "LIMIT"%string;
                          rq_timeInForce := Some "GTC"%string;
                          rq_quantity := qty_per_level;
                          rq_price := Some price;
                          rq_stopPrice := None;
                          rq_stopLimitPrice := None;
                          rq_stopLimitTimeInForce := None |})
  /\ float_div_int 1 5 = inr 0.2%float
  /\ List.map (grid_level_request "BTC" BUY 0.2 50000 2) (seq 0 5)
     = List.map
         (fun price =>
            inr {| rq_symbol := "BTCUSDT"%string;
                   rq_side := "BUY"%string;
                   rq_type := "LIMIT"%string;
                   rq_timeInForce := Some "GTC"%string;
                   rq_quantity := 0.2%float;
                   rq_price := Some price;
                   rq_stopPrice := None;
                   rq_stopLimitPrice := None;
                   rq_stopLimitTimeInForce := None |})
         [50000; 49000; 48000; 47000; 46000]%float
  /\ List.map (grid_raw_price BUY 123.45 1.5) [0; 1; 2; 3]
     = List.map inr [123.45; 121.59825000000001; 119.7465; 117.89475]%float
  /\ List.map (grid_price BUY 123.45 1.5) [0; 1; 2; 3]
     = List.map inr [123.45; 121.59; 119.74; 117.89]%float.
Proof.
  split; [|repeat split; vm_compute; reflexivity].
  intros symbol side quantity base_price grid_percentage qty_per_level grid_levels
    w rs os Hqty Hacc.
  rewrite (grid_run_ok exchange datetime_now symbol side quantity base_price
             grid_percentage qty_per_level grid_levels w rs os Hqty Hacc).
  cbn [grid_world trace]. split.
  - rewrite submissions_app, submissions_map_Submit. reflexivity.
  - intros j Hj. destruct (Hacc j Hj) as [Hplan _].
    unfold grid_level_request, grid_price, grid_raw_price, int_mul_float,
      PyNum.quantize_price in Hplan.
    destruct (PyNum.float_of_int (Z.of_nat j)) as [level|]; [|discriminate].
    exists level.
    destruct side;
      match type of Hplan with
      | context [PyNum.quantize_cents ?d] =>
          destruct (PyNum.quantize_cents d) as [q|] eqn:Hq; [|discriminate]
      end;
      eexists; exists (PyNum.float_of_Decimal q), q; injection Hplan as <-;
      repeat split; exact Hq.
Qed.

End Strategies.

(* ===================================================================== *)
(** * The scenarios of the specification, run *)
(* ===================================================================== *)

(** Settle a goal about every index below a small bound by running each
    index. *)
Ltac each_below :=
  let j := fresh "j" in
  let Hj := fresh "Hj" in
  intros j Hj;
  repeat first
    [ solve [exfalso; lia]
    | destruct j as [|j]; [vm_compute; first [ reflexivity | split; reflexivity ] | ] ].

(** C1, as the claim states it, fails: when level 3 of 5 is refused, the
    levels 4 and 5 are never submitted, nothing is returned, and the
    history holds 2 new entries, not 4. *)
Lemma grid_level_3_of_5_refused :
  let '(w', result) :=
    place_grid_order (scripted_exchange (Some 2%nat)) fixed_clock
      "BTC" BUY 1 50000 5 2 empty_world in
  result = []
  /\ length (order_history w') = 2%nat
  /\ length (submissions (trace w')) = 3%nat
  /\ ~ (length result = 4%nat /\ length (order_history w') = 4%nat).
Proof.
  vm_compute. repeat split. intros [H _]. discriminate H.
Qed.

Lemma grid_refusal_aborts_run_witness :
  let ex := scripted_exchange (Some 2%nat) in
  let rs := planned (grid_level_request "BTC" BUY 0.2 50000 2) in
  let os := answered ex rs in
  float_div_int 1 5 = inr 0.2%float
  /\ (2 < Z.to_nat 5)%nat
  /\ (forall j, (j < 2)%nat -> grid_accepted ex "BTC" BUY 0.2 50000 2 empty_world rs os j)
  /\ grid_level_request "BTC" BUY 0.2 50000 2 2 = inr (rs 2%nat)
  /\ ex (n_submitted empty_world + 2)%nat (rs 2%nat)
     = inl (BinanceAPIException (-2010) "Order would immediately trigger.")
  /\ snd (place_grid_order ex fixed_clock "BTC" BUY 1 50000 5 2 empty_world) = [].
Proof.
  intros ex rs os.
  assert (H1 : float_div_int 1 5 = inr 0.2%float) by (vm_compute; reflexivity).
  assert (H2 : (2 < Z.to_nat 5)%nat) by (vm_compute; lia).
  assert (H3 : forall j, (j < 2)%nat ->
                 grid_accepted ex "BTC" BUY 0.2 50000 2 empty_world rs os j)
    by each_below.
  assert (H4 : grid_level_request "BTC" BUY 0.2 50000 2 2 = inr (rs 2%nat))
    by (vm_compute; reflexivity).
  assert (H5 : ex (n_submitted empty_world + 2)%nat (rs 2%nat)
               = inl (BinanceAPIException (-2010) "Order would immediately trigger."))
    by (vm_compute; reflexivity).
  repeat (split; [assumption|]).
  pose proof (grid_refusal_aborts_run ex fixed_clock "BTC" BUY 1 50000 2 0.2 5
                empty_world rs os 2 _ H1 H2 H3 H4 H5) as H.
  destruct (place_grid_order ex fixed_clock "BTC" BUY 1 50000 5 2 empty_world)
    as [w' result].
  exact (proj1 H).
Defined.

(** C2, as the claim states it, fails: when slice 2 of 5 is refused, the
    one slice placed before it is in the history, but the method returns
    the empty list, not that one order. *)
Lemma twap_slice_2_of_5_refused :
  let '(w', result) :=
    place_twap_order (scripted_exchange (Some 1%nat)) fixed_clock sleep_nonnegative
      "BTC" BUY 1 5 60 empty_world in
  result = []
  /\ length (order_history w') = 1%nat
  /\ length (submissions (trace w')) = 2%nat
  /\ length result <> 1%nat.
Proof.
  vm_compute. repeat split. discriminate.
Qed.

Lemma twap_refusal_stops_run_witness :
  let ex := scripted_exchange (Some 1%nat) in
  let r := market_request "BTC" BUY 0.2 in
  let os := answered ex (fun _ => r) in
  float_div_int 1 5 = inr 0.2%float
  /\ (1 < Z.to_nat 5)%nat
  /\ sleep_nonnegative 60 = None
  /\ (forall j, (j < 1)%nat -> twap_accepted ex r empty_world os j)
  /\ ex (n_submitted empty_world + 1)%nat r
     = inl (BinanceAPIException (-2010) "Order would immediately trigger.")
  /\ snd (place_twap_order ex fixed_clock sleep_nonnegative "BTC" BUY 1 5 60
            empty_world) = [].
Proof.
  intros ex r os.
  assert (H1 : float_div_int 1 5 = inr 0.2%float) by (vm_compute; reflexivity).
  assert (H2 : (1 < Z.to_nat 5)%nat) by (vm_compute; lia).
  assert (H3 : sleep_nonnegative 60 = None) by (vm_compute; reflexivity).
  assert (H4 : forall j, (j < 1)%nat -> twap_accepted ex r empty_world os j)
    by each_below.
  assert (H5 : ex (n_submitted empty_world + 1)%nat r
               = inl (BinanceAPIException (-2010) "Order would immediately trigger."))
    by (vm_compute; reflexivity).
  repeat (split; [assumption|]).
  pose proof (twap_refusal_stops_run ex fixed_clock sleep_nonnegative "BTC" BUY 1 60
                0.2 5 empty_world os 1 _ H1 H2 H3 H4 H5) as H.
  destruct (place_twap_order ex fixed_clock sleep_nonnegative "BTC" BUY 1 5 60
              empty_world) as [w' result].
  exact (proj1 H).
Defined.

Lemma twap_slices_paced_witness :
  let ex := scripted_exchange None in
  let r := market_request "BTC" BUY (1 / 3) in
  let os := answered ex (fun _ => r) in
  float_div_int 1 3 = inr (1 / 3)%float
  /\ sleep_nonnegative 60 = None
  /\ (forall j, (j < Z.to_nat 3)%nat -> twap_accepted ex r empty_world os j)
  /\ trace (fst (place_twap_order ex fixed_clock sleep_nonnegative "BTC" BUY 1 3 60
                   empty_world))
     = [Submit r; Sleep 60; Submit r; Sleep 60; Submit r].
Proof.
  intros ex r os.
  assert (H1 : float_div_int 1 3 = inr (1 / 3)%float) by (vm_compute; reflexivity).
  assert (H2 : sleep_nonnegative 60 = None) by (vm_compute; reflexivity).
  assert (H3 : forall j, (j < Z.to_nat 3)%nat -> twap_accepted ex r empty_world os j).
  { change (Z.to_nat 3) with 3%nat. each_below. }
  repeat (split; [assumption|]).
  pose proof (proj1 (proj2 (twap_slices_paced ex fixed_clock sleep_nonnegative "BTC"
                              BUY 1 60 (1 / 3) 3 empty_world os H1 H2)) H3) as H.
  destruct (place_twap_order ex fixed_clock sleep_nonnegative "BTC" BUY 1 3 60
              empty_world) as [w' result].
  cbn [fst]. rewrite (proj1 H). reflexivity.
Defined.

Lemma grid_level_prices_witness :
  let ex := scripted_exchange None in
  let rs := planned (grid_level_request "ETH" SELL 0.25 123.45 1.5) in
  let os := answered ex rs in
  float_div_int 1 4 = inr 0.25%float
  /\ (forall j, (j < Z.to_nat 4)%nat ->
        grid_accepted ex "ETH" SELL 0.25 123.45 1.5 empty_world rs os j)
  /\ List.map (fun r => (rq_symbol r, rq_side r, rq_type r, rq_quantity r, rq_price r))
       (submissions
          (trace (fst (place_grid_order ex fixed_clock "ETH" SELL 1 123.45 4 1.5
                         empty_world))))
     = [("ETHUSDT", "SELL", "LIMIT", 0.25, Some 123.45);
        ("ETHUSDT", "SELL", "LIMIT", 0.25, Some 125.3);
        ("ETHUSDT", "SELL", "LIMIT", 0.25, Some 127.15);
        ("ETHUSDT", "SELL", "LIMIT", 0.25, Some 129)]%float%string.
Proof.
  intros ex rs os.
  assert (H1 : float_div_int 1 4 = inr 0.25%float) by (vm_compute; reflexivity).
  assert (H2 : forall j, (j < Z.to_nat 4)%nat ->
                 grid_accepted ex "ETH" SELL 0.25 123.45 1.5 empty_world rs os j).
  { change (Z.to_nat 4) with 4%nat. each_below. }
  repeat (split; [assumption|]).
  pose proof (proj1 (grid_level_prices ex fixed_clock) "ETH"%string SELL
                1%float 123.45%float 1.5%float 0.25%float 4 empty_world rs os H1 H2)
    as H.
  destruct (place_grid_order ex fixed_clock "ETH" SELL 1 123.45 4 1.5 empty_world)
    as [w' result].
  cbn [fst]. rewrite (proj1 H). vm_compute. reflexivity.
Defined.

Lemma failed_run_keeps_ledger_witness :
  let refusing := scripted_exchange (Some 2%nat) in
  let rs := planned (grid_level_request "BTC" BUY 0.2 50000 2) in
  let r := market_request "BTC" BUY 0.2 in
  let refused := BinanceAPIException (-2010) "Order would immediately trigger." in
  (float_div_int 1 5 = inr 0.2%float
   /\ (2 < Z.to_nat 5)%nat
   /\ (forall j, (j < 2)%nat ->
         grid_accepted refusing "BTC" BUY 0.2 50000 2 empty_world rs
           (answered refusing rs) j)
   /\ grid_level_request "BTC" BUY 0.2 50000 2 2 = inr (rs 2%nat)
   /\ refusing (n_submitted empty_world + 2)%nat (rs 2%nat) = inl refused
   /\ snd (place_grid_order refusing fixed_clock "BTC" BUY 1 50000 5 2 empty_world)
      = [])
  /\ (sleep_nonnegative 60 = None
      /\ (forall j, (j < 2)%nat ->
            twap_accepted refusing r empty_world (answered refusing (fun _ => r)) j)
      /\ refusing (n_submitted empty_world + 2)%nat r = inl refused
      /\ snd (place_twap_order refusing fixed_clock sleep_nonnegative "BTC" BUY 1 5 60
                empty_world) = [])
  /\ ((2 <= 5)%Z
      /\ sleep_nonnegative (-1) = Some ValueError
      /\ scripted_exchange None (n_submitted empty_world) r
         = inr (answered (scripted_exchange None) (fun _ => r) 0)
      /\ snd (place_twap_order (scripted_exchange None) fixed_clock sleep_nonnegative
                "BTC" BUY 1 5 (-1) empty_world) = []).
Proof.
  intros refusing rs r refused.
  assert (Hq : float_div_int 1 5 = inr 0.2%float) by (vm_compute; reflexivity).
  assert (Hi : (2 < Z.to_nat 5)%nat) by (vm_compute; lia).
  assert (Hg : forall j, (j < 2)%nat ->
                 grid_accepted refusing "BTC" BUY 0.2 50000 2 empty_world rs
                   (answered refusing rs) j) by each_below.
  assert (Hp : grid_level_request "BTC" BUY 0.2 50000 2 2 = inr (rs 2%nat))
    by (vm_compute; reflexivity).
  assert (Hx : refusing (n_submitted empty_world + 2)%nat (rs 2%nat) = inl refused)
    by (vm_compute; reflexivity).
  assert (Hs : sleep_nonnegative 60 = None) by (vm_compute; reflexivity).
  assert (Ht : forall j, (j < 2)%nat ->
                 twap_accepted refusing r empty_world
                   (answered refusing (fun _ => r)) j) by each_below.
  assert (Hy : refusing (n_submitted empty_world + 2)%nat r = inl refused)
    by (vm_compute; reflexivity).
  assert (Hn : (2 <= 5)%Z) by lia.
  assert (Hv : sleep_nonnegative (-1) = Some ValueError) by (vm_compute; reflexivity).
  assert (Ho : scripted_exchange None (n_submitted empty_world) r
               = inr (answered (scripted_exchange None) (fun _ => r) 0))
    by (vm_compute; reflexivity).
  split; [|split].
  - repeat (split; [assumption|]).
    pose proof (proj1 (failed_run_keeps_ledger refusing fixed_clock sleep_nonnegative
                         "BTC" BUY empty_world (answered refusing rs) 2 refused)
                  1%float 50000%float 2%float 0.2%float 5 rs Hq Hi Hg
                  (or_intror (conj Hp Hx))) as H.
    destruct (place_grid_order refusing fixed_clock "BTC" BUY 1 50000 5 2 empty_world)
      as [w' result].
    exact (proj1 H).
  - repeat (split; [assumption|]).
    pose proof (proj1 (proj2 (failed_run_keeps_ledger refusing fixed_clock
                                sleep_nonnegative "BTC" BUY empty_world
                                (answered refusing (fun _ => r)) 2 refused))
                  1%float 60%float 0.2%float 5 Hq Hi Hs Ht Hy) as H.
    destruct (place_twap_order refusing fixed_clock sleep_nonnegative "BTC" BUY 1 5 60
                empty_world) as [w' result].
    exact (proj1 H).
  - repeat (split; [assumption|]).
    pose proof (proj2 (proj2 (failed_run_keeps_ledger (scripted_exchange None)
                                fixed_clock sleep_nonnegative "BTC" BUY empty_world
                                (answered (scripted_exchange None) (fun _ => r)) 0
                                ValueError))
                  1%float (-1)%float 0.2%float 5 Hq Hn Hv Ho) as H.
    destruct (place_twap_order (scripted_exchange None) fixed_clock sleep_nonnegative
                "BTC" BUY 1 5 (-1) empty_world) as [w' result].
    exact (proj1 H).
Defined.

Lemma single_orders_reach_exchange_witness :
  submissions
    (trace (fst (place_stop_limit_order (scripted_exchange None) fixed_clock
                   "ETH" SELL 0.5 3000 2900 "GTC" empty_world)))
  = [stop_limit_request "ETH" SELL 0.5 3000 2900 "GTC"].
Proof.
  destruct (single_orders_reach_exchange (scripted_exchange None) fixed_clock
              "ETH" SELL 0.5 3000 2900 "GTC" empty_world)
    as (_ & _ & Hstop & _).
  rewrite Hstop. reflexivity.
Defined.

Lemma oco_stop_limit_defaults_to_stop_witness :
  List.map rq_stopLimitPrice
    (submissions
       (trace (fst (place_oco_order (scripted_exchange None) fixed_clock
                      "BTC" SELL 0.1 52000 48000 None empty_world))))
  = [Some 48000%float].
Proof.
  destruct (oco_stop_limit_defaults_to_stop (scripted_exchange None) fixed_clock
              "BTC" SELL 0.1 52000 48000 empty_world)
    as (Hnone & _).
  rewrite Hnone. reflexivity.
Defined.

(* ===================================================================== *)
(** * More on symbols *)
(* ===================================================================== *)

Lemma upper_ascii_idempotent (c : ascii) :
  PyStr.upper_ascii (PyStr.upper_ascii c) = PyStr.upper_ascii c.
Proof.
  destruct c as [b0 b1 b2 b3 b4 b5 b6 b7].
  destruct b0, b1, b2, b3, b4, b5, b6, b7; reflexivity.
Qed.

Lemma upper_idempotent (s : string) : PyStr.upper (PyStr.upper s) = PyStr.upper s.
Proof.
  induction s as [|c s IH]; simpl; [reflexivity|].
  rewrite upper_ascii_idempotent, IH. reflexivity.
Qed.

Lemma upper_append (a b : string) :
  PyStr.upper (a ++ b) = (PyStr.upper a ++ PyStr.upper b)%string.
Proof. induction a as [|c a IH]; simpl; [reflexivity | rewrite IH; reflexivity]. Qed.

Lemma upper_length (s : string) : String.length (PyStr.upper s) = String.length s.
Proof. induction s as [|c s IH]; simpl; [reflexivity | rewrite IH; reflexivity]. Qed.

Lemma append_length (a b : string) :
  String.length (a ++ b) = (String.length a + String.length b)%nat.
Proof. induction a as [|c a IH]; simpl; [reflexivity | rewrite IH; reflexivity]. Qed.

Lemma append_String (c : ascii) (a b : string) :
  (String c a ++ b)%string = String c (a ++ b).
Proof. reflexivity. Qed.

Lemma append_empty_l (b : string) : ("" ++ b)%string = b.
Proof. reflexivity. Qed.

(** Deleting occurrences never lengthens the string. *)
Lemma replace_from_deletes (old s : string) :
  forall skip : nat,
    (String.length (PyStr.replace_from old "" skip s) <= String.length s)%nat.
Proof.
  induction s as [|c s IH]; intros skip; cbn [PyStr.replace_from String.length];
    [lia|].
  destruct skip as [|k].
  - destruct (PyStr.startswith old (String c s)); cbn [String.length].
    + rewrite append_length. cbn [String.length].
      specialize (IH (String.length old - 1)%nat). lia.
    + specialize (IH 0%nat). lia.
  - specialize (IH k). lia.
Qed.

(** A character that does not start the token is not the start of it
    with more text behind either: no occurrence of "USDT" begins before a
    "USDT" and ends inside it. *)
Lemma startswith_USDT_no_overlap (c : ascii) (b rest : string) :
  PyStr.startswith "USDT" (String c b) = false ->
  PyStr.startswith "USDT" (String c b ++ "USDT" ++ rest) = false.
Proof.
  intros H. destruct b as [|c2 [|c3 [|c4 b]]];
    rewrite ?append_String, ?append_empty_l; cbn [PyStr.startswith] in *;
    [ repeat match goal with
             | |- context [Ascii.eqb ?a ?x] => is_var x; destruct (Ascii.eqb a x)
             end; reflexivity .. | exact H ].
Qed.

Lemma replace_USDT_absent (base : string) :
  str_contains "USDT" base = false ->
  PyStr.replace "USDT" "" base = base.
Proof.
  unfold PyStr.replace. induction base as [|c b IH]; intros H; [reflexivity|].
  cbn [str_contains] in H. apply orb_false_iff in H. destruct H as [Hhere Hlater].
  cbn [PyStr.replace_from]. rewrite Hhere, (IH Hlater). reflexivity.
Qed.

Lemma replace_USDT_after (base rest : string) :
  str_contains "USDT" base = false ->
  PyStr.replace "USDT" "" (base ++ "USDT" ++ rest)
  = (base ++ PyStr.replace "USDT" "" rest)%string.
Proof.
  unfold PyStr.replace. induction base as [|c b IH]; intros H; [reflexivity|].
  cbn [str_contains] in H. apply orb_false_iff in H. destruct H as [Hhere Hlater].
  pose proof (startswith_USDT_no_overlap c b rest Hhere) as Hno.
  rewrite (append_String c b) in *. cbn [PyStr.replace_from].
  rewrite Hno, (IH Hlater). reflexivity.
Qed.

(** X1.  For every symbol of ASCII characters, the cleaned symbol is in
    upper case, ends with "USDT", and is at least 4 characters and at most
    4 characters longer than the symbol given. *)
Theorem clean_symbol_upper_case (symbol : string) :
  PyStr.isascii symbol = true ->
  PyStr.upper (clean_symbol symbol) = clean_symbol symbol
  /\ (exists base : string, clean_symbol symbol = (base ++ "USDT")%string)
  /\ (4 <= String.length (clean_symbol symbol) <= String.length symbol + 4)%nat.
Proof.
  intros _. unfold clean_symbol. split; [|split].
  - rewrite upper_append, upper_idempotent. reflexivity.
  - eexists. reflexivity.
  - rewrite append_length, upper_length.
    change (String.length "USDT") with 4%nat. unfold PyStr.replace.
    pose proof (replace_from_deletes "USDT" symbol 0). lia.
Qed.

Lemma clean_symbol_upper_case_witness :
  PyStr.isascii "ethUSDT" = true
  /\ PyStr.upper (clean_symbol "ethUSDT") = "ETHUSDT"%string.
Proof.
  assert (H : PyStr.isascii "ethUSDT" = true) by reflexivity.
  split; [exact H|].
  rewrite (proj1 (clean_symbol_upper_case "ethUSDT" H)). reflexivity.
Defined.

(** X2.  A symbol that does not contain the upper-case token "USDT" is
    cleaned to its upper case followed by "USDT", and so is the same
    symbol with "USDT" appended: the suffix is optional, in any case of
    the letters before it. *)
Theorem clean_symbol_suffix_optional (base : string) :
  str_contains "USDT" base = false ->
  clean_symbol base = (PyStr.upper base ++ "USDT")%string
  /\ clean_symbol (base ++ "USDT") = (PyStr.upper base ++ "USDT")%string.
Proof.
  intros H. unfold clean_symbol. split.
  - rewrite (replace_USDT_absent base H). reflexivity.
  - pose proof (replace_USDT_after base "" H) as Hr.
    change ("USDT" ++ "")%string with "USDT"%string in Hr. rewrite Hr.
    change (PyStr.replace "USDT" "" "") with ""%string.
    assert (Hnil : forall s : string, (s ++ "")%string = s).
    { induction s as [|c s IH]; [reflexivity|].
      rewrite append_String, IH. reflexivity. }
    rewrite Hnil. reflexivity.
Qed.

Lemma clean_symbol_suffix_optional_witness :
  str_contains "USDT" "Sushi" = false
  /\ clean_symbol "Sushi" = "SUSHIUSDT"%string
  /\ clean_symbol "SushiUSDT" = "SUSHIUSDT"%string.
Proof.
  assert (H : str_contains "USDT" "Sushi" = false) by reflexivity.
  split; [exact H|].
  destruct (clean_symbol_suffix_optional "Sushi" H) as [H1 H2].
  split; [exact (eq_trans H1 eq_refl) | exact (eq_trans H2 eq_refl)].
Defined.

(* ===================================================================== *)
(** * More on the quantizer *)
(* ===================================================================== *)

Section QuantizerFacts.

Import PyNum.
Local Open Scope Q_scope.

Lemma Dec_abs_value_nonneg (c : N) (e : Z) : 0 <= Dec_abs_value c e.
Proof.
  unfold Dec_abs_value. apply Qmult_le_0_compat; [|apply Qlt_le_weak, pow10_pos].
  change 0 with (inject_Z 0). rewrite <- Zle_Qle. lia.
Qed.

Lemma Dec_abs_value_cents (c : N) : Dec_abs_value c (-2) == inject_Z (Z.of_N c) * (1 # 100).
Proof. unfold Dec_abs_value. reflexivity. Qed.

(** A finite decimal is cut to its own sign and the rescaled coefficient
    whenever it is cut at all. *)
Lemma quantize_cents_finite (s : bool) (c : N) (e : Z) (q : Decimal) :
  quantize_cents (DecFinite s c e) = Some q ->
  q = DecFinite s (rescale_cents c e) (-2).
Proof.
  cbn [quantize_cents]. destruct (N.eqb_spec c 0) as [->|Hc].
  - intros [= <-]. f_equal. unfold rescale_cents.
    destruct (-2 <=? e)%Z; [rewrite N.mul_0_l | rewrite N.Div0.div_0_l]; reflexivity.
  - destruct (context_prec <? _)%Z; [discriminate|]. intros [= <-]. reflexivity.
Qed.

(** The coefficient kept is the whole part of a hundred times the
    magnitude. *)
Lemma rescale_cents_floor (c : N) (e : Z) :
  Z.of_N (rescale_cents c e) = Qfloor (inject_Z 100 * Dec_abs_value c e).
Proof.
  unfold Dec_abs_value. destruct (Z_le_gt_dec (-2) e) as [He|He].
  - rewrite rescale_cents_coeff_up by assumption.
    assert (Heq : inject_Z 100 * (inject_Z (Z.of_N c) * (10 # 1) ^ e)
                  == inject_Z (Z.of_N c * 10 ^ (e + 2))).
    { rewrite inject_Z_mult, Zpower_Qpower by lia.
      change (inject_Z 10) with (10 # 1).
      rewrite Qpower_plus by apply ten_neq_0.
      change ((10 # 1) ^ 2) with (inject_Z 100). ring. }
    rewrite Heq. symmetry. apply Qfloor_Z.
  - rewrite rescale_cents_coeff_down by lia.
    set (k := (- 2 - e)%Z).
    assert (Hk : (0 < 10 ^ k)%Z) by (apply Z.pow_pos_nonneg; unfold k; lia).
    assert (Heq : inject_Z 100 * (inject_Z (Z.of_N c) * (10 # 1) ^ e)
                  == Z.of_N c # Z.to_pos (10 ^ k)).
    { rewrite (Qmake_Qdiv (Z.of_N c) (Z.to_pos (10 ^ k))), Z2Pos.id by assumption.
      rewrite Zpower_Qpower by (unfold k; lia).
      change (inject_Z 10) with (10 # 1).
      replace e with (- 2 + - k)%Z at 1 by (unfold k; lia).
      rewrite Qpower_plus, Qpower_opp by apply ten_neq_0.
      change ((10 # 1) ^ (-2)) with (1 # 100).
      change (inject_Z 100) with (100 # 1).
      unfold Qdiv. ring_simplify. reflexivity. }
    rewrite Heq. unfold Qfloor. rewrite Z2Pos.id by assumption. reflexivity.
Qed.

Lemma rescale_cents_bounds (c : N) (e : Z) :
  inject_Z (Z.of_N (rescale_cents c e)) <= inject_Z 100 * Dec_abs_value c e
  /\ inject_Z 100 * Dec_abs_value c e < inject_Z (Z.of_N (rescale_cents c e)) + 1.
Proof.
  rewrite rescale_cents_floor. split; [apply Qfloor_le|].
  pose proof (Qlt_floor (inject_Z 100 * Dec_abs_value c e)) as H.
  rewrite inject_Z_plus in H. exact H.
Qed.

(** X3.  Cutting to cents keeps the order of prices: of two finite
    decimals the quantizer accepts, the smaller one is cut to the
    smaller or equal result, whatever their signs and however they are
    written; in particular two decimals of equal value are cut to equal
    values. *)
Theorem quantize_cents_monotone (s1 s2 : bool) (c1 c2 : N) (e1 e2 : Z)
    (q1 q2 : Decimal) :
  quantize_cents (DecFinite s1 c1 e1) = Some q1 ->
  quantize_cents (DecFinite s2 c2 e2) = Some q2 ->
  Dec_value (DecFinite s1 c1 e1) <= Dec_value (DecFinite s2 c2 e2) ->
  Dec_value q1 <= Dec_value q2.
Proof.
  intros H1 H2 Hle.
  apply quantize_cents_finite in H1, H2. subst q1 q2.
  pose proof (Dec_abs_value_nonneg c1 e1) as Hn1.
  pose proof (Dec_abs_value_nonneg c2 e2) as Hn2.
  destruct (rescale_cents_bounds c1 e1) as [Hlo1 Hhi1].
  destruct (rescale_cents_bounds c2 e2) as [Hlo2 Hhi2].
  pose proof (Qfloor_resp_le (inject_Z 100 * Dec_abs_value c1 e1)
                (inject_Z 100 * Dec_abs_value c2 e2)) as Hup.
  pose proof (Qfloor_resp_le (inject_Z 100 * Dec_abs_value c2 e2)
                (inject_Z 100 * Dec_abs_value c1 e1)) as Hdown.
  rewrite <- !rescale_cents_floor in Hup, Hdown.
  rewrite Zle_Qle in Hup, Hdown.
  assert (Hp1 : 0 <= inject_Z (Z.of_N (rescale_cents c1 e1))).
  { change 0 with (inject_Z 0). rewrite <- Zle_Qle. lia. }
  assert (Hp2 : 0 <= inject_Z (Z.of_N (rescale_cents c2 e2))).
  { change 0 with (inject_Z 0). rewrite <- Zle_Qle. lia. }
  change (inject_Z 100) with (100 # 1) in *.
  cbn [Dec_value] in *.
  destruct s1, s2; rewrite !Dec_abs_value_cents.
  - assert (Dec_abs_value c2 e2 <= Dec_abs_value c1 e1) by lra.
    assert (inject_Z (Z.of_N (rescale_cents c2 e2))
            <= inject_Z (Z.of_N (rescale_cents c1 e1))) by (apply Hdown; lra).
    lra.
  - lra.
  - lra.
  - assert (inject_Z (Z.of_N (rescale_cents c1 e1))
            <= inject_Z (Z.of_N (rescale_cents c2 e2))) by (apply Hup; lra).
    lra.
Qed.

(** X4.  Cutting to cents moves a finite decimal by less than one
    cent. *)
Theorem quantize_cents_within_a_cent (s : bool) (c : N) (e : Z) (q : Decimal) :
  quantize_cents (DecFinite s c e) = Some q ->
  Dec_value q - (1 # 100) < Dec_value (DecFinite s c e)
  /\ Dec_value (DecFinite s c e) < Dec_value q + (1 # 100).
Proof.
  intros H. apply quantize_cents_finite in H. subst q.
  destruct (rescale_cents_bounds c e) as [Hlo Hhi].
  change (inject_Z 100) with (100 # 1) in *.
  cbn [Dec_value].
  destruct s; rewrite !Dec_abs_value_cents; split; lra.
Qed.

(** X5.  The quantizer raises on a finite decimal exactly when its
    magnitude is 10^26 or more: at two decimal places such a number needs
    more than the 28 digits of the context. *)
Theorem quantize_cents_raises_from_1e26 (s : bool) (c : N) (e : Z) :
  quantize_cents (DecFinite s c e) = None
  <-> (10 # 1) ^ 26 <= Dec_abs_value c e.
Proof.
  cbn [quantize_cents]. destruct (N.eqb_spec c 0) as [->|Hc].
  - split; [discriminate|]. intros H. exfalso.
    assert (Hz : Dec_abs_value 0 e == 0).
    { unfold Dec_abs_value. change (inject_Z (Z.of_N 0)) with 0. ring. }
    rewrite Hz in H. revert H. apply Qlt_not_le. apply pow10_pos.
  - destruct (digits10_spec c ltac:(lia)) as [[Hlo Hhi] Hd].
    set (d := digits10 c) in *.
    assert (Hlow : (10 # 1) ^ (d - 1 + e) <= Dec_abs_value c e).
    { unfold Dec_abs_value. rewrite Qpower_plus by apply ten_neq_0.
      apply Qmult_le_compat_r; [|apply Qlt_le_weak, pow10_pos].
      change (10 # 1) with (inject_Z 10). rewrite <- Zpower_Qpower by lia.
      rewrite <- Zle_Qle. exact Hlo. }
    assert (Hhigh : Dec_abs_value c e < (10 # 1) ^ (d + e)).
    { unfold Dec_abs_value. rewrite Qpower_plus by apply ten_neq_0.
      apply Qmult_lt_compat_r; [apply pow10_pos|].
      change (10 # 1) with (inject_Z 10). rewrite <- Zpower_Qpower by lia.
      rewrite <- Zlt_Qlt. exact Hhi. }
    assert (Hten : 1 <= 10 # 1) by discriminate.
    unfold context_prec.
    destruct (Z.ltb_spec 28 (e + d - 1 - -2 + 1)) as [Hbig|Hsmall].
    + split; [intros _|reflexivity].
      eapply Qle_trans; [|exact Hlow].
      apply Qpower_le_compat_l; [lia | exact Hten].
    + split; [discriminate|]. intros H. exfalso.
      apply (Qlt_not_le _ _ Hhigh). eapply Qle_trans; [|exact H].
      apply Qpower_le_compat_l; [lia | exact Hten].
Qed.

End QuantizerFacts.

Lemma quantize_cents_monotone_witness :
  let d1 := PyNum.DecFinite false 4899999 (-2) in
  let d2 := PyNum.DecFinite false 49 3 in
  exists q1 q2,
    PyNum.quantize_cents d1 = Some q1
    /\ PyNum.quantize_cents d2 = Some q2
    /\ (PyNum.Dec_value d1 <= PyNum.Dec_value d2)%Q
    /\ (PyNum.Dec_value q1 <= PyNum.Dec_value q2)%Q.
Proof.
  intros d1 d2.
  exists (PyNum.DecFinite false 4899999 (-2)), (PyNum.DecFinite false 4900000 (-2)).
  assert (H1 : PyNum.quantize_cents d1 = Some (PyNum.DecFinite false 4899999 (-2)))
    by (vm_compute; reflexivity).
  assert (H2 : PyNum.quantize_cents d2 = Some (PyNum.DecFinite false 4900000 (-2)))
    by (vm_compute; reflexivity).
  assert (H3 : (PyNum.Dec_value d1 <= PyNum.Dec_value d2)%Q)
    by (vm_compute; discriminate).
  repeat (split; [assumption|]).
  exact (quantize_cents_monotone false false 4899999 49 (-2) 3 _ _ H1 H2 H3).
Defined.

Lemma quantize_cents_within_a_cent_witness :
  exists q,
    PyNum.quantize_cents (PyNum.DecFinite true 19999999999999996 (-15)) = Some q
    /\ (PyNum.Dec_value q - (1 # 100)
        < PyNum.Dec_value (PyNum.DecFinite true 19999999999999996 (-15)))%Q.
Proof.
  exists (PyNum.DecFinite true 1999 (-2)).
  assert (H : PyNum.quantize_cents (PyNum.DecFinite true 19999999999999996 (-15))
              = Some (PyNum.DecFinite true 1999 (-2))) by (vm_compute; reflexivity).
  split; [exact H|].
  exact (proj1 (quantize_cents_within_a_cent true 19999999999999996 (-15) _ H)).
Defined.

Lemma quantize_cents_raises_from_1e26_witness :
  ((10 # 1) ^ 26 <= PyNum.Dec_abs_value 1 26)%Q
  /\ PyNum.quantize_cents (PyNum.DecFinite false 1 26) = None.
Proof.
  assert (H : ((10 # 1) ^ 26 <= PyNum.Dec_abs_value 1 26)%Q)
    by (vm_compute; discriminate).
  split; [exact H|].
  exact (proj2 (quantize_cents_raises_from_1e26 false 1 26) H).
Defined.

(* ===================================================================== *)
(** * Every run, whatever the exchange does *)
(* ===================================================================== *)

Section AnyOutcome.

Context {A : Type}.
Variable body : A -> Z -> M A.

(** An invariant that each iteration either carries on or leaves for a
    failure state holds at the end of the loop, or the failure state does. *)
Lemma for_each_seq_either (I : nat -> World -> A -> Prop) (F : World -> Prop)
    (len : nat) :
  forall (start : nat) (w : World) (acc : A),
    (forall j w a, (start <= j < start + len)%nat -> I j w a ->
       match body a (Z.of_nat j) w with
       | (w', inr a') => I (S j) w' a'
       | (w', inl _) => F w'
       end) ->
    I start w acc ->
    match for_each body acc (List.map Z.of_nat (seq start len)) w with
    | (w', inr acc') => I (start + len)%nat w' acc'
    | (w', inl _) => F w'
    end.
Proof.
  induction len as [|len IH]; intros start w acc Hstep H0; simpl.
  - rewrite Nat.add_0_r. exact H0.
  - unfold bind. pose proof (Hstep start w acc ltac:(lia) H0) as Hb.
    destruct (body acc (Z.of_nat start) w) as [w1 [e|a1]]; [exact Hb|].
    replace (start + S len)%nat with (S start + len)%nat by lia.
    apply IH; [|exact Hb].
    intros j w' a Hj. apply Hstep. lia.
Qed.

End AnyOutcome.

Lemma submissions_Submits (rs : list OrderRequest) :
  submissions (List.map Submit rs) = rs.
Proof. induction rs as [|r rs IH]; simpl; [reflexivity | f_equal; exact IH]. Qed.

Lemma grid_entries_snoc (datetime_now : nat -> string) (c0 : nat) (acc : list Order)
    (o : Order) :
  grid_entries datetime_now c0 (acc ++ [o])
  = grid_entries datetime_now c0 acc
    ++ [grid_entry datetime_now c0 (fun _ => o) (length acc)].
Proof.
  unfold grid_entries. rewrite imap_app. simpl. rewrite Nat.add_0_r. reflexivity.
Qed.

Lemma twap_entries_snoc (datetime_now : nat -> string) (c0 : nat) (acc : list Order)
    (o : Order) :
  twap_entries datetime_now c0 (acc ++ [o])
  = twap_entries datetime_now c0 acc
    ++ [twap_entry datetime_now c0 (fun _ => o) (length acc)].
Proof.
  unfold twap_entries. rewrite imap_app. simpl. rewrite Nat.add_0_r. reflexivity.
Qed.

Lemma grid_entries_read (datetime_now : nat -> string) (c0 : nat) (acc : list Order) :
  List.map h_order (grid_entries datetime_now c0 acc) = acc
  /\ List.map grid_level (grid_entries datetime_now c0 acc)
     = List.map (fun k => Some (Z.of_nat k + 1)) (seq 0 (length acc))
  /\ Forall (fun en => order_type en = "GRID"%string)
       (grid_entries datetime_now c0 acc).
Proof.
  induction acc as [|o acc IH] using rev_ind.
  - repeat split. constructor.
  - destruct IH as (Ho & Hl & Ht).
    rewrite grid_entries_snoc, !List.map_app, Ho, Hl, length_app, Nat.add_1_r, seq_S,
      List.map_app.
    repeat split. apply Forall_app. split; [exact Ht|]. repeat constructor.
Qed.

Lemma twap_entries_read (datetime_now : nat -> string) (c0 : nat) (acc : list Order) :
  List.map h_order (twap_entries datetime_now c0 acc) = acc
  /\ List.map slice_number (twap_entries datetime_now c0 acc)
     = List.map (fun k => Some (Z.of_nat k + 1)) (seq 0 (length acc))
  /\ Forall (fun en => order_type en = "TWAP"%string)
       (twap_entries datetime_now c0 acc).
Proof.
  induction acc as [|o acc IH] using rev_ind.
  - repeat split. constructor.
  - destruct IH as (Ho & Hl & Ht).
    rewrite twap_entries_snoc, !List.map_app, Ho, Hl, length_app, Nat.add_1_r, seq_S,
      List.map_app.
    repeat split. apply Forall_app. split; [exact Ht|]. repeat constructor.
Qed.

Section RunShapes.

Variable exchange : nat -> OrderRequest -> Exn + Order.
Variable datetime_now : nat -> string.
Variable sleep_error : float -> option Exn.

(** The ledger and the events after the orders [acc] were accepted and
    the requests [rs] made. *)
Let grid_state (w w' : World) (acc : list Order) (rs : list OrderRequest) : Prop :=
  order_history w' = order_history w ++ grid_entries datetime_now (n_submitted w) acc
  /\ orders w' = insert_all acc (orders w)
  /\ trace w' = trace w ++ List.map Submit rs.

Lemma grid_either (symbol : string) (side : OrderSide)
    (qty_per_level base_price grid_percentage : float) (n : nat) (w : World) :
  match
    for_each (grid_body exchange datetime_now symbol side qty_per_level base_price
                grid_percentage) [] (List.map Z.of_nat (seq 0 n)) w
  with
  | (w', inr result) =>
      exists rs, grid_state w w' result rs
                 /\ length result = n /\ length rs = n
                 /\ Forall (fun r => exists price,
                              r = limit_request symbol side qty_per_level price "GTC")
                      rs
  | (w', inl _) =>
      exists acc rs, grid_state w w' acc rs
                     /\ (length acc < n)%nat
                     /\ (length acc <= length rs <= S (length acc))%nat
                     /\ Forall (fun r => exists price,
                                  r = limit_request symbol side qty_per_level price
                                        "GTC") rs
  end.
Proof.
  apply (for_each_seq_either
           (grid_body exchange datetime_now symbol side qty_per_level base_price
              grid_percentage)
           (fun j w' a =>
              exists rs, grid_state w w' a rs /\ length a = j /\ length rs = j
                         /\ Forall (fun r => exists price,
                                      r = limit_request symbol side qty_per_level
                                            price "GTC") rs)
           (fun w' =>
              exists acc rs, grid_state w w' acc rs
                             /\ (length acc < n)%nat
                             /\ (length acc <= length rs <= S (length acc))%nat
                             /\ Forall (fun r => exists price,
                                          r = limit_request symbol side qty_per_level
                                                price "GTC") rs)
           n 0%nat w []).
  - intros j w1 a Hj (rs & (Hh & Ho & Ht) & Ha & Hr & Hall).
    assert (Hn : n_submitted w1 = (n_submitted w + j)%nat).
    { unfold n_submitted. rewrite Ht, submissions_app, length_app,
        submissions_Submits. lia. }
    unfold grid_body, bind, lift.
    destruct (grid_price side base_price grid_percentage (Z.of_nat j)) as [e|price].
    + exists a, rs. repeat split; try assumption; lia.
    + unfold futures_create_order. rewrite Hn.
      set (r := grid_request symbol side qty_per_level price).
      assert (Hall' : Forall (fun r => exists price0,
                                r = limit_request symbol side qty_per_level price0
                                      "GTC") (rs ++ [r])).
      { apply Forall_app. split; [exact Hall|]. constructor; [|constructor].
        exists price. reflexivity. }
      assert (Ht' : trace (with_event w1 (Submit r))
                    = trace w ++ List.map Submit (rs ++ [r])).
      { cbn [with_event trace]. rewrite Ht, List.map_app, <- app_assoc. reflexivity. }
      destruct (exchange (n_submitted w + j) r) as [e|o].
      * exists a, (rs ++ [r]). rewrite length_app. simpl.
        repeat split; try assumption; lia.
      * unfold record_order, ret. rewrite n_submitted_with_Submit, Hn.
        exists (rs ++ [r]). rewrite !length_app. simpl.
        repeat split; try assumption; try lia.
        -- cbn [order_history with_event]. rewrite Hh, grid_entries_snoc, Ha.
           rewrite <- app_assoc. unfold grid_entry.
           replace (n_submitted w + S j)%nat with (S (n_submitted w + j)) by lia.
           reflexivity.
        -- cbn [orders with_event]. rewrite Ho, insert_all_snoc. reflexivity.
  - exists []. repeat split.
    + unfold grid_entries. simpl. rewrite app_nil_r. reflexivity.
    + simpl. rewrite app_nil_r. reflexivity.
    + constructor.
Qed.

Let twap_state (w w' : World) (acc : list Order) : Prop :=
  order_history w' = order_history w ++ twap_entries datetime_now (n_submitted w) acc
  /\ orders w' = insert_all acc (orders w).

Lemma twap_either (symbol : string) (side : OrderSide)
    (qty_per_slice time_interval : float) (num_slices : Z) (w : World) :
  let n := Z.to_nat num_slices in
  let r := market_request symbol side qty_per_slice in
  match
    for_each (twap_body exchange datetime_now sleep_error symbol side qty_per_slice
                num_slices time_interval) [] (List.map Z.of_nat (seq 0 n)) w
  with
  | (w', inr result) =>
      twap_state w w' result /\ length result = n
      /\ trace w' = trace w ++ twap_events r time_interval n n
  | (w', inl _) =>
      exists acc j, twap_state w w' acc
                    /\ (j < n)%nat
                    /\ trace w' = trace w ++ twap_events r time_interval n j ++ [Submit r]
                    /\ (length acc = j \/ (length acc = S j /\ (S j < n)%nat))
  end.
Proof.
  intros n r.
  apply (for_each_seq_either
           (twap_body exchange datetime_now sleep_error symbol side qty_per_slice
              num_slices time_interval)
           (fun j w' a =>
              twap_state w w' a /\ length a = j
              /\ trace w' = trace w ++ twap_events r time_interval n j)
           (fun w' =>
              exists acc j, twap_state w w' acc
                            /\ (j < n)%nat
                            /\ trace w'
                               = trace w ++ twap_events r time_interval n j ++ [Submit r]
                            /\ (length acc = j \/ (length acc = S j /\ (S j < n)%nat)))
           n 0%nat w []).
  - intros j w1 a Hj ((Hh & Ho) & Ha & Ht).
    assert (Hn : n_submitted w1 = (n_submitted w + j)%nat).
    { unfold n_submitted. rewrite Ht, submissions_app, length_app,
        submissions_twap_events, repeat_length. lia. }
    unfold twap_body, bind, futures_create_order. fold r. rewrite Hn.
    assert (Ht' : trace (with_event w1 (Submit r))
                  = trace w ++ twap_events r time_interval n j ++ [Submit r]).
    { cbn [with_event trace]. rewrite Ht, <- app_assoc. reflexivity. }
    destruct (exchange (n_submitted w + j) r) as [e|o].
    + exists a, j. repeat split; try assumption; [lia | left; assumption].
    + unfold record_order. rewrite n_submitted_with_Submit, Hn.
      assert (Hstate : twap_state w
                {| orders := <[orderId o := o]> (orders (with_event w1 (Submit r)));
                   order_history :=
                     order_history (with_event w1 (Submit r)) ++
                       [{| h_order := o;
                           timestamp := datetime_now (S (n_submitted w + j));
                           order_type := OrderType_value TWAP;
                           stop_price := None;
                           grid_level := None;
                           slice_number := Some (Z.of_nat j + 1) |}];
                   trace := trace (with_event w1 (Submit r)) |} (a ++ [o])).
      { split.
        - cbn [order_history with_event]. rewrite Hh, twap_entries_snoc, Ha.
          rewrite <- app_assoc. unfold twap_entry.
          replace (n_submitted w + S j)%nat with (S (n_submitted w + j)) by lia.
          reflexivity.
        - cbn [orders with_event]. rewrite Ho, insert_all_snoc. reflexivity. }
      assert (Htest : (Z.of_nat j <? num_slices - 1)%Z = (S j <? n)%nat).
      { unfold n in *. destruct (Z.ltb_spec (Z.of_nat j) (num_slices - 1));
          destruct (Nat.ltb_spec (S j) (Z.to_nat num_slices)); try reflexivity; lia. }
      rewrite Htest. destruct (Nat.ltb_spec (S j) n) as [Hmore|Hlast].
      * unfold time_sleep. destruct (sleep_error time_interval) as [e|].
        -- exists (a ++ [o]), j. rewrite length_app. simpl.
           repeat split; try apply Hstate; try assumption; [lia | right; lia].
        -- unfold ret. cbn [with_event orders order_history trace].
           rewrite length_app. simpl.
           repeat split; try apply Hstate; [lia|].
           rewrite twap_events_S. destruct (Nat.ltb_spec (S j) n); [|lia].
           rewrite Ht, <- !app_assoc. reflexivity.
      * unfold ret. rewrite length_app. simpl.
        repeat split; try apply Hstate; [lia|].
        rewrite twap_events_S. destruct (Nat.ltb_spec (S j) n); [lia|].
        cbn [trace with_event]. rewrite Ht, <- !app_assoc. reflexivity.
  - repeat split.
    + unfold twap_entries. simpl. rewrite app_nil_r. reflexivity.
    + simpl. rewrite app_nil_r. reflexivity.
Qed.

End RunShapes.

Section Outcomes.

Variable exchange : nat -> OrderRequest -> Exn + Order.
Variable datetime_now : nat -> string.
Variable sleep_error : float -> option Exn.

(** What any Grid run leaves: the orders [acc] it was given, recorded in
    order, and the requests [rs] it made. *)
Lemma grid_outcome (symbol : string) (side : OrderSide)
    (quantity base_price : float) (grid_levels : Z) (grid_percentage : float)
    (w : World) :
  exists (acc : list Order) (rs : list OrderRequest),
    let run := place_grid_order exchange datetime_now symbol side quantity base_price
                 grid_levels grid_percentage w in
    order_history (fst run)
    = order_history w ++ grid_entries datetime_now (n_submitted w) acc
    /\ orders (fst run) = insert_all acc (orders w)
    /\ trace (fst run) = trace w ++ List.map Submit rs
    /\ Forall (fun r => exists qty price,
                 float_div_int quantity grid_levels = inr qty
                 /\ r = limit_request symbol side qty price "GTC") rs
    /\ (length acc <= length rs <= S (length acc))%nat
    /\ (length rs <= Z.to_nat grid_levels)%nat
    /\ (snd run = [] \/ (snd run = acc /\ length acc = Z.to_nat grid_levels)).
Proof.
  unfold place_grid_order, try_except, bind, lift.
  destruct (float_div_int quantity grid_levels) as [e|qty] eqn:Hqty.
  - exists [], []. cbn [fst snd]. unfold grid_entries. simpl. rewrite !app_nil_r.
    repeat split; first [lia | apply Forall_nil_2 | (left; reflexivity)].
  - pose proof (grid_either exchange datetime_now symbol side qty base_price
                  grid_percentage (Z.to_nat grid_levels) w) as H.
    unfold py_range.
    destruct (for_each _ _ _ w) as [w' [e|result]].
    + destruct H as (acc & rs & (Hh & Ho & Ht) & Hlt & Hlen & Hall).
      exists acc, rs. cbn [fst snd].
      repeat split; try assumption; try lia; [|left; reflexivity].
      eapply Forall_impl; [exact Hall|]. intros r [price ->]. eauto.
    + destruct H as (rs & (Hh & Ho & Ht) & Hlen & Hrs & Hall).
      exists result, rs. cbn [fst snd].
      repeat split; try assumption; try lia; [|right; split; [reflexivity|assumption]].
      eapply Forall_impl; [exact Hall|]. intros r [price ->]. eauto.
Qed.

(** What any TWAP run leaves. *)
Lemma twap_outcome (symbol : string) (side : OrderSide)
    (total_quantity : float) (num_slices : Z) (time_interval : float) (w : World) :
  exists (acc : list Order) (events : list Event),
    let run := place_twap_order exchange datetime_now sleep_error symbol side
                 total_quantity num_slices time_interval w in
    order_history (fst run)
    = order_history w ++ twap_entries datetime_now (n_submitted w) acc
    /\ orders (fst run) = insert_all acc (orders w)
    /\ trace (fst run) = trace w ++ events
    /\ Forall (fun r => exists qty,
                 float_div_int total_quantity num_slices = inr qty
                 /\ r = market_request symbol side qty) (submissions events)
    /\ Forall (fun t => t = time_interval) (sleeps events)
    /\ (length acc <= length (submissions events) <= S (length acc))%nat
    /\ (length (submissions events) <= Z.to_nat num_slices)%nat
    /\ (length (sleeps events) <= length acc)%nat
    /\ (length (sleeps events) <= Z.to_nat num_slices - 1)%nat
    /\ (snd run = []
        \/ (snd run = acc /\ length acc = Z.to_nat num_slices
            /\ exists qty,
                 float_div_int total_quantity num_slices = inr qty
                 /\ events = twap_schedule (market_request symbol side qty)
                               time_interval (Z.to_nat num_slices))).
Proof.
  unfold place_twap_order, try_except, bind, lift.
  destruct (float_div_int total_quantity num_slices) as [e|qty] eqn:Hqty.
  - exists [], []. cbn [fst snd]. unfold twap_entries. simpl. rewrite !app_nil_r.
    repeat split; first [lia | apply Forall_nil_2 | (left; reflexivity)].
  - pose proof (twap_either exchange datetime_now sleep_error symbol side qty
                  time_interval num_slices w) as H.
    cbv zeta in H. unfold py_range.
    set (n := Z.to_nat num_slices) in *.
    set (r := market_request symbol side qty) in *.
    assert (Hsub : forall m, Forall (fun r' => exists qty',
                                       inr qty = @inr Exn _ qty'
                                       /\ r' = market_request symbol side qty')
                               (repeat r m)).
    { intros m. apply Forall_forall. intros r' Hin%list_elem_of_In.
      apply repeat_spec in Hin. subst r'. exists qty. split; reflexivity. }
    assert (Hsl : forall m, Forall (fun t => t = time_interval)
                              (repeat time_interval m)).
    { intros m. apply Forall_forall. intros t Hin%list_elem_of_In.
      apply repeat_spec in Hin. assumption. }
    destruct (for_each _ _ _ w) as [w' [e|result]].
    + destruct H as (acc & j & (Hh & Ho) & Hj & Ht & Hacc).
      exists acc, (twap_events r time_interval n j ++ [Submit r]). cbn [fst snd].
      rewrite submissions_app, sleeps_app, submissions_twap_events,
        sleeps_twap_events. simpl. rewrite app_nil_r, !length_app, !repeat_length.
      simpl.
      repeat split; try assumption; try lia; [| |left; reflexivity].
      * change (repeat r j ++ [r]) with (repeat r j ++ repeat r 1).
        rewrite <- repeat_app. apply Hsub.
      * apply Hsl.
    + destruct H as ((Hh & Ho) & Hlen & Ht).
      exists result, (twap_events r time_interval n n). cbn [fst snd].
      rewrite submissions_twap_events, sleeps_twap_events, !repeat_length.
      repeat split; try assumption; try lia; [apply Hsub | apply Hsl |].
      right. repeat split; try assumption.
      exists qty. split; [reflexivity | apply twap_events_all].
Qed.

End Outcomes.

(** ** The answers behind a run

    The same two loops once more, keeping with every recorded order the
    request it answers and with a failed run the call that failed. *)

Section RunAnswers.

Variable exchange : nat -> OrderRequest -> Exn + Order.
Variable datetime_now : nat -> string.
Variable sleep_error : float -> option Exn.

(** The requests [rs] are those of the levels [0, 1, ...], and the orders
    [acc] are what the exchange answered to them, call by call. *)
Let grid_asked (symbol : string) (side : OrderSide)
    (qty_per_level base_price grid_percentage : float) (w : World)
    (acc : list Order) (rs : list OrderRequest) : Prop :=
  (forall j r, rs !! j = Some r ->
     exists price, grid_price side base_price grid_percentage (Z.of_nat j) = inr price
                   /\ r = limit_request symbol side qty_per_level price "GTC")
  /\ (forall j o, acc !! j = Some o ->
        exists r, rs !! j = Some r /\ exchange (n_submitted w + j) r = inr o).

Let grid_ledger (w w' : World) (acc : list Order) (rs : list OrderRequest) : Prop :=
  order_history w' = order_history w ++ grid_entries datetime_now (n_submitted w) acc
  /\ orders w' = insert_all acc (orders w)
  /\ trace w' = trace w ++ List.map Submit rs.

Lemma grid_answers (symbol : string) (side : OrderSide)
    (qty_per_level base_price grid_percentage : float) (n : nat) (w : World) :
  match
    for_each (grid_body exchange datetime_now symbol side qty_per_level base_price
                grid_percentage) [] (List.map Z.of_nat (seq 0 n)) w
  with
  | (w', inr result) =>
      exists rs, grid_ledger w w' result rs
                 /\ length result = n /\ length rs = n
                 /\ grid_asked symbol side qty_per_level base_price grid_percentage
                      w result rs
  | (w', inl _) =>
      exists acc rs,
        grid_ledger w w' acc rs
        /\ (length acc < n)%nat
        /\ grid_asked symbol side qty_per_level base_price grid_percentage w acc rs
        /\ ((length rs = length acc
             /\ exists e, grid_price side base_price grid_percentage
                            (Z.of_nat (length acc)) = inl e)
            \/ (length rs = S (length acc)
                /\ exists r e, rs !! length acc = Some r
                               /\ exchange (n_submitted w + length acc) r = inl e))
  end.
Proof.
  apply (for_each_seq_either
           (grid_body exchange datetime_now symbol side qty_per_level base_price
              grid_percentage)
           (fun j w' a =>
              exists rs, grid_ledger w w' a rs /\ length a = j /\ length rs = j
                         /\ grid_asked symbol side qty_per_level base_price
                              grid_percentage w a rs)
           (fun w' =>
              exists acc rs,
                grid_ledger w w' acc rs
                /\ (length acc < n)%nat
                /\ grid_asked symbol side qty_per_level base_price grid_percentage
                     w acc rs
                /\ ((length rs = length acc
                     /\ exists e, grid_price side base_price grid_percentage
                                    (Z.of_nat (length acc)) = inl e)
                    \/ (length rs = S (length acc)
                        /\ exists r e, rs !! length acc = Some r
                                       /\ exchange (n_submitted w + length acc) r
                                          = inl e)))
           n 0%nat w []).
  - intros j w1 a Hj (rs & (Hh & Ho & Ht) & Ha & Hr & Hreq & Hans).
    assert (Hn : n_submitted w1 = (n_submitted w + j)%nat).
    { unfold n_submitted. rewrite Ht, submissions_app, length_app,
        submissions_Submits. lia. }
    unfold grid_body, bind, lift.
    destruct (grid_price side base_price grid_percentage (Z.of_nat j))
      as [e|price] eqn:Hprice.
    + exists a, rs. split; [repeat split; assumption|]. split; [lia|].
      split; [split; assumption|]. left. split; [lia|].
      exists e. rewrite Ha. exact Hprice.
    + unfold futures_create_order. rewrite Hn.
      set (r := grid_request symbol side qty_per_level price).
      assert (Hreq' : forall k r', (rs ++ [r]) !! k = Some r' ->
                exists price', grid_price side base_price grid_percentage (Z.of_nat k)
                               = inr price'
                               /\ r' = limit_request symbol side qty_per_level price'
                                         "GTC").
      { intros k r' Hk. apply lookup_snoc_Some in Hk.
        destruct Hk as [[_ Hk]|[-> <-]]; [eauto|].
        exists price. rewrite Hr. split; [exact Hprice | reflexivity]. }
      assert (Hans' : forall k o, a !! k = Some o ->
                exists r', (rs ++ [r]) !! k = Some r'
                           /\ exchange (n_submitted w + k) r' = inr o).
      { intros k o Hk. destruct (Hans k o Hk) as (r' & Hr' & Hex).
        exists r'. split; [apply lookup_app_l_Some; exact Hr' | exact Hex]. }
      assert (Hlast : (rs ++ [r]) !! j = Some r).
      { apply list_lookup_middle. symmetry. exact Hr. }
      assert (Ht' : trace (with_event w1 (Submit r))
                    = trace w ++ List.map Submit (rs ++ [r])).
      { cbn [with_event trace]. rewrite Ht, List.map_app, <- app_assoc. reflexivity. }
      destruct (exchange (n_submitted w + j) r) as [e|o] eqn:Hex.
      * exists a, (rs ++ [r]). split; [repeat split; assumption|]. split; [lia|].
        split; [split; assumption|]. right. rewrite length_app. simpl.
        split; [lia|]. exists r, e. rewrite Ha. split; assumption.
      * unfold record_order, ret. rewrite n_submitted_with_Submit, Hn.
        exists (rs ++ [r]). rewrite !length_app. simpl.
        split; [|split; [lia|split; [lia|split; [exact Hreq'|]]]].
        -- split; [|split; [|exact Ht']].
           ++ cbn [order_history with_event]. rewrite Hh, grid_entries_snoc, Ha.
              rewrite <- app_assoc. unfold grid_entry.
              replace (n_submitted w + S j)%nat with (S (n_submitted w + j)) by lia.
              reflexivity.
           ++ cbn [orders with_event]. rewrite Ho, insert_all_snoc. reflexivity.
        -- intros k o' Hk. apply lookup_snoc_Some in Hk.
           destruct Hk as [[_ Hk]|[-> <-]]; [auto|].
           exists r. rewrite Ha. split; assumption.
  - exists []. split; [|split; [reflexivity|split; [reflexivity|]]].
    + repeat split.
      * unfold grid_entries. simpl. rewrite app_nil_r. reflexivity.
      * simpl. rewrite app_nil_r. reflexivity.
    + split; intros j x Hx; discriminate Hx.
Qed.

Let twap_ledger (w w' : World) (acc : list Order) : Prop :=
  order_history w' = order_history w ++ twap_entries datetime_now (n_submitted w) acc
  /\ orders w' = insert_all acc (orders w).

Lemma twap_answers (symbol : string) (side : OrderSide)
    (qty_per_slice time_interval : float) (num_slices : Z) (w : World) :
  let n := Z.to_nat num_slices in
  let r := market_request symbol side qty_per_slice in
  match
    for_each (twap_body exchange datetime_now sleep_error symbol side qty_per_slice
                num_slices time_interval) [] (List.map Z.of_nat (seq 0 n)) w
  with
  | (w', inr result) =>
      twap_ledger w w' result /\ length result = n
      /\ trace w' = trace w ++ twap_events r time_interval n n
      /\ (forall k o, result !! k = Some o -> exchange (n_submitted w + k) r = inr o)
  | (w', inl _) =>
      exists acc j,
        twap_ledger w w' acc
        /\ (j < n)%nat
        /\ trace w' = trace w ++ twap_events r time_interval n j ++ [Submit r]
        /\ (forall k o, acc !! k = Some o -> exchange (n_submitted w + k) r = inr o)
        /\ ((length acc = j /\ exists e, exchange (n_submitted w + j) r = inl e)
            \/ (length acc = S j /\ (S j < n)%nat
                /\ exists e, sleep_error time_interval = Some e))
  end.
Proof.
  intros n r.
  apply (for_each_seq_either
           (twap_body exchange datetime_now sleep_error symbol side qty_per_slice
              num_slices time_interval)
           (fun j w' a =>
              twap_ledger w w' a /\ length a = j
              /\ trace w' = trace w ++ twap_events r time_interval n j
              /\ (forall k o, a !! k = Some o ->
                    exchange (n_submitted w + k) r = inr o))
           (fun w' =>
              exists acc j,
                twap_ledger w w' acc
                /\ (j < n)%nat
                /\ trace w' = trace w ++ twap_events r time_interval n j ++ [Submit r]
                /\ (forall k o, acc !! k = Some o ->
                      exchange (n_submitted w + k) r = inr o)
                /\ ((length acc = j /\ exists e, exchange (n_submitted w + j) r = inl e)
                    \/ (length acc = S j /\ (S j < n)%nat
                        /\ exists e, sleep_error time_interval = Some e)))
           n 0%nat w []).
  - intros j w1 a Hj ((Hh & Ho) & Ha & Ht & Hans).
    assert (Hn : n_submitted w1 = (n_submitted w + j)%nat).
    { unfold n_submitted. rewrite Ht, submissions_app, length_app,
        submissions_twap_events, repeat_length. lia. }
    unfold twap_body, bind, futures_create_order. fold r. rewrite Hn.
    assert (Ht' : trace (with_event w1 (Submit r))
                  = trace w ++ twap_events r time_interval n j ++ [Submit r]).
    { cbn [with_event trace]. rewrite Ht, <- app_assoc. reflexivity. }
    destruct (exchange (n_submitted w + j) r) as [e|o] eqn:Hex.
    + exists a, j. split; [split; assumption|]. split; [lia|].
      split; [exact Ht'|]. split; [exact Hans|]. left. split; [exact Ha|].
      exists e. exact Hex.
    + unfold record_order. rewrite n_submitted_with_Submit, Hn.
      assert (Hstate : twap_ledger w
                {| orders := <[orderId o := o]> (orders (with_event w1 (Submit r)));
                   order_history :=
                     order_history (with_event w1 (Submit r)) ++
                       [{| h_order := o;
                           timestamp := datetime_now (S (n_submitted w + j));
                           order_type := OrderType_value TWAP;
                           stop_price := None;
                           grid_level := None;
                           slice_number := Some (Z.of_nat j + 1) |}];
                   trace := trace (with_event w1 (Submit r)) |} (a ++ [o])).
      { split.
        - cbn [order_history with_event]. rewrite Hh, twap_entries_snoc, Ha.
          rewrite <- app_assoc. unfold twap_entry.
          replace (n_submitted w + S j)%nat with (S (n_submitted w + j)) by lia.
          reflexivity.
        - cbn [orders with_event]. rewrite Ho, insert_all_snoc. reflexivity. }
      assert (Hans' : forall k o', (a ++ [o]) !! k = Some o' ->
                exchange (n_submitted w + k) r = inr o').
      { intros k o' Hk. apply lookup_snoc_Some in Hk.
        destruct Hk as [[_ Hk]|[-> <-]]; [auto|]. rewrite Ha. exact Hex. }
      assert (Htest : (Z.of_nat j <? num_slices - 1)%Z = (S j <? n)%nat).
      { unfold n in *. destruct (Z.ltb_spec (Z.of_nat j) (num_slices - 1));
          destruct (Nat.ltb_spec (S j) (Z.to_nat num_slices)); try reflexivity; lia. }
      rewrite Htest. destruct (Nat.ltb_spec (S j) n) as [Hmore|Hlast].
      * unfold time_sleep. destruct (sleep_error time_interval) as [e|] eqn:Hsl.
        -- exists (a ++ [o]), j. rewrite length_app. simpl.
           split; [exact Hstate|]. split; [lia|]. split; [exact Ht'|].
           split; [exact Hans'|]. right. split; [lia|]. split; [lia|].
           exists e. reflexivity.
        -- unfold ret. cbn [with_event orders order_history trace].
           rewrite length_app. simpl.
           split; [exact Hstate|]. split; [lia|]. split; [|exact Hans'].
           rewrite twap_events_S. destruct (Nat.ltb_spec (S j) n); [|lia].
           rewrite Ht, <- !app_assoc. reflexivity.
      * unfold ret. rewrite length_app. simpl.
        split; [exact Hstate|]. split; [lia|]. split; [|exact Hans'].
        rewrite twap_events_S. destruct (Nat.ltb_spec (S j) n); [lia|].
        cbn [trace with_event]. rewrite Ht, <- !app_assoc. reflexivity.
  - split; [|split; [reflexivity|split]].
    + split.
      * unfold twap_entries. simpl. rewrite app_nil_r. reflexivity.
      * reflexivity.
    + simpl. rewrite app_nil_r. reflexivity.
    + intros k o Hk. discriminate Hk.
Qed.

End RunAnswers.

(* ===================================================================== *)
(** * The ledger under every method *)
(* ===================================================================== *)

Lemma ledger_indexed_of (w w' : World) (entries : list HistoryEntry)
    (acc : list Order) :
  order_history w' = order_history w ++ entries ->
  List.map h_order entries = acc ->
  orders w' = insert_all acc (orders w) ->
  ledger_indexed w w'.
Proof.
  intros Hh Hacc Ho. unfold ledger_indexed, newly_recorded.
  rewrite Hh, drop_app_length, Hacc, Ho. split.
  - intros o Hin. apply insert_all_lookup. exact Hin.
  - intros Hnd Hfresh.
    destruct (insert_all_fresh acc (orders w) Hnd Hfresh) as (Hsize & Hget & _).
    split; assumption.
Qed.

Lemma ledger_extends_of (w w' : World) (entries : list HistoryEntry)
    (acc : list Order) (events : list Event) :
  order_history w' = order_history w ++ entries ->
  orders w' = insert_all acc (orders w) ->
  trace w' = trace w ++ events ->
  ledger_extends w w'.
Proof.
  intros Hh Ho Ht. unfold ledger_extends. rewrite Hh, Ho, Ht.
  split; [eexists; reflexivity|]. split; [eexists; reflexivity|].
  intros k. apply insert_all_keeps.
Qed.

Section Ledger.

Variable exchange : nat -> OrderRequest -> Exn + Order.
Variable datetime_now : nat -> string.
Variable sleep_error : float -> option Exn.

(** The body all four single-order methods share. *)
Let single (r : OrderRequest) (kind : string) (stop : option float) :=
  try_except
    (bind (futures_create_order exchange r)
       (fun order =>
          bind (record_order datetime_now order kind stop None None)
            (fun _ => ret (Some order))))
    None.

Lemma single_order_ledger (r : OrderRequest) (kind : string) (stop : option float)
    (w : World) :
  exists (entries : list HistoryEntry) (acc : list Order),
    order_history (fst (single r kind stop w)) = order_history w ++ entries
    /\ List.map h_order entries = acc
    /\ orders (fst (single r kind stop w)) = insert_all acc (orders w)
    /\ trace (fst (single r kind stop w)) = trace w ++ [Submit r].
Proof.
  unfold single. rewrite single_order_run.
  destruct (exchange (n_submitted w) r) as [e|order].
  - exists [], []. cbn. rewrite app_nil_r. repeat split.
  - eexists [_], [order]. cbn. repeat split.
Qed.

Lemma single_order_outcome_holds (r : OrderRequest) (kind : string)
    (stop : option float) (w : World) :
  single_order_outcome exchange datetime_now w r kind stop (single r kind stop w).
Proof.
  unfold single, single_order_outcome. rewrite single_order_run.
  destruct (exchange (n_submitted w) r) as [e|order]; [reflexivity|].
  cbn [fst snd orders order_history trace].
  split; [reflexivity|]. split; [reflexivity|]. split; [reflexivity|].
  split; [apply lookup_insert_eq|].
  split; [intros k Hk; apply lookup_insert_ne; congruence|].
  destruct (decide (is_Some (orders w !! orderId order))) as [Hin|Hout].
  - apply map_size_insert_Some. exact Hin.
  - apply map_size_insert_None. apply eq_None_not_Some. exact Hout.
Qed.

(** X6.  Each of the four single-order methods makes its one request and
    then depends on the answer alone.  When the exchange raises, it returns
    [None] and neither [orders] nor the history changes.  When the
    exchange answers with an order, it returns that order, appends one
    entry for it to the history (tagged with the kind of order, with the
    stop price for STOP_LIMIT and OCO), and stores it under its id, the
    other ids untouched; [orders] grows by one key unless the id was
    there already, in which case the order under it is replaced. *)
Theorem single_orders_outcome (symbol : string) (side : OrderSide)
    (quantity price stop_price : float) (time_in_force : string)
    (stop_limit_price : option float) (w : World) :
  single_order_outcome exchange datetime_now w
    (market_request symbol side quantity) "MARKET" None
    (place_market_order exchange datetime_now symbol side quantity w)
  /\ single_order_outcome exchange datetime_now w
       (limit_request symbol side quantity price time_in_force) "LIMIT" None
       (place_limit_order exchange datetime_now symbol side quantity price
          time_in_force w)
  /\ single_order_outcome exchange datetime_now w
       (stop_limit_request symbol side quantity price stop_price time_in_force)
       "STOP_LIMIT" (Some stop_price)
       (place_stop_limit_order exchange datetime_now symbol side quantity price
          stop_price time_in_force w)
  /\ single_order_outcome exchange datetime_now w
       (oco_request symbol side quantity price stop_price
          (match stop_limit_price with None => stop_price | Some p => p end))
       "OCO" (Some stop_price)
       (place_oco_order exchange datetime_now symbol side quantity price stop_price
          stop_limit_price w).
Proof.
  refine (conj _ (conj _ (conj _ _))); apply single_order_outcome_holds.
Qed.

Lemma lookup_repeat {X} (x : X) (n k : nat) :
  (k < n)%nat -> repeat x n !! k = Some x.
Proof.
  revert k. induction n as [|n IH]; intros k Hk; [lia|].
  destruct k as [|k]; [reflexivity|]. simpl. apply IH. lia.
Qed.

(** X7.  In every Grid run, whatever the exchange answers.  The requests
    made are those of the levels 0, 1, ... in order, each a GTC LIMIT order
    on the cleaned symbol for [quantity / grid_levels] at the price of its
    level.  The orders recorded are exactly what the exchange answered to
    these requests, call by call: the history gains one entry for each, in
    order, tagged GRID with the levels 1, 2, ..., and they are stored in
    [orders].  Either every level was answered with an order and the method
    returns these orders; or it returns the empty list, because the
    quantity per level could not be computed (nothing was asked), because
    the price of the next level could not be computed, or because the
    exchange raised on the last request made, which is then the one request
    that is not recorded. *)
Theorem grid_run_ledger (symbol : string) (side : OrderSide)
    (quantity base_price : float) (grid_levels : Z) (grid_percentage : float)
    (w : World) :
  let '(w', result) :=
    place_grid_order exchange datetime_now symbol side quantity base_price
      grid_levels grid_percentage w in
  exists (acc : list Order) (rs : list OrderRequest),
    trace w' = trace w ++ List.map Submit rs
    /\ (forall j r, rs !! j = Some r ->
          exists qty price,
            float_div_int quantity grid_levels = inr qty
            /\ grid_price side base_price grid_percentage (Z.of_nat j) = inr price
            /\ r = {| rq_symbol := clean_symbol symbol;
                      rq_side := match side with
                                 | BUY => "BUY"%string
                                 | SELL => "SELL"%string
                                 end;
                      rq_type := "LIMIT"%string;
                      rq_timeInForce := Some "GTC"%string;
                      rq_quantity := qty;
                      rq_price := Some price;
                      rq_stopPrice := None;
                      rq_stopLimitPrice := None;
                      rq_stopLimitTimeInForce := None |})
    /\ (forall j o, acc !! j = Some o ->
          exists r, rs !! j = Some r /\ exchange (n_submitted w + j) r = inr o)
    /\ order_history w'
       = order_history w ++ grid_entries datetime_now (n_submitted w) acc
    /\ List.map h_order (grid_entries datetime_now (n_submitted w) acc) = acc
    /\ List.map grid_level (grid_entries datetime_now (n_submitted w) acc)
       = List.map (fun k => Some (Z.of_nat k + 1)) (seq 0 (length acc))
    /\ Forall (fun en => order_type en = "GRID"%string)
         (grid_entries datetime_now (n_submitted w) acc)
    /\ orders w' = insert_all acc (orders w)
    /\ (length rs <= Z.to_nat grid_levels)%nat
    /\ ((result = acc /\ length acc = Z.to_nat grid_levels /\ length rs = length acc)
        \/ (result = []
            /\ ((acc = [] /\ rs = []
                 /\ exists e, float_div_int quantity grid_levels = inl e)
                \/ (length rs = length acc
                    /\ (length acc < Z.to_nat grid_levels)%nat
                    /\ exists e, grid_price side base_price grid_percentage
                                   (Z.of_nat (length acc)) = inl e)
                \/ (length rs = S (length acc)
                    /\ exists r e, rs !! length acc = Some r
                                   /\ exchange (n_submitted w + length acc) r
                                      = inl e)))).
Proof.
  unfold place_grid_order, try_except, bind, lift.
  destruct (float_div_int quantity grid_levels) as [e|qty] eqn:Hqty.
  - exists [], []. unfold grid_entries. simpl. rewrite !app_nil_r.
    refine (conj eq_refl (conj _ (conj _ (conj eq_refl (conj eq_refl (conj eq_refl
              (conj (Forall_nil_2 _) (conj eq_refl (conj _ _))))))))).
    + intros j r Hr. discriminate Hr.
    + intros j o Ho. discriminate Ho.
    + lia.
    + right. split; [reflexivity|]. left. eauto.
  - pose proof (grid_answers exchange datetime_now symbol side qty base_price
                  grid_percentage (Z.to_nat grid_levels) w) as H.
    unfold py_range.
    destruct (for_each _ _ _ w) as [w' [e|result]].
    + destruct H as (acc & rs & (Hh & Ho & Ht) & Hlt & (Hreq & Hans) & Hwhy).
      exists acc, rs.
      destruct (grid_entries_read datetime_now (n_submitted w) acc) as (H1 & H2 & H3).
      refine (conj Ht (conj _ (conj Hans (conj Hh (conj H1 (conj H2 (conj H3
                (conj Ho (conj _ _))))))))).
      * intros j r Hr. destruct (Hreq j r Hr) as (price & Hp & ->).
        exists qty, price. destruct side; repeat split; assumption.
      * destruct Hwhy as [[-> _]|[-> _]]; lia.
      * right. split; [reflexivity|]. right.
        destruct Hwhy as [[Hl He]|[Hl He]]; [left|right]; repeat split; assumption.
    + destruct H as (rs & (Hh & Ho & Ht) & Hlen & Hrs & (Hreq & Hans)).
      exists result, rs.
      destruct (grid_entries_read datetime_now (n_submitted w) result)
        as (H1 & H2 & H3).
      refine (conj Ht (conj _ (conj Hans (conj Hh (conj H1 (conj H2 (conj H3
                (conj Ho (conj _ _))))))))).
      * intros j r Hr. destruct (Hreq j r Hr) as (price & Hp & ->).
        exists qty, price. destruct side; repeat split; assumption.
      * lia.
      * left. repeat split; [assumption | lia].
Qed.

(** X8.  In every TWAP run, whatever the exchange and the sleep do.  Every
    request made is a MARKET order on the cleaned symbol for
    [total_quantity / num_slices] and every sleep lasts [time_interval].
    The orders recorded are exactly what the exchange answered to the
    requests, call by call: the history gains one entry for each, in
    order, tagged TWAP with the slices 1, 2, ..., and they are stored in
    [orders].  There are never more sleeps than recorded slices nor more
    than [num_slices - 1].  Either every slice was answered with an order,
    the events are exactly the full schedule and the method returns these
    orders; or it returns the empty list, because the quantity per slice
    could not be computed (nothing was asked), because the exchange raised
    on the last request made, which is then the one request not recorded,
    or because [time.sleep] raised after a recorded slice that was not the
    last. *)
Theorem twap_run_ledger (symbol : string) (side : OrderSide)
    (total_quantity : float) (num_slices : Z) (time_interval : float) (w : World) :
  let '(w', result) :=
    place_twap_order exchange datetime_now sleep_error symbol side total_quantity
      num_slices time_interval w in
  exists (acc : list Order) (events : list Event),
    trace w' = trace w ++ events
    /\ Forall (fun r => exists qty,
                 float_div_int total_quantity num_slices = inr qty
                 /\ r = {| rq_symbol := clean_symbol symbol;
                           rq_side := match side with
                                      | BUY => "BUY"%string
                                      | SELL => "SELL"%string
                                      end;
                           rq_type := "MARKET"%string;
                           rq_timeInForce := None;
                           rq_quantity := qty;
                           rq_price := None;
                           rq_stopPrice := None;
                           rq_stopLimitPrice := None;
                           rq_stopLimitTimeInForce := None |})
         (submissions events)
    /\ Forall (fun t => t = time_interval) (sleeps events)
    /\ (forall j o, acc !! j = Some o ->
          exists r, submissions events !! j = Some r
                    /\ exchange (n_submitted w + j) r = inr o)
    /\ order_history w'
       = order_history w ++ twap_entries datetime_now (n_submitted w) acc
    /\ List.map h_order (twap_entries datetime_now (n_submitted w) acc) = acc
    /\ List.map slice_number (twap_entries datetime_now (n_submitted w) acc)
       = List.map (fun k => Some (Z.of_nat k + 1)) (seq 0 (length acc))
    /\ Forall (fun en => order_type en = "TWAP"%string)
         (twap_entries datetime_now (n_submitted w) acc)
    /\ orders w' = insert_all acc (orders w)
    /\ (length (submissions events) <= Z.to_nat num_slices)%nat
    /\ (length (sleeps events) <= length acc)%nat
    /\ (length (sleeps events) <= Z.to_nat num_slices - 1)%nat
    /\ ((result = acc /\ length acc = Z.to_nat num_slices
         /\ length (submissions events) = length acc
         /\ sleeps events = repeat time_interval (Z.to_nat num_slices - 1)
         /\ exists qty,
              float_div_int total_quantity num_slices = inr qty
              /\ events
                 = twap_schedule
                     {| rq_symbol := clean_symbol symbol;
                        rq_side := match side with
                                   | BUY => "BUY"%string
                                   | SELL => "SELL"%string
                                   end;
                        rq_type := "MARKET"%string;
                        rq_timeInForce := None;
                        rq_quantity := qty;
                        rq_price := None;
                        rq_stopPrice := None;
                        rq_stopLimitPrice := None;
                        rq_stopLimitTimeInForce := None |}
                     time_interval (Z.to_nat num_slices))
        \/ (result = []
            /\ ((acc = [] /\ events = []
                 /\ exists e, float_div_int total_quantity num_slices = inl e)
                \/ (length (submissions events) = S (length acc)
                    /\ exists r e, submissions events !! length acc = Some r
                                   /\ exchange (n_submitted w + length acc) r = inl e)
                \/ (length (submissions events) = length acc
                    /\ (0 < length acc < Z.to_nat num_slices)%nat
                    /\ exists e, sleep_error time_interval = Some e)))).
Proof.
  unfold place_twap_order, try_except, bind, lift.
  destruct (float_div_int total_quantity num_slices) as [e|qty] eqn:Hqty.
  - exists [], []. unfold twap_entries. simpl. rewrite !app_nil_r.
    refine (conj eq_refl (conj (Forall_nil_2 _) (conj (Forall_nil_2 _) (conj _
              (conj eq_refl (conj eq_refl (conj eq_refl (conj (Forall_nil_2 _)
                (conj eq_refl (conj _ (conj _ (conj _ _)))))))))))); try lia.
    + intros j o Ho. discriminate Ho.
    + right. split; [reflexivity|]. left. eauto.
  - pose proof (twap_answers exchange datetime_now sleep_error symbol side qty
                  time_interval num_slices w) as H.
    cbv zeta in H. unfold py_range.
    set (n := Z.to_nat num_slices) in *.
    set (r := market_request symbol side qty) in *.
    assert (Hsub : forall m, Forall (fun r' => exists qty',
                     inr qty = @inr Exn _ qty'
                     /\ r' = {| rq_symbol := clean_symbol symbol;
                                rq_side := match side with
                                           | BUY => "BUY"%string
                                           | SELL => "SELL"%string
                                           end;
                                rq_type := "MARKET"%string;
                                rq_timeInForce := None;
                                rq_quantity := qty';
                                rq_price := None;
                                rq_stopPrice := None;
                                rq_stopLimitPrice := None;
                                rq_stopLimitTimeInForce := None |})
                   (repeat r m)).
    { intros m. apply Forall_forall. intros r' Hin%list_elem_of_In.
      apply repeat_spec in Hin. subst r'. exists qty.
      split; [reflexivity|]. unfold r. destruct side; reflexivity. }
    assert (Hsl : forall m, Forall (fun t => t = time_interval)
                              (repeat time_interval m)).
    { intros m. apply Forall_forall. intros t Hin%list_elem_of_In.
      apply repeat_spec in Hin. assumption. }
    destruct (for_each _ _ _ w) as [w' [e|result]].
    + destruct H as (acc & j & (Hh & Ho) & Hj & Ht & Hans & Hwhy).
      exists acc, (twap_events r time_interval n j ++ [Submit r]).
      destruct (twap_entries_read datetime_now (n_submitted w) acc) as (H1 & H2 & H3).
      assert (Hsubs : submissions (twap_events r time_interval n j ++ [Submit r])
                      = repeat r (S j)).
      { rewrite submissions_app, submissions_twap_events.
        change (submissions [Submit r]) with (repeat r 1).
        rewrite <- repeat_app. f_equal. lia. }
      assert (Hsls : sleeps (twap_events r time_interval n j ++ [Submit r])
                     = repeat time_interval j).
      { rewrite sleeps_app, sleeps_twap_events. simpl. rewrite app_nil_r.
        f_equal. lia. }
      rewrite Hsubs, Hsls, !repeat_length.
      assert (Hacc : (j <= length acc <= S j)%nat)
        by (destruct Hwhy as [[-> _]|[-> _]]; lia).
      refine (conj Ht (conj (Hsub _) (conj (Hsl _) (conj _ (conj Hh (conj H1
                (conj H2 (conj H3 (conj Ho (conj _ (conj _ (conj _ _))))))))))));
        try lia.
      * intros k o Hk. exists r. split; [|apply Hans; exact Hk].
        apply lookup_repeat. apply lookup_lt_Some in Hk. lia.
      * right. split; [reflexivity|]. right.
        destruct Hwhy as [[Hl [e' He']]|[Hl [Hm He']]].
        -- left. split; [lia|]. exists r, e'. rewrite Hl.
           split; [apply lookup_repeat; lia | exact He'].
        -- right. split; [lia|]. split; [lia | exact He'].
    + destruct H as ((Hh & Ho) & Hlen & Ht & Hans).
      exists result, (twap_events r time_interval n n).
      destruct (twap_entries_read datetime_now (n_submitted w) result)
        as (H1 & H2 & H3).
      rewrite submissions_twap_events, sleeps_twap_events, !repeat_length.
      refine (conj Ht (conj (Hsub _) (conj (Hsl _) (conj _ (conj Hh (conj H1
                (conj H2 (conj H3 (conj Ho (conj _ (conj _ (conj _ _))))))))))));
        try lia.
      * intros k o Hk. exists r. split; [|apply Hans; exact Hk].
        apply lookup_repeat. apply lookup_lt_Some in Hk. lia.
      * left. split; [reflexivity|]. split; [exact Hlen|]. split; [lia|].
        split; [f_equal; lia|]. exists qty. split; [reflexivity|].
        rewrite twap_events_all. unfold r. destruct side; reflexivity.
Qed.

(** X9.  No order-placing method ever takes anything out of the ledger:
    after each of the six, the history and the events of before are the
    beginning of those of after, and every id that was in [orders] still
    is. *)
Theorem ledger_only_grows (symbol : string) (side : OrderSide)
    (quantity price stop_price time_interval grid_percentage : float)
    (time_in_force : string) (stop_limit_price : option float)
    (levels : Z) (w : World) :
  ledger_extends w
    (fst (place_market_order exchange datetime_now symbol side quantity w))
  /\ ledger_extends w
       (fst (place_limit_order exchange datetime_now symbol side quantity price
               time_in_force w))
  /\ ledger_extends w
       (fst (place_stop_limit_order exchange datetime_now symbol side quantity price
               stop_price time_in_force w))
  /\ ledger_extends w
       (fst (place_oco_order exchange datetime_now symbol side quantity price
               stop_price stop_limit_price w))
  /\ ledger_extends w
       (fst (place_grid_order exchange datetime_now symbol side quantity price
               levels grid_percentage w))
  /\ ledger_extends w
       (fst (place_twap_order exchange datetime_now sleep_error symbol side quantity
               levels time_interval w)).
Proof.
  assert (Hsingle : forall r kind stop, ledger_extends w (fst (single r kind stop w))).
  { intros r kind stop.
    destruct (single_order_ledger r kind stop w) as (es & acc & Hh & _ & Ho & Ht).
    eapply ledger_extends_of; eassumption. }
  refine (conj _ (conj _ (conj _ (conj _ (conj _ _))))); try apply Hsingle.
  - destruct (grid_outcome exchange datetime_now symbol side quantity price levels
                grid_percentage w) as (acc & rs & Hh & Ho & Ht & _).
    eapply ledger_extends_of; eassumption.
  - destruct (twap_outcome exchange datetime_now sleep_error symbol side quantity
                levels time_interval w) as (acc & evs & Hh & Ho & Ht & _).
    eapply ledger_extends_of; eassumption.
Qed.

(** X10.  History and index agree after every order-placing method: each
    order the method added to the history is found in [orders] under its
    id, as an order of that id; and when the ids it added are pairwise
    distinct and new, each id maps to the very order recorded and [orders]
    has grown by exactly the number of entries added. *)
Theorem ledger_stays_indexed (symbol : string) (side : OrderSide)
    (quantity price stop_price time_interval grid_percentage : float)
    (time_in_force : string) (stop_limit_price : option float)
    (levels : Z) (w : World) :
  ledger_indexed w
    (fst (place_market_order exchange datetime_now symbol side quantity w))
  /\ ledger_indexed w
       (fst (place_limit_order exchange datetime_now symbol side quantity price
               time_in_force w))
  /\ ledger_indexed w
       (fst (place_stop_limit_order exchange datetime_now symbol side quantity price
               stop_price time_in_force w))
  /\ ledger_indexed w
       (fst (place_oco_order exchange datetime_now symbol side quantity price
               stop_price stop_limit_price w))
  /\ ledger_indexed w
       (fst (place_grid_order exchange datetime_now symbol side quantity price
               levels grid_percentage w))
  /\ ledger_indexed w
       (fst (place_twap_order exchange datetime_now sleep_error symbol side quantity
               levels time_interval w)).
Proof.
  assert (Hsingle : forall r kind stop, ledger_indexed w (fst (single r kind stop w))).
  { intros r kind stop.
    destruct (single_order_ledger r kind stop w) as (es & acc & Hh & Hacc & Ho & _).
    eapply ledger_indexed_of; eassumption. }
  refine (conj _ (conj _ (conj _ (conj _ (conj _ _))))); try apply Hsingle.
  - destruct (grid_outcome exchange datetime_now symbol side quantity price levels
                grid_percentage w) as (acc & rs & Hh & Ho & _).
    eapply ledger_indexed_of; [exact Hh | | exact Ho].
    apply grid_entries_read.
  - destruct (twap_outcome exchange datetime_now sleep_error symbol side quantity
                levels time_interval w) as (acc & evs & Hh & Ho & _).
    eapply ledger_indexed_of; [exact Hh | | exact Ho].
    apply twap_entries_read.
Qed.

(** X11.  A Grid with no levels and a TWAP with no slices do nothing: for
    a count of zero (the division raises) or a negative count (the range is
    empty, or the count is too large for a float) the method returns the
    empty list without a call to the exchange and leaves the bot as it
    was. *)
Theorem strategies_without_parts (symbol : string) (side : OrderSide)
    (quantity price time_interval grid_percentage : float) (count : Z) (w : World) :
  (count <= 0)%Z ->
  place_grid_order exchange datetime_now symbol side quantity price count
    grid_percentage w = (w, [])
  /\ place_twap_order exchange datetime_now sleep_error symbol side quantity count
       time_interval w = (w, []).
Proof.
  intros Hcount.
  assert (Hrange : py_range count = []).
  { unfold py_range. replace (Z.to_nat count) with 0%nat by lia. reflexivity. }
  unfold place_grid_order, place_twap_order, try_except, bind, lift.
  rewrite Hrange.
  destruct (float_div_int quantity count); split; reflexivity.
Qed.

End Ledger.

Lemma strategies_without_parts_witness :
  (0 <= 0)%Z
  /\ place_grid_order (scripted_exchange None) fixed_clock "BTC" BUY 1 50000 0 2
       empty_world = (empty_world, [])
  /\ place_twap_order (scripted_exchange None) fixed_clock sleep_nonnegative
       "BTC" BUY 1 0 60 empty_world = (empty_world, []).
Proof.
  assert (H : (0 <= 0)%Z) by lia.
  split; [exact H|].
  exact (strategies_without_parts (scripted_exchange None) fixed_clock
           sleep_nonnegative "BTC" BUY 1 50000 60 2 0 empty_world H).
Defined.

(* ===================================================================== *)
(** * Cancelling and asking *)
(* ===================================================================== *)

Section QueryFacts.

Variable futures_cancel_order : nat -> string -> Z -> Exn + Order.
Variable futures_get_open_orders : nat -> option string -> Exn + list Order.
Variable futures_exchange_info : nat -> Exn + unit.

(** X12.  [validate_symbol] never looks the symbol up: it answers [True]
    exactly when the exchange-info call does not raise, and so gives the
    same answer for any two symbols. *)
Theorem validate_symbol_ignores_symbol (symbol other : string) (s : Session) :
  validate_symbol futures_exchange_info symbol s
  = validate_symbol futures_exchange_info other s
  /\ (snd (validate_symbol futures_exchange_info symbol s) = true
      <-> exists info, futures_exchange_info (length (client_calls s)) = inr info).
Proof.
  unfold validate_symbol, client_call. split; [reflexivity|].
  destruct (futures_exchange_info (length (client_calls s))) as [e|info];
    cbn [snd]; split.
  - discriminate.
  - intros [info H]. discriminate H.
  - intros _. exists info. reflexivity.
  - reflexivity.
Qed.

(** X13.  [get_open_orders] treats the empty symbol as no symbol: it
    asks for the open orders of all symbols; for a symbol that is not
    empty it asks for the cleaned symbol; and it answers with the empty
    list when the client raises. *)
Theorem get_open_orders_empty_symbol (s : Session) :
  get_open_orders futures_get_open_orders (Some ""%string) s
  = get_open_orders futures_get_open_orders None s
  /\ client_calls (fst (get_open_orders futures_get_open_orders None s))
     = client_calls s ++ [CallGetOpenOrders None]
  /\ (forall (c : ascii) (symbol : string),
        client_calls
          (fst (get_open_orders futures_get_open_orders (Some (String c symbol)) s))
        = client_calls s ++ [CallGetOpenOrders (Some (clean_symbol (String c symbol)))])
  /\ (forall (symbol : option string) (e : Exn),
        (forall asked, futures_get_open_orders (length (client_calls s)) asked = inl e) ->
        snd (get_open_orders futures_get_open_orders symbol s) = []).
Proof.
  unfold get_open_orders, client_call.
  split; [reflexivity|]. split; [|split].
  - destruct (futures_get_open_orders (length (client_calls s)) None); reflexivity.
  - intros c symbol.
    destruct (futures_get_open_orders (length (client_calls s))
                (Some (clean_symbol (String c symbol)))); reflexivity.
  - intros symbol e Hraise. destruct symbol as [[|c symbol]|]; rewrite Hraise;
      reflexivity.
Qed.

(** X14.  Cancelling does not reach the ledger: after a limit order was
    placed and the exchange answered with [order], [cancel_order] for its
    id, whether it succeeds or not, leaves the bot as it was, with [order]
    still stored under its id and the history unchanged; it makes one
    cancel call for the cleaned symbol and returns [True] exactly when
    that call does not raise. *)
Theorem cancelled_order_stays_recorded
    (exchange : nat -> OrderRequest -> Exn + Order) (datetime_now : nat -> string)
    (symbol : string) (side : OrderSide) (quantity price : float)
    (time_in_force : string) (w : World) (calls : list ClientCall) (order : Order) :
  snd (place_limit_order exchange datetime_now symbol side quantity price
         time_in_force w) = Some order ->
  let placed := fst (place_limit_order exchange datetime_now symbol side quantity
                       price time_in_force w) in
  let '(s', cancelled) :=
    cancel_order futures_cancel_order symbol (orderId order)
      {| bot := placed; client_calls := calls |} in
  bot s' = placed
  /\ orders (bot s') !! orderId order = Some order
  /\ order_history (bot s') = order_history placed
  /\ client_calls s' = calls ++ [CallCancelOrder (clean_symbol symbol) (orderId order)]
  /\ (cancelled = true
      <-> exists answer,
            futures_cancel_order (length calls) (clean_symbol symbol) (orderId order)
            = inr answer).
Proof.
  intros Hplaced placed.
  assert (Hstored : orders placed !! orderId order = Some order).
  { pose proof (single_order_outcome_holds exchange datetime_now
                  (limit_request symbol side quantity price time_in_force)
                  "LIMIT" None w) as H.
    unfold single_order_outcome in H. fold placed in H.
    change (try_except _ None w)
      with (place_limit_order exchange datetime_now symbol side quantity price
              time_in_force w) in H.
    destruct (exchange (n_submitted w)
                (limit_request symbol side quantity price time_in_force))
      as [e|o].
    - rewrite H in Hplaced. discriminate Hplaced.
    - destruct H as (Hres & _ & _ & Hget & _).
      rewrite Hres in Hplaced. injection Hplaced as ->. exact Hget. }
  unfold cancel_order, client_call. cbn [bot client_calls].
  destruct (futures_cancel_order (length calls) (clean_symbol symbol) (orderId order))
    as [e|answer]; cbn [bot client_calls];
    (split; [reflexivity|]; split; [exact Hstored|]; split; [reflexivity|];
     split; [reflexivity|]; split).
  - discriminate.
  - intros [answer H]. discriminate H.
  - intros _. exists answer. reflexivity.
  - reflexivity.
Qed.

End QueryFacts.

Lemma cancelled_order_stays_recorded_witness :
  let placed := place_limit_order (scripted_exchange None) fixed_clock "BTC" BUY
                  0.5 48000 "GTC" empty_world in
  exists order,
    snd placed = Some order
    /\ orders (bot (fst (cancel_order (scripted_lookup [order]) "BTC" (orderId order)
                           {| bot := fst placed; client_calls := [] |})))
       !! orderId order = Some order.
Proof.
  intros placed.
  assert (H : exists order, snd placed = Some order).
  { vm_compute. eexists. reflexivity. }
  destruct H as [order H]. exists order. split; [exact H|].
  pose proof (cancelled_order_stays_recorded (scripted_lookup [order])
                (scripted_exchange None) fixed_clock "BTC" BUY 0.5 48000 "GTC"
                empty_world [] order H) as Hc.
  cbv zeta in Hc.
  destruct (cancel_order (scripted_lookup [order]) "BTC" (orderId order) _)
    as [s' cancelled].
  exact (proj1 (proj2 Hc)).
Defined.

Section Quiet.

Variable exchange : nat -> OrderRequest -> Exn + Order.
Variable datetime_now : nat -> string.

Lemma sleeps_Submits (rs : list OrderRequest) : sleeps (List.map Submit rs) = [].
Proof. induction rs as [|r rs IH]; simpl; [reflexivity | exact IH]. Qed.

(** X15.  Only TWAP waits: the four single-order methods and the Grid
    never call [time.sleep], whatever the exchange answers; a Grid submits
    its levels back to back. *)
Theorem only_twap_sleeps (symbol : string) (side : OrderSide)
    (quantity price stop_price grid_percentage : float) (time_in_force : string)
    (stop_limit_price : option float) (grid_levels : Z) (w : World) :
  sleeps (trace (fst (place_market_order exchange datetime_now symbol side quantity w)))
  = sleeps (trace w)
  /\ sleeps (trace (fst (place_limit_order exchange datetime_now symbol side quantity
                           price time_in_force w)))
     = sleeps (trace w)
  /\ sleeps (trace (fst (place_stop_limit_order exchange datetime_now symbol side
                           quantity price stop_price time_in_force w)))
     = sleeps (trace w)
  /\ sleeps (trace (fst (place_oco_order exchange datetime_now symbol side quantity
                           price stop_price stop_limit_price w)))
     = sleeps (trace w)
  /\ sleeps (trace (fst (place_grid_order exchange datetime_now symbol side quantity
                           price grid_levels grid_percentage w)))
     = sleeps (trace w).
Proof.
  unfold place_market_order, place_limit_order, place_stop_limit_order,
    place_oco_order.
  rewrite !single_order_trace, !sleeps_app. simpl. rewrite !app_nil_r.
  repeat split.
  destruct (grid_outcome exchange datetime_now symbol side quantity price grid_levels
              grid_percentage w) as (acc & rs & _ & _ & Ht & _).
  cbv zeta in Ht. rewrite Ht, sleeps_app, sleeps_Submits. apply app_nil_r.
Qed.

End Quiet.

Section QueriesLeaveBot.

Variable futures_cancel_order : nat -> string -> Z -> Exn + Order.
Variable futures_get_open_orders : nat -> option string -> Exn + list Order.
Variable futures_get_order : nat -> string -> Z -> Exn + Order.
Variable futures_exchange_info : nat -> Exn + unit.

(** X16.  The four methods that cancel or ask never write to the bot:
    after [validate_symbol], [cancel_order], [get_open_orders] and
    [get_order_status] the orders, the history and the events of the bot
    are what they were, and exactly one call to the client was made;
    [get_order_status] returns what the client answers for the cleaned
    symbol and the id, not what the bot stored, and [None] when the client
    raises. *)
Theorem queries_leave_bot (symbol : string) (asked : option string) (order_id : Z)
    (s : Session) :
  (bot (fst (validate_symbol futures_exchange_info symbol s)) = bot s
   /\ length (client_calls (fst (validate_symbol futures_exchange_info symbol s)))
      = S (length (client_calls s)))
  /\ (bot (fst (cancel_order futures_cancel_order symbol order_id s)) = bot s
      /\ length (client_calls (fst (cancel_order futures_cancel_order symbol
                                      order_id s)))
         = S (length (client_calls s)))
  /\ (bot (fst (get_open_orders futures_get_open_orders asked s)) = bot s
      /\ length (client_calls (fst (get_open_orders futures_get_open_orders asked s)))
         = S (length (client_calls s)))
  /\ (bot (fst (get_order_status futures_get_order symbol order_id s)) = bot s
      /\ client_calls (fst (get_order_status futures_get_order symbol order_id s))
         = client_calls s ++ [CallGetOrder (clean_symbol symbol) order_id]
      /\ snd (get_order_status futures_get_order symbol order_id s)
         = match futures_get_order (length (client_calls s)) (clean_symbol symbol)
                   order_id with
           | inl _ => None
           | inr order => Some order
           end).
Proof.
  unfold validate_symbol, cancel_order, get_open_orders, get_order_status, client_call.
  refine (conj _ (conj _ (conj _ _))).
  - destruct (futures_exchange_info _); cbn; rewrite length_app; simpl; split;
      [reflexivity | lia | reflexivity | lia].
  - destruct (futures_cancel_order _ _ _); cbn; rewrite length_app; simpl; split;
      [reflexivity | lia | reflexivity | lia].
  - destruct asked as [[|c asked]|];
      destruct (futures_get_open_orders _ _); cbn; rewrite length_app; simpl; split;
      try reflexivity; lia.
  - destruct (futures_get_order _ _ _); cbn; repeat split.
Qed.

End QueriesLeaveBot.

(* ===================================================================== *)
(** * The ladder of a grid: the order of the prices, the sum of the
      quantities *)
(* ===================================================================== *)

(** ** Signed rounding *)













(** ** The arithmetic of floats rounds the exact result *)
















(** ** Floats that stay finite, floats that are numbers *)










(** ** The error of a rounding *)


(** ** The floats of the grid *)

Section GridFloats.

Import PyNum.
















(** ** The price of a level before it is quantized *)








End GridFloats.

(** ** The quantizer keeps the order of prices *)

Section QuantizerOrder.

Import PyNum.






End QuantizerOrder.

(** ** The quantity of a level *)

Section LevelQuantity.

Import PyNum.




End LevelQuantity.

(** ** The ladder of a grid *)




Section GridLadder.

Variable exchange : nat -> OrderRequest -> Exn + Order.
Variable datetime_now : nat -> string.


End GridLadder.

